(** * Market state and deterministic execution engine of polymarket-bot

    A shallow embedding of the order book ([InMemoryOrderBook]), the
    feature store ([MarketStateStore]), the risk gate ([RiskGate] over
    [RiskManager]) and the paper fill simulator ([PaperExecutionSim]),
    with the properties the specification states about them.

    Modelling conventions.
    - [Decimal] (decimal.js) is the field of rationals [Q]: [plus],
      [minus], [times], [div], [abs], [min], [max] and the comparisons are
      the exact operations, compared with [==].  decimal.js rounds every
      result to 20 significant digits; the specification takes the values
      as exact decimals, and so does this development, except for the
      EMA and the Kelly fraction, whose properties depend on the
      rounding: module [Rounded] redoes them with every operation
      rounded as decimal.js rounds it.
    - [Date] values and [Date.now()] are milliseconds in [Z]; JavaScript
      numbers that count or order things (sequence numbers, counters) are
      [Z].
    - A JavaScript [Map] whose iteration order is observed is an
      association list in insertion order ([js_set] keeps the position of
      an existing key); a [Map] that is only looked up by key is a [gmap].
    - The ambient sources [Math.random()], [randomUUID()], [new Date()]
      and [existsSync] are read from an explicit [World].
    - An instance of the simulator is modelled with its own copy of each
      order it holds; module [ByRef] keeps the orders as objects in a
      heap shared with the caller, for what depends on the sharing. *)

From Stdlib Require Import QArith Qabs Qminmax Qround Qpower ZArith List String Bool.
From Stdlib Require Import Lia Lqa SetoidList Sorted.
From stdpp Require Import gmap strings.
Import ListNotations.

Open Scope Q_scope.

Abbreviation Decimal := Q.

(** ** JavaScript [Map] with observable insertion order *)

Section JsMap.
Context {K V : Type}.
Variable eqb : K -> K -> bool.

Fixpoint js_get (k : K) (m : list (K * V)) : option V :=
  match m with
  | [] => None
  | (k', v) :: m' => if eqb k' k then Some v else js_get k m'
  end.

Definition js_has (k : K) (m : list (K * V)) : bool :=
  match js_get k m with Some _ => true | None => false end.

(** [Map.prototype.set]: an existing key keeps its place in the
    iteration order and gets the new value; a new key goes last. *)
Fixpoint js_set (k : K) (v : V) (m : list (K * V)) : list (K * V) :=
  match m with
  | [] => [(k, v)]
  | (k', v') :: m' =>
      if eqb k' k then (k', v) :: m' else (k', v') :: js_set k v m'
  end.

Fixpoint js_delete (k : K) (m : list (K * V)) : list (K * V) :=
  match m with
  | [] => []
  | (k', v') :: m' =>
      if eqb k' k then js_delete k m' else (k', v') :: js_delete k m'
  end.

Definition js_values (m : list (K * V)) : list V := List.map snd m.
Definition js_keys (m : list (K * V)) : list K := List.map fst m.
End JsMap.

(** [Array.prototype.sort] with a comparator: a stable sort.  The
    comparator returns a [comparison] where JavaScript returns a negative
    number, zero or a positive number. *)
Section JsSort.
Context {A : Type}.
Variable cmp : A -> A -> comparison.

Fixpoint js_insert (x : A) (l : list A) : list A :=
  match l with
  | [] => [x]
  | y :: l' =>
      match cmp x y with
      | Gt => y :: js_insert x l'
      | _ => x :: l
      end
  end.

Definition js_sort (l : list A) : list A := fold_right js_insert [] l.
End JsSort.

(** ** packages/core/src/types.ts *)

Record PriceLevel := { lvl_price : Decimal; lvl_size : Decimal }.

(** The order book of the core package (the one [InMemoryOrderBook]
    holds). *)
Record CoreOrderBook := {
  cb_marketId : string;
  cb_tokenId : string;
  cb_bids : list PriceLevel;
  cb_asks : list PriceLevel;
  cb_lastUpdate : Z;
  cb_sequence : option Z
}.

(** ** packages/storage/src/orderbook.ts *)

Inductive SortOrder := asc | desc.

Record InMemoryOrderBook := {
  book : CoreOrderBook;
  lastSequence : option Z
}.

(** The constructor copies the snapshot as it is and takes its sequence
    number as the last applied one. *)
Definition newInMemoryOrderBook (initialBook : CoreOrderBook)
    : InMemoryOrderBook :=
  {| book := initialBook; lastSequence := cb_sequence initialBook |}.

(** [a.price.comparedTo(b.price)], negated for ['desc']. *)
Definition level_cmp (sortOrder : SortOrder) (a b : PriceLevel) : comparison :=
  let cmp := lvl_price a ?= lvl_price b in
  match sortOrder with asc => cmp | desc => CompOpp cmp end.

(** The key of [priceMap] is [price.toString()]: two decimals have the
    same string exactly when they are the same number, so the keys are
    compared with [Qeq_bool]. *)
Definition applyLevels (existing updates : list PriceLevel)
    (sortOrder : SortOrder) : list PriceLevel :=
  let priceMap :=
    fold_left (fun m level => js_set Qeq_bool (lvl_price level) level m)
              existing [] in
  let priceMap :=
    fold_left (fun m update =>
                 let key := lvl_price update in
                 if Qle_bool (lvl_size update) 0
                 then js_delete Qeq_bool key m
                 else js_set Qeq_bool key update m)
              updates priceMap in
  let levels := js_values priceMap in
  js_sort (level_cmp sortOrder) levels.

(** [applyDelta(bids, asks, sequence?)]; [now] is the value of
    [new Date()]. *)
Definition applyDelta (now : Z) (bids asks : list PriceLevel)
    (sequence : option Z) (self : InMemoryOrderBook) : InMemoryOrderBook :=
  let stale :=
    match sequence, lastSequence self with
    | Some s, Some l => (s <=? l)%Z
    | _, _ => false
    end in
  if stale then self
  else
    let b := book self in
    let bids' := applyLevels (cb_bids b) bids desc in
    let asks' := applyLevels (cb_asks b) asks asc in
    match sequence with
    | Some s =>
        {| book := {| cb_marketId := cb_marketId b; cb_tokenId := cb_tokenId b;
                      cb_bids := bids'; cb_asks := asks';
                      cb_lastUpdate := now; cb_sequence := Some s |};
           lastSequence := Some s |}
    | None =>
        {| book := {| cb_marketId := cb_marketId b; cb_tokenId := cb_tokenId b;
                      cb_bids := bids'; cb_asks := asks';
                      cb_lastUpdate := now; cb_sequence := cb_sequence b |};
           lastSequence := lastSequence self |}
    end.

Definition getBestBid (self : InMemoryOrderBook) : option Decimal :=
  match cb_bids (book self) with [] => None | l :: _ => Some (lvl_price l) end.

Definition getBestAsk (self : InMemoryOrderBook) : option Decimal :=
  match cb_asks (book self) with [] => None | l :: _ => Some (lvl_price l) end.

(** One call of [applyDelta], as the ingestion loop issues them. *)
Record Delta := {
  d_now : Z;
  d_bids : list PriceLevel;
  d_asks : list PriceLevel;
  d_sequence : option Z
}.

Definition applyDeltas (ds : list Delta) (self : InMemoryOrderBook)
    : InMemoryOrderBook :=
  fold_left (fun s d => applyDelta (d_now d) (d_bids d) (d_asks d)
                                   (d_sequence d) s) ds self.

(** The order a side is kept in. *)
Definition strictly_descending (l : list PriceLevel) : Prop :=
  StronglySorted (fun a b => lvl_price b < lvl_price a) l.

Definition strictly_ascending (l : list PriceLevel) : Prop :=
  StronglySorted (fun a b => lvl_price a < lvl_price b) l.

Definition same_price (a b : PriceLevel) : Prop := lvl_price a == lvl_price b.

Definition unique_prices (l : list PriceLevel) : Prop := NoDupA same_price l.

Definition sizes_positive (l : list PriceLevel) : Prop :=
  Forall (fun x => 0 < lvl_size x) l.

Definition side_order (self : InMemoryOrderBook) : Prop :=
  strictly_descending (cb_bids (book self)) /\
  strictly_ascending (cb_asks (book self)) /\
  unique_prices (cb_bids (book self)) /\
  unique_prices (cb_asks (book self)).

Definition stored_sizes_positive (self : InMemoryOrderBook) : Prop :=
  sizes_positive (cb_bids (book self)) /\ sizes_positive (cb_asks (book self)).

Definition crossed (self : InMemoryOrderBook) : Prop :=
  match getBestBid self, getBestAsk self with
  | Some b, Some a => a <= b
  | _, _ => False
  end.

(** ** The ambient sources the engine reads

    [Math.random()], [randomUUID()], [new Date()] / [Date.now()] and
    [existsSync] are not arguments of the methods that use them.  A
    [World] holds what each of them returns on its successive calls,
    together with how many calls were made so far. *)

Record World := {
  w_random : nat -> Q;
  w_random_i : nat;
  w_uuid : nat -> string;
  w_uuid_i : nat;
  w_clock : nat -> Z;
  w_clock_i : nat;
  w_exists : string -> bool
}.

Definition M (A : Type) : Type := World -> A * World.

Definition ret {A} (a : A) : M A := fun w => (a, w).

Definition bind {A B} (c : M A) (k : A -> M B) : M B :=
  fun w => let (a, w') := c w in k a w'.

Notation "'let!' x ':=' c 'in' k" := (bind c (fun x => k))
  (at level 10, x pattern, c at level 100, k at level 200).

Definition Math_random : M Q := fun w =>
  (w_random w (w_random_i w),
   {| w_random := w_random w; w_random_i := S (w_random_i w);
      w_uuid := w_uuid w; w_uuid_i := w_uuid_i w;
      w_clock := w_clock w; w_clock_i := w_clock_i w;
      w_exists := w_exists w |}).

Definition randomUUID : M string := fun w =>
  (w_uuid w (w_uuid_i w),
   {| w_random := w_random w; w_random_i := w_random_i w;
      w_uuid := w_uuid w; w_uuid_i := S (w_uuid_i w);
      w_clock := w_clock w; w_clock_i := w_clock_i w;
      w_exists := w_exists w |}).

Definition Date_now : M Z := fun w =>
  (w_clock w (w_clock_i w),
   {| w_random := w_random w; w_random_i := w_random_i w;
      w_uuid := w_uuid w; w_uuid_i := w_uuid_i w;
      w_clock := w_clock w; w_clock_i := S (w_clock_i w);
      w_exists := w_exists w |}).

Definition existsSync (path : string) : M bool := fun w => (w_exists w path, w).

Definition Qlt_bool (x y : Q) : bool := negb (Qle_bool y x).

(** ** The CLOB client's order book and core/src/types.ts helpers *)

Record OrderBook := {
  ob_tokenId : string;
  ob_bids : list PriceLevel;
  ob_asks : list PriceLevel;
  ob_timestamp : Z;
  ob_sequence : option Z
}.

Definition calculateSpread (book : OrderBook) : option Decimal :=
  match ob_bids book, ob_asks book with
  | bestBid :: _, bestAsk :: _ => Some (lvl_price bestAsk - lvl_price bestBid)
  | _, _ => None
  end.

Definition calculateMidPrice (book : OrderBook) : option Decimal :=
  match ob_bids book, ob_asks book with
  | bestBid :: _, bestAsk :: _ => Some ((lvl_price bestBid + lvl_price bestAsk) / 2)
  | _, _ => None
  end.

Inductive OrderSide := buy | sell.
Inductive OrderType := limit | market.

Record TradeRecord := {
  tr_tokenId : string;
  tr_price : Decimal;
  tr_size : Decimal;
  tr_side : OrderSide;
  tr_timestamp : Z
}.

(** ** packages/execution/src/paper-execution-sim.ts *)

Record OrderIntent := {
  oi_id : string;
  oi_tokenId : string;
  oi_side : OrderSide;
  oi_price : Decimal;
  oi_size : Decimal;
  oi_type : OrderType;
  oi_timestamp : Z;
  oi_reason : option string
}.

Record Fill := {
  f_id : string;
  f_orderId : string;
  f_tokenId : string;
  f_side : OrderSide;
  f_price : Decimal;
  f_size : Decimal;
  f_slippage : Decimal;
  f_spreadPaid : Decimal;
  f_fee : Decimal;
  f_timestamp : Z
}.

Record PaperExecutionSimConfig := {
  feeRate : Decimal;
  fillProbability : Decimal
}.

Record PaperExecutionSim := {
  openOrders : list (string * OrderIntent);
  config : PaperExecutionSimConfig;
  fills : list Fill
}.

Definition newPaperExecutionSim (cfg : PaperExecutionSimConfig) : PaperExecutionSim :=
  {| openOrders := []; config := cfg; fills := [] |}.

Definition placeOrder (intent : OrderIntent) (self : PaperExecutionSim)
    : PaperExecutionSim :=
  {| openOrders := js_set String.eqb (oi_id intent) intent (openOrders self);
     config := config self;
     fills := fills self |}.

Definition cancelOrder (orderId : string) (self : PaperExecutionSim)
    : bool * PaperExecutionSim :=
  (js_has String.eqb orderId (openOrders self),
   {| openOrders := js_delete String.eqb orderId (openOrders self);
      config := config self;
      fills := fills self |}).

Definition createFill (cfg : PaperExecutionSimConfig) (order : OrderIntent)
    (price size slippage spreadPaid : Decimal) : M Fill :=
  let fee := price * size * feeRate cfg in
  let! id := randomUUID in
  let! now := Date_now in
  ret {| f_id := id;
         f_orderId := oi_id order;
         f_tokenId := oi_tokenId order;
         f_side := oi_side order;
         f_price := price;
         f_size := size;
         f_slippage := Qabs slippage;
         f_spreadPaid := Qabs spreadPaid;
         f_fee := fee;
         f_timestamp := now |}.

Definition fillMarketOrder (cfg : PaperExecutionSimConfig) (order : OrderIntent)
    (book : OrderBook) : M (option Fill) :=
  match oi_side order with
  | buy =>
      match ob_asks book with
      | [] => ret None
      | bestAsk :: _ =>
          let fillPrice := lvl_price bestAsk in
          let fillSize := Qmin (oi_size order) (lvl_size bestAsk) in
          let midPrice := calculateMidPrice book in
          let slippage :=
            match midPrice with Some m => fillPrice - m | None => 0 end in
          let spreadPaid :=
            match midPrice with Some m => fillPrice - m | None => 0 end in
          let! f := createFill cfg order fillPrice fillSize slippage spreadPaid in
          ret (Some f)
      end
  | sell =>
      match ob_bids book with
      | [] => ret None
      | bestBid :: _ =>
          let fillPrice := lvl_price bestBid in
          let fillSize := Qmin (oi_size order) (lvl_size bestBid) in
          let midPrice := calculateMidPrice book in
          let slippage :=
            match midPrice with Some m => m - fillPrice | None => 0 end in
          let spreadPaid :=
            match midPrice with Some m => m - fillPrice | None => 0 end in
          let! f := createFill cfg order fillPrice fillSize slippage spreadPaid in
          ret (Some f)
      end
  end.

(** The tail of [fillLimitOrder]: the passive fill against a trade print.
    [Math.random()] is only called when [wouldFill] holds. *)
Definition passiveFill (cfg : PaperExecutionSimConfig) (order : OrderIntent)
    (midPrice : Decimal) (trade : option TradeRecord) : M (option Fill) :=
  match trade with
  | Some t =>
      let wouldFill :=
        match oi_side order with
        | buy => Qle_bool (tr_price t) (oi_price order)
        | sell => Qle_bool (oi_price order) (tr_price t)
        end in
      if wouldFill then
        let! draw := Math_random in
        if Qlt_bool draw (fillProbability cfg) then
          let fillPrice := oi_price order in
          let fillSize := oi_size order in
          let slippage :=
            match oi_side order with
            | buy => fillPrice - midPrice
            | sell => midPrice - fillPrice
            end in
          let spreadPaid := 0 in
          let! f := createFill cfg order fillPrice fillSize slippage spreadPaid in
          ret (Some f)
        else ret None
      else ret None
  | None => ret None
  end.

Definition fillLimitOrder (cfg : PaperExecutionSimConfig) (order : OrderIntent)
    (book : OrderBook) (trade : option TradeRecord) : M (option Fill) :=
  match calculateMidPrice book with
  | None => ret None
  | Some midPrice =>
      match oi_side order, ob_asks book, ob_bids book with
      | buy, bestAsk :: _, _ =>
          if Qle_bool (lvl_price bestAsk) (oi_price order) then
            let fillPrice := lvl_price bestAsk in
            let fillSize := Qmin (oi_size order) (lvl_size bestAsk) in
            let slippage := fillPrice - midPrice in
            let spreadPaid := fillPrice - midPrice in
            let! f := createFill cfg order fillPrice fillSize slippage spreadPaid in
            ret (Some f)
          else passiveFill cfg order midPrice trade
      | sell, _, bestBid :: _ =>
          if Qle_bool (oi_price order) (lvl_price bestBid) then
            let fillPrice := lvl_price bestBid in
            let fillSize := Qmin (oi_size order) (lvl_size bestBid) in
            let slippage := midPrice - fillPrice in
            let spreadPaid := midPrice - fillPrice in
            let! f := createFill cfg order fillPrice fillSize slippage spreadPaid in
            ret (Some f)
          else passiveFill cfg order midPrice trade
      | _, _, _ => passiveFill cfg order midPrice trade
      end
  end.

Definition attemptFill (cfg : PaperExecutionSimConfig) (order : OrderIntent)
    (book : OrderBook) (trade : option TradeRecord) : M (option Fill) :=
  match oi_type order with
  | market => fillMarketOrder cfg order book
  | limit => fillLimitOrder cfg order book trade
  end.

Definition set_size (order : OrderIntent) (size : Decimal) : OrderIntent :=
  {| oi_id := oi_id order; oi_tokenId := oi_tokenId order;
     oi_side := oi_side order; oi_price := oi_price order;
     oi_size := size; oi_type := oi_type order;
     oi_timestamp := oi_timestamp order; oi_reason := oi_reason order |}.

(** The [for] loop of [processMarketUpdate] over the entries of
    [openOrders], in iteration order.  It yields the entries as the loop
    leaves them (a partly filled order has its [size] overwritten), the
    fills pushed to [newFills] and the ids pushed to [ordersToRemove]. *)
Fixpoint processOrders (cfg : PaperExecutionSimConfig) (tokenId : string)
    (book : OrderBook) (trade : option TradeRecord)
    (entries : list (string * OrderIntent))
    : M (list (string * OrderIntent) * list Fill * list string) :=
  match entries with
  | [] => ret ([], [], [])
  | (orderId, order) :: rest =>
      if negb (String.eqb (oi_tokenId order) tokenId) then
        let! (rest', newFills, ordersToRemove) :=
          processOrders cfg tokenId book trade rest in
        ret ((orderId, order) :: rest', newFills, ordersToRemove)
      else
        let! fill := attemptFill cfg order book trade in
        match fill with
        | Some f =>
            let remainingSize := oi_size order - f_size f in
            if Qle_bool remainingSize 0 then
              let! (rest', newFills, ordersToRemove) :=
                processOrders cfg tokenId book trade rest in
              ret ((orderId, order) :: rest', f :: newFills,
                   orderId :: ordersToRemove)
            else
              let! (rest', newFills, ordersToRemove) :=
                processOrders cfg tokenId book trade rest in
              ret ((orderId, set_size order remainingSize) :: rest',
                   f :: newFills, ordersToRemove)
        | None =>
            let! (rest', newFills, ordersToRemove) :=
              processOrders cfg tokenId book trade rest in
            ret ((orderId, order) :: rest', newFills, ordersToRemove)
        end
  end.

Definition processMarketUpdate (tokenId : string) (book : OrderBook)
    (trade : option TradeRecord) (self : PaperExecutionSim)
    : M (list Fill * PaperExecutionSim) :=
  let! (entries, newFills, ordersToRemove) :=
    processOrders (config self) tokenId book trade (openOrders self) in
  let remaining :=
    fold_left (fun m orderId => js_delete String.eqb orderId m)
              ordersToRemove entries in
  ret (newFills,
       {| openOrders := remaining;
          config := config self;
          fills := fills self ++ newFills |}).

(** A run of the simulator: the calls made on one instance, in order. *)
Inductive SimCall :=
| PlaceOrder (intent : OrderIntent)
| ProcessMarketUpdate (tokenId : string) (book : OrderBook)
                      (trade : option TradeRecord).

(** The fills each call returns ([placeOrder] returns none), and the
    instance after the run. *)
Fixpoint runCalls (calls : list SimCall) (self : PaperExecutionSim)
    : M (list (list Fill) * PaperExecutionSim) :=
  match calls with
  | [] => ret ([], self)
  | PlaceOrder intent :: calls' =>
      let! (outs, self') := runCalls calls' (placeOrder intent self) in
      ret ([] :: outs, self')
  | ProcessMarketUpdate tokenId book trade :: calls' =>
      let! (newFills, self1) := processMarketUpdate tokenId book trade self in
      let! (outs, self') := runCalls calls' self1 in
      ret (newFills :: outs, self')
  end.

(** What a fill says about the execution: everything but its random id
    and its wall-clock timestamp. *)
Definition fill_content (f : Fill)
    : string * string * OrderSide * Decimal * Decimal * Decimal * Decimal * Decimal :=
  (f_orderId f, f_tokenId f, f_side f, f_price f, f_size f,
   f_slippage f, f_spreadPaid f, f_fee f).

(** ** core/src/math.ts (EMA, volatility, sizing helpers) *)

Record EMA := { alpha : Decimal; value : option Decimal }.

Definition newEMA (period : Z) : EMA :=
  {| alpha := 2 / inject_Z (period + 1); value := None |}.

Definition EMA_update (price : Decimal) (self : EMA) : Decimal * EMA :=
  let v :=
    match value self with
    | None => price
    | Some old => alpha self * price + (1 - alpha self) * old
    end in
  (v, {| alpha := alpha self; value := Some v |}).

(** [Decimal.sqrt()].  decimal.js returns the root rounded to its working
    precision; here it is the root truncated to 20 decimal places. *)
Definition Dsqrt (x : Decimal) : Decimal :=
  Qmake (Z.sqrt (Qfloor (x * inject_Z (10 ^ 40)))) (10 ^ 20).

(** The loop [for (i = 1; i < prices.length; i++)] of
    [calculateVolatility]: one simple return for each pair of neighbours
    whose earlier price is positive. *)
Fixpoint simpleReturns (prices : list Decimal) : list Decimal :=
  match prices with
  | prev :: ((cur :: _) as rest) =>
      if Qlt_bool 0 prev
      then (cur - prev) / prev :: simpleReturns rest
      else simpleReturns rest
  | _ => []
  end.

Definition Qsum (l : list Decimal) : Decimal :=
  fold_left (fun sum r => sum + r) l 0.

(** The body of [calculateVolatility] from [returns] on. *)
Definition stddev (returns : list Decimal) : Decimal :=
  match returns with
  | [] => 0
  | _ =>
      let n := inject_Z (Z.of_nat (length returns)) in
      let mean := Qsum returns / n in
      let variance :=
        fold_left (fun sum r => sum + (r - mean) ^ 2) returns 0 / n in
      Dsqrt variance
  end.

(** [calculateVolatility(prices, _window = 20)]: the parameter [_window]
    does not occur in the body. *)
Definition calculateVolatility (prices : list Decimal) (_window : nat)
    : Decimal :=
  if (length prices <? 2)%nat then 0
  else stddev (simpleReturns prices).

Definition kellyFraction (winProb winAmount lossAmount : Decimal) : Decimal :=
  if Qle_bool lossAmount 0 || Qle_bool winAmount 0 then 0
  else
    let q := 1 - winProb in
    let b := winAmount / lossAmount in
    let kelly := winProb - q / b in
    Qmax 0 (Qmin 1 kelly).

Definition fixedFractionalSize (accountBalance riskPerTrade stopLoss : Decimal)
    : Decimal :=
  if Qle_bool stopLoss 0 then 0
  else accountBalance * riskPerTrade / Qabs stopLoss.

(** ** The risk manager (risk-manager.ts) *)

(** The fields of [getConfig()] the risk manager reads. *)
Record AppConfig := {
  MAX_POSITION_PER_MARKET : Decimal;
  MAX_DAILY_LOSS : Decimal;
  MAX_ORDER_RATE_PER_SECOND : Decimal;
  MAX_GROSS_EXPOSURE : Decimal
}.

Record Position := {
  pos_marketId : string;
  pos_tokenId : string;
  pos_size : Decimal;
  pos_avgPrice : Decimal;
  pos_realizedPnl : Decimal;
  pos_unrealizedPnl : Decimal;
  pos_lastUpdate : Z
}.

(** The reason strings.  Each constructor is one string literal or
    template of the source, with the values the template interpolates. *)
Inductive Reason :=
| KillSwitchActive                                (* 'Kill switch active' *)
| DailyLossReached (dailyPnl : Decimal)           (* `Daily loss limit reached: ${dailyPnl}` *)
| DailyLossLimit                                  (* 'Daily loss limit' *)
| PositionLimitExceeded (marketId tokenId : string) (* `Position limit exceeded for ${marketId}:${tokenId}` *)
| PositionLimit                                   (* 'Position limit' *)
| GrossExposureExceeded (grossExposure : Decimal) (* `Gross exposure limit exceeded: ${grossExposure}` *)
| GrossExposureLimit                              (* 'Gross exposure limit' *)
| NetExposureLimit (netExposure : Decimal)        (* `Net exposure limit: ${netExposure}` *)
| OrderRateExceeded (orderCount : Z)              (* `Order rate limit exceeded: ${orderCount} orders/sec` *)
| OrderRateLimit                                  (* 'Order rate limit' *)
| StalePriceFeed.                                 (* 'Stale price feed' *)

Record RiskCheckResult := {
  allowed : bool;
  rc_reason : option Reason
}.

Record RiskManager := {
  rm_config : AppConfig;
  dailyPnl : Decimal;
  dailyStartTime : Z;
  orderCount : Z;
  orderWindowStart : Z;
  errorCount : Z;
  errorWindowStart : Z;
  maxDrawdown : Decimal;
  peakBalance : Decimal
}.

Definition checkKillSwitch : M bool := existsSync "kill-switch.flag".

Definition checkDailyLoss (balance : Decimal) (self : RiskManager)
    : RiskCheckResult :=
  if Qlt_bool (dailyPnl self) 0
     && Qle_bool (MAX_DAILY_LOSS (rm_config self)) (Qabs (dailyPnl self))
  then {| allowed := false; rc_reason := Some (DailyLossReached (dailyPnl self)) |}
  else {| allowed := true; rc_reason := None |}.

Definition checkPositionLimit (marketId tokenId : string)
    (currentPosition : option Position) (newSize : Decimal)
    (self : RiskManager) : RiskCheckResult :=
  let totalSize :=
    Qabs (match currentPosition with Some p => pos_size p | None => 0 end
          + newSize) in
  if Qlt_bool (MAX_POSITION_PER_MARKET (rm_config self)) totalSize
  then {| allowed := false;
          rc_reason := Some (PositionLimitExceeded marketId tokenId) |}
  else {| allowed := true; rc_reason := None |}.

Definition checkGrossExposure (positions : list Position) (self : RiskManager)
    : RiskCheckResult :=
  let grossExposure :=
    fold_left (fun sum p => sum + Qabs (pos_size p)) positions 0 in
  if Qlt_bool (MAX_GROSS_EXPOSURE (rm_config self)) grossExposure
  then {| allowed := false;
          rc_reason := Some (GrossExposureExceeded grossExposure) |}
  else {| allowed := true; rc_reason := None |}.

Definition set_orderWindow (self : RiskManager) (count start : Z) : RiskManager :=
  {| rm_config := rm_config self; dailyPnl := dailyPnl self;
     dailyStartTime := dailyStartTime self;
     orderCount := count; orderWindowStart := start;
     errorCount := errorCount self; errorWindowStart := errorWindowStart self;
     maxDrawdown := maxDrawdown self; peakBalance := peakBalance self |}.

Definition checkOrderRate (self : RiskManager) : M (RiskCheckResult * RiskManager) :=
  let! now := Date_now in
  let windowMs := 1000%Z in
  let elapsed := (now - orderWindowStart self)%Z in
  let self1 :=
    if (windowMs <? elapsed)%Z then set_orderWindow self 0 now else self in
  if Qle_bool (MAX_ORDER_RATE_PER_SECOND (rm_config self1))
              (inject_Z (orderCount self1))
  then ret ({| allowed := false;
               rc_reason := Some (OrderRateExceeded (orderCount self1)) |},
            self1)
  else ret ({| allowed := true; rc_reason := None |},
            set_orderWindow self1 (orderCount self1 + 1) (orderWindowStart self1)).

Definition calculatePositionSize (signalSize balance : Decimal)
    (riskPerTrade stopLoss winProb winAmount lossAmount : option Decimal)
    : Decimal :=
  let riskPerTrade :=
    match riskPerTrade with Some r => r | None => 2 # 100 end in
  match winProb, winAmount, lossAmount with
  | Some winProb, Some winAmount, Some lossAmount =>
      let kelly := kellyFraction winProb winAmount lossAmount in
      let kellySize := balance * kelly * (25 # 100) in
      Qmin signalSize kellySize
  | _, _, _ =>
      match stopLoss with
      | Some stopLoss =>
          let fixedSize := fixedFractionalSize balance riskPerTrade stopLoss in
          Qmin signalSize fixedSize
      | None => Qmin signalSize (balance * (5 # 100))
      end
  end.

(** ** The risk gate (risk-gate.ts, in core/src/types.ts of the tree) *)

Inductive StrategyName := strat_parity | strat_xrv | strat_time.

Record Signal := {
  sig_id : string;
  sig_strategy : StrategyName;
  sig_tokenId : string;
  sig_marketId : option string;
  sig_side : OrderSide;
  sig_limitPrice : Decimal;
  sig_size : Decimal;
  sig_expectedEdgeBps : Decimal;
  sig_confidence : Decimal;
  sig_ttlMs : Z;
  sig_createdAt : Z
}.

(** [OrderIntent] of the signals package: a signal with the gate's
    verdict. *)
Record GatedIntent := {
  gi_signal : Signal;
  gated : bool;
  gateReasons : option (list Reason)
}.

Record RiskGateConfig := {
  maxPositionPerToken : Decimal;
  maxGrossExposure : Decimal;
  maxNetExposure : Decimal;
  maxDailyLoss : Decimal;
  rg_maxDrawdown : Decimal;
  staleFeedMs : Z
}.

Record RiskGate := {
  riskManager : RiskManager;
  rg_config : RiskGateConfig;
  lastPriceUpdate : gmap string Z
}.

(** [reason || fallback] on an optional reason string. *)
Definition reason_or (r : option Reason) (fallback : Reason) : Reason :=
  match r with Some x => x | None => fallback end.

(** [signal.marketId || 'unknown']: an absent or empty id is falsy. *)
Definition marketId_or_unknown (signal : Signal) : string :=
  match sig_marketId signal with
  | Some m => if String.eqb m "" then "unknown" else m
  | None => "unknown"
  end.

Definition with_riskManager (self : RiskGate) (rm : RiskManager) : RiskGate :=
  {| riskManager := rm; rg_config := rg_config self;
     lastPriceUpdate := lastPriceUpdate self |}.

Definition gate (signal : Signal) (r : Reason) : GatedIntent :=
  {| gi_signal := signal; gated := true; gateReasons := Some [r] |}.

Definition gateSignal (signal : Signal)
    (currentPositions : list (string * Position)) (balance : Decimal)
    (self : RiskGate) : M (GatedIntent * RiskGate) :=
  (* Check kill switch *)
  let! kill := checkKillSwitch in
  if kill then ret (gate signal KillSwitchActive, self) else
  (* Check daily loss *)
  let dailyLossCheck := checkDailyLoss balance (riskManager self) in
  if negb (allowed dailyLossCheck) then
    ret (gate signal (reason_or (rc_reason dailyLossCheck) DailyLossLimit), self)
  else
  (* Check position limit *)
  let positionKey :=
    (marketId_or_unknown signal ++ "-" ++ sig_tokenId signal)%string in
  let currentPosition := js_get String.eqb positionKey currentPositions in
  let positionCheck :=
    checkPositionLimit (marketId_or_unknown signal) (sig_tokenId signal)
                       currentPosition (sig_size signal) (riskManager self) in
  if negb (allowed positionCheck) then
    ret (gate signal (reason_or (rc_reason positionCheck) PositionLimit), self)
  else
  (* Check gross exposure *)
  let positions := js_values currentPositions in
  let grossExposureCheck := checkGrossExposure positions (riskManager self) in
  if negb (allowed grossExposureCheck) then
    ret (gate signal
           (reason_or (rc_reason grossExposureCheck) GrossExposureLimit), self)
  else
  (* Check net exposure *)
  let netExposure := fold_left (fun sum p => sum + pos_size p) positions 0 in
  if Qlt_bool (maxNetExposure (rg_config self)) (Qabs netExposure) then
    ret (gate signal (NetExposureLimit netExposure), self)
  else
  (* Check order rate *)
  let! (rateCheck, rm') := checkOrderRate (riskManager self) in
  let self' := with_riskManager self rm' in
  if negb (allowed rateCheck) then
    ret (gate signal (reason_or (rc_reason rateCheck) OrderRateLimit), self')
  else
  (* Check stale feed *)
  match lastPriceUpdate self' !! sig_tokenId signal with
  | Some lastUpdate =>
      if (lastUpdate =? 0)%Z then
        ret ({| gi_signal := signal; gated := false; gateReasons := None |}, self')
      else
        let! now := Date_now in
        if (staleFeedMs (rg_config self') <? now - lastUpdate)%Z then
          ret (gate signal StalePriceFeed, self')
        else
          ret ({| gi_signal := signal; gated := false; gateReasons := None |}, self')
  | None =>
      ret ({| gi_signal := signal; gated := false; gateReasons := None |}, self')
  end.

Definition updatePriceFeed (tokenId : string) (self : RiskGate) : M RiskGate :=
  let! now := Date_now in
  ret {| riskManager := riskManager self; rg_config := rg_config self;
         lastPriceUpdate := <[tokenId := now]> (lastPriceUpdate self) |}.

(** ** The market state store (market-state-store.ts) *)

Record DerivedFeatures := {
  df_midPrice : option Decimal;
  df_spread : option Decimal;
  df_spreadBps : option Decimal;
  df_bidDepth : Decimal;
  df_askDepth : Decimal;
  df_ema : option Decimal;
  df_ewmaVol : option Decimal;
  df_lastUpdate : Z
}.

Record OrderBookStore := {
  books : gmap string OrderBook;
  topN : nat
}.

Record TradeTapeStore := {
  trades : gmap string (list TradeRecord);
  maxTradesPerToken : nat
}.

Record MarketStateStore := {
  orderBookStore : OrderBookStore;
  tradeTapeStore : TradeTapeStore;
  emas : gmap string EMA;
  priceHistory : gmap string (list Decimal);
  emaPeriod : Z;
  volWindow : nat
}.

Definition newMarketStateStore : MarketStateStore :=
  {| orderBookStore := {| books := ∅; topN := 20 |};
     tradeTapeStore := {| trades := ∅; maxTradesPerToken := 1000 |};
     emas := ∅;
     priceHistory := ∅;
     emaPeriod := 20;
     volWindow := 20 |}.

(** [l.slice(-limit)]: the last [limit] elements; [slice(-0)] is
    [slice(0)], the whole array. *)
Definition slice_last {A} (limit : nat) (l : list A) : list A :=
  if (limit =? 0)%nat then l else skipn (length l - limit) l.

(** [push] followed by [shift] when the array has grown past [cap]. *)
Definition push_capped {A} (cap : nat) (x : A) (l : list A) : list A :=
  let l' := l ++ [x] in
  if (cap <? length l')%nat then tl l' else l'.

Definition OrderBookStore_update (tokenId : string) (book : OrderBook)
    (self : OrderBookStore) : OrderBookStore :=
  let trimmedBook :=
    {| ob_tokenId := ob_tokenId book;
       ob_bids := firstn (topN self) (ob_bids book);
       ob_asks := firstn (topN self) (ob_asks book);
       ob_timestamp := ob_timestamp book;
       ob_sequence := ob_sequence book |} in
  {| books := <[tokenId := trimmedBook]> (books self); topN := topN self |}.

Definition TradeTapeStore_add (trade : TradeRecord) (self : TradeTapeStore)
    : TradeTapeStore :=
  let tokenTrades :=
    match trades self !! tr_tokenId trade with Some l => l | None => [] end in
  {| trades := <[tr_tokenId trade :=
                   push_capped (maxTradesPerToken self) trade tokenTrades]>
                 (trades self);
     maxTradesPerToken := maxTradesPerToken self |}.

Definition TradeTapeStore_get (tokenId : string) (limit : nat)
    (self : TradeTapeStore) : list TradeRecord :=
  let tokenTrades :=
    match trades self !! tokenId with Some l => l | None => [] end in
  slice_last limit tokenTrades.

Definition updateOrderBook (tokenId : string) (book : OrderBook)
    (self : MarketStateStore) : MarketStateStore :=
  {| orderBookStore := OrderBookStore_update tokenId book (orderBookStore self);
     tradeTapeStore := tradeTapeStore self;
     emas := emas self;
     priceHistory := priceHistory self;
     emaPeriod := emaPeriod self;
     volWindow := volWindow self |}.

Definition getOrderBook (tokenId : string) (self : MarketStateStore)
    : option OrderBook :=
  books (orderBookStore self) !! tokenId.

Definition addTrade (trade : TradeRecord) (self : MarketStateStore)
    : MarketStateStore :=
  let history :=
    match priceHistory self !! tr_tokenId trade with
    | Some h => h
    | None => []
    end in
  {| orderBookStore := orderBookStore self;
     tradeTapeStore := TradeTapeStore_add trade (tradeTapeStore self);
     emas := emas self;
     priceHistory :=
       <[tr_tokenId trade :=
           push_capped (volWindow self * 2) (tr_price trade) history]>
         (priceHistory self);
     emaPeriod := emaPeriod self;
     volWindow := volWindow self |}.

Definition getTrades (tokenId : string) (limit : nat) (self : MarketStateStore)
    : list TradeRecord :=
  TradeTapeStore_get tokenId limit (tradeTapeStore self).

Definition with_emas (self : MarketStateStore) (e : gmap string EMA)
    : MarketStateStore :=
  {| orderBookStore := orderBookStore self;
     tradeTapeStore := tradeTapeStore self;
     emas := e;
     priceHistory := priceHistory self;
     emaPeriod := emaPeriod self;
     volWindow := volWindow self |}.

Definition getDerivedFeatures (tokenId : string) (self : MarketStateStore)
    : M (DerivedFeatures * MarketStateStore) :=
  let book := getOrderBook tokenId self in
  let trades := getTrades tokenId (volWindow self) self in
  match book with
  | None =>
      let! now := Date_now in
      ret ({| df_midPrice := None; df_spread := None; df_spreadBps := None;
              df_bidDepth := 0; df_askDepth := 0;
              df_ema := None; df_ewmaVol := None;
              df_lastUpdate := now |}, self)
  | Some book =>
      let midPrice := calculateMidPrice book in
      let spread := calculateSpread book in
      let spreadBps :=
        match midPrice, spread with
        | Some m, Some s => Some (s / m * 10000)
        | _, _ => None
        end in
      (* Calculate depth *)
      let bidDepth :=
        fold_left (fun sum level => sum + lvl_size level) (ob_bids book) 0 in
      let askDepth :=
        fold_left (fun sum level => sum + lvl_size level) (ob_asks book) 0 in
      (* Calculate EMA: the instance stored for the token is updated *)
      let '(ema, emas') :=
        match List.rev trades with
        | latest :: _ =>
            let latestPrice := tr_price latest in
            let emaInstance :=
              match emas self !! tokenId with
              | Some e => e
              | None => newEMA (emaPeriod self)
              end in
            let '(v, emaInstance') := EMA_update latestPrice emaInstance in
            (Some v, <[tokenId := emaInstance']> (emas self))
        | [] => (None, emas self)
        end in
      (* Calculate EWMA volatility *)
      let ewmaVol :=
        match priceHistory self !! tokenId with
        | Some history =>
            if (2 <=? length history)%nat
            then Some (calculateVolatility history (volWindow self))
            else None
        | None => None
        end in
      ret ({| df_midPrice := midPrice; df_spread := spread;
              df_spreadBps := spreadBps;
              df_bidDepth := bidDepth; df_askDepth := askDepth;
              df_ema := ema; df_ewmaVol := ewmaVol;
              df_lastUpdate := ob_timestamp book |},
           with_emas self emas')
  end.

(** *** The volatility the specification asks for

    The standard deviation of the simple returns
    [(p[i] - p[i-1]) / p[i-1]] over the most recent [window] prices of the
    history only. *)
Definition windowedVolatility (history : list Decimal) (window : nat)
    : Decimal :=
  stddev (simpleReturns (slice_last window history)).

(** ** Invariants used in the proofs about [applyLevels] *)

Definition same_key (a b : Decimal * PriceLevel) : Prop := fst a == fst b.

Definition keyed_by_price (kv : Decimal * PriceLevel) : Prop :=
  fst kv == lvl_price (snd kv).

(** The price map of [applyLevels]: keys are distinct, every entry sits
    under its own price, and [P] holds of every stored level when it held
    of the levels the map was built from and of the updates that are
    stored. *)
Definition price_map_ok (P : PriceLevel -> Prop)
    (m : list (Decimal * PriceLevel)) : Prop :=
  NoDupA same_key m /\ Forall keyed_by_price m /\ Forall (fun kv => P (snd kv)) m.

Definition before (sortOrder : SortOrder) (a b : PriceLevel) : Prop :=
  match sortOrder with
  | asc => lvl_price a < lvl_price b
  | desc => lvl_price b < lvl_price a
  end.

(** ** Sample data for the concrete instances *)

Definition lvl (p s : Decimal) : PriceLevel := {| lvl_price := p; lvl_size := s |}.

Definition sample_book : InMemoryOrderBook :=
  newInMemoryOrderBook
    {| cb_marketId := "m"; cb_tokenId := "t";
       cb_bids := [lvl (49 # 100) 100; lvl (48 # 100) 200];
       cb_asks := [lvl (51 # 100) 150; lvl (52 # 100) 250];
       cb_lastUpdate := 1000; cb_sequence := Some 5%Z |}.

(** A snapshot that carries a level of size zero. *)
Definition zero_size_book : InMemoryOrderBook :=
  newInMemoryOrderBook
    {| cb_marketId := "m"; cb_tokenId := "t";
       cb_bids := [lvl (1 # 2) 0];
       cb_asks := [];
       cb_lastUpdate := 1000; cb_sequence := None |}.

Definition ask_delta : Delta :=
  {| d_now := 2000; d_bids := []; d_asks := [lvl (6 # 10) 10];
     d_sequence := None |}.

(** ** The order of the gate's checks, as the specification lists it *)

Inductive Check :=
| KillSwitch | DailyLoss | PositionLimitCheck | GrossExposure | NetExposure
| OrderRate | StaleFeed.

Definition check_order : list Check :=
  [KillSwitch; DailyLoss; PositionLimitCheck; GrossExposure; NetExposure;
   OrderRate; StaleFeed].

Definition check_index (c : Check) : nat :=
  match c with
  | KillSwitch => 0 | DailyLoss => 1 | PositionLimitCheck => 2
  | GrossExposure => 3 | NetExposure => 4 | OrderRate => 5 | StaleFeed => 6
  end.

Definition failure (r : RiskCheckResult) (fallback : Reason) : option Reason :=
  if allowed r then None else Some (reason_or (rc_reason r) fallback).

(** Whether check [c] fails, and with which reason, on the gate and the
    world as they are when [gateSignal] is entered.  The order-rate check
    reads the clock first, the stale-feed check reads it next. *)
Definition check_fails (c : Check) (signal : Signal)
    (currentPositions : list (string * Position)) (balance : Decimal)
    (self : RiskGate) (w : World) : option Reason :=
  let marketId := marketId_or_unknown signal in
  let positions := js_values currentPositions in
  match c with
  | KillSwitch =>
      if fst (checkKillSwitch w) then Some KillSwitchActive else None
  | DailyLoss =>
      failure (checkDailyLoss balance (riskManager self)) DailyLossLimit
  | PositionLimitCheck =>
      failure
        (checkPositionLimit marketId (sig_tokenId signal)
           (js_get String.eqb (marketId ++ "-" ++ sig_tokenId signal)%string
                   currentPositions)
           (sig_size signal) (riskManager self))
        PositionLimit
  | GrossExposure =>
      failure (checkGrossExposure positions (riskManager self))
              GrossExposureLimit
  | NetExposure =>
      let netExposure := fold_left (fun sum p => sum + pos_size p) positions 0 in
      if Qlt_bool (maxNetExposure (rg_config self)) (Qabs netExposure)
      then Some (NetExposureLimit netExposure) else None
  | OrderRate =>
      failure (fst (fst (checkOrderRate (riskManager self) w))) OrderRateLimit
  | StaleFeed =>
      match lastPriceUpdate self !! sig_tokenId signal with
      | Some lastUpdate =>
          if (lastUpdate =? 0)%Z then None
          else if (staleFeedMs (rg_config self)
                     <? w_clock w (S (w_clock_i w)) - lastUpdate)%Z
               then Some StalePriceFeed else None
      | None => None
      end
  end.

Fixpoint first_failing (fails : Check -> option Reason) (cs : list Check)
    : option (Check * Reason) :=
  match cs with
  | [] => None
  | c :: cs' =>
      match fails c with
      | Some r => Some (c, r)
      | None => first_failing fails cs'
      end
  end.

(** ** Vocabulary of the fill rules *)

(** The best level of the side an order trades against. *)
Definition bestOpposing (order : OrderIntent) (book : OrderBook)
    : option PriceLevel :=
  match oi_side order with
  | buy => match ob_asks book with best :: _ => Some best | [] => None end
  | sell => match ob_bids book with best :: _ => Some best | [] => None end
  end.

(** Buy price at or above the best ask, or sell price at or below the
    best bid, the opposing side being non-empty. *)
Definition crossesSpread (order : OrderIntent) (book : OrderBook) : Prop :=
  match bestOpposing order book with
  | Some best =>
      match oi_side order with
      | buy => lvl_price best <= oi_price order
      | sell => oi_price order <= lvl_price best
      end
  | None => False
  end.

(** The trade print has crossed through the order's limit. *)
Definition tradeThrough (t : TradeRecord) (order : OrderIntent) : Prop :=
  match oi_side order with
  | buy => tr_price t <= oi_price order
  | sell => oi_price order <= tr_price t
  end.

(** Two worlds in which [Math.random()] returns the same draws from now
    on.  Their clocks, UUIDs and file systems are free. *)
Definition same_draws (w1 w2 : World) : Prop :=
  (forall n, w_random w1 n = w_random w2 n) /\ w_random_i w1 = w_random_i w2.

Definition same_sim (s1 s2 : PaperExecutionSim) : Prop :=
  openOrders s1 = openOrders s2 /\ config s1 = config s2 /\
  List.map fill_content (fills s1) = List.map fill_content (fills s2).

Definition world0 : World :=
  {| w_random := fun _ => 1 # 4; w_random_i := 0;
     w_uuid := fun _ => "uuid"; w_uuid_i := 0;
     w_clock := fun n => (1000 + Z.of_nat n)%Z; w_clock_i := 0;
     w_exists := fun _ => false |}.

(** Another run: other UUIDs, another clock, the kill-switch file there,
    the same draws. *)
Definition world1 : World :=
  {| w_random := fun _ => 1 # 4; w_random_i := 0;
     w_uuid := fun _ => "other"; w_uuid_i := 7;
     w_clock := fun n => (5000 + 3 * Z.of_nat n)%Z; w_clock_i := 2;
     w_exists := fun _ => true |}.

Definition sample_config : PaperExecutionSimConfig :=
  {| feeRate := 2 # 100; fillProbability := 1 # 2 |}.

(** The book of the simulator's unit tests. *)
Definition test_book : OrderBook :=
  {| ob_tokenId := "token-1";
     ob_bids := [lvl (49 # 100) 100; lvl (48 # 100) 200];
     ob_asks := [lvl (51 # 100) 150; lvl (52 # 100) 250];
     ob_timestamp := 1000; ob_sequence := None |}.

(** The same book with no bids: there is no mid price. *)
Definition asks_only_book : OrderBook :=
  {| ob_tokenId := "token-1";
     ob_bids := [];
     ob_asks := [lvl (51 # 100) 150; lvl (52 # 100) 250];
     ob_timestamp := 1000; ob_sequence := None |}.

Definition order1 (side : OrderSide) (price size : Decimal) (type : OrderType)
    : OrderIntent :=
  {| oi_id := "order-1"; oi_tokenId := "token-1"; oi_side := side;
     oi_price := price; oi_size := size; oi_type := type;
     oi_timestamp := 900; oi_reason := None |}.

Definition sim_with (order : OrderIntent) : PaperExecutionSim :=
  placeOrder order (newPaperExecutionSim sample_config).

Definition trade_at (price : Decimal) : TradeRecord :=
  {| tr_tokenId := "token-1"; tr_price := price; tr_size := 10;
     tr_side := sell; tr_timestamp := 950 |}.

(** A resting buy at 0.50 in the test book, and the fill it gets when a
    trade prints at 0.50 and the draw is 1/4. *)
Definition passive_order : OrderIntent := order1 buy (1 # 2) 50 limit.

Definition passive_fill : Fill :=
  {| f_id := "uuid"; f_orderId := "order-1"; f_tokenId := "token-1";
     f_side := buy; f_price := 1 # 2; f_size := 50;
     f_slippage := 0 # 40000; f_spreadPaid := 0; f_fee := 100 # 200;
     f_timestamp := 1000 |}.

Definition passive_run : list Fill * PaperExecutionSim * World :=
  processMarketUpdate "token-1" test_book (Some (trade_at (1 # 2)))
                      (sim_with passive_order) world0.

(** A run that places a resting buy and a market sell, then feeds two
    market updates, the second with a trade print at the buy's limit. *)
Definition sample_calls : list SimCall :=
  [ PlaceOrder passive_order;
    PlaceOrder {| oi_id := "order-2"; oi_tokenId := "token-1"; oi_side := sell;
                  oi_price := 1 # 2; oi_size := 120; oi_type := market;
                  oi_timestamp := 901; oi_reason := None |};
    ProcessMarketUpdate "token-1" test_book None;
    ProcessMarketUpdate "token-1" test_book (Some (trade_at (1 # 2))) ].

(** A run in which every draw is 3/4. *)
Definition world_unlucky : World :=
  {| w_random := fun _ => 3 # 4; w_random_i := 0;
     w_uuid := fun _ => "uuid"; w_uuid_i := 0;
     w_clock := fun n => (1000 + Z.of_nat n)%Z; w_clock_i := 0;
     w_exists := fun _ => false |}.

(** ** Position sizing, as the specification words it *)

(** min(signalSize, balance x clamp(p - (1-p)/b, 0, 1) x 0.25) with
    b = winAmount / lossAmount. *)
Definition kellySizeSpec (signalSize balance p winAmount lossAmount : Decimal)
    : Decimal :=
  let b := winAmount / lossAmount in
  Qmin signalSize (balance * Qmax 0 (Qmin 1 (p - (1 - p) / b)) * (25 # 100)).

(** ** Sample states of the market state store *)

Definition token_trade (price : Decimal) (ts : Z) : TradeRecord :=
  {| tr_tokenId := "token-1"; tr_price := price; tr_size := 10;
     tr_side := buy; tr_timestamp := ts |}.

(** One trade at 1 followed by 26 trades at 2: the last 21 prices are
    all 2. *)
Definition vol_prices : list Decimal := 1 :: repeat 2 26%nat.

Definition vol_store : MarketStateStore :=
  fold_left (fun s p => addTrade (token_trade p 950) s) vol_prices
            (updateOrderBook "token-1" test_book newMarketStateStore).

(** A first trade at 1, a read of the features, then a trade at 2. *)
Definition ema_store : MarketStateStore :=
  addTrade (token_trade 2 960)
    (snd (fst (getDerivedFeatures "token-1"
                 (addTrade (token_trade 1 950)
                    (updateOrderBook "token-1" test_book newMarketStateStore))
                 world0))).

(** Trades at 1, 2 and 3 with no read of the features in between. *)
Definition unread_store : MarketStateStore :=
  addTrade (token_trade 3 970)
    (addTrade (token_trade 2 960)
       (addTrade (token_trade 1 950)
          (updateOrderBook "token-1" test_book newMarketStateStore))).

(** ** Sample state of the risk gate *)

Definition sample_app_config : AppConfig :=
  {| MAX_POSITION_PER_MARKET := 1000; MAX_DAILY_LOSS := 500;
     MAX_ORDER_RATE_PER_SECOND := 10; MAX_GROSS_EXPOSURE := 10000 |}.

Definition sample_manager (pnl : Decimal) : RiskManager :=
  {| rm_config := sample_app_config; dailyPnl := pnl; dailyStartTime := 0;
     orderCount := 3; orderWindowStart := 900;
     errorCount := 0; errorWindowStart := 0;
     maxDrawdown := 0; peakBalance := 0 |}.

Definition sample_gate (pnl : Decimal) : RiskGate :=
  {| riskManager := sample_manager pnl;
     rg_config := {| maxPositionPerToken := 1000; maxGrossExposure := 10000;
                     maxNetExposure := 5000; maxDailyLoss := 500;
                     rg_maxDrawdown := 1000; staleFeedMs := 60000 |};
     lastPriceUpdate := ∅ |}.

(** A buy of 200 on a token where 900 are held already. *)
Definition sample_signal : Signal :=
  {| sig_id := "s1"; sig_strategy := strat_parity; sig_tokenId := "token-1";
     sig_marketId := Some "m1"%string; sig_side := buy; sig_limitPrice := 1 # 2;
     sig_size := 200; sig_expectedEdgeBps := 50; sig_confidence := 9 # 10;
     sig_ttlMs := 5000; sig_createdAt := 0 |}.

Definition sample_positions : list (string * Position) :=
  [("m1-token-1"%string,
    {| pos_marketId := "m1"; pos_tokenId := "token-1"; pos_size := 900;
       pos_avgPrice := 1 # 2; pos_realizedPnl := 0; pos_unrealizedPnl := 0;
       pos_lastUpdate := 0 |})].

(** ** Further vocabulary: looking a price up in a side *)

(** The first level of a side that sits at price [p]. *)
Definition findLevel (p : Decimal) (levels : list PriceLevel)
    : option PriceLevel :=
  List.find (fun x => Qeq_bool (lvl_price x) p) levels.

(** The last entry at price [p] of a list processed front to back. *)
Definition lastAt (p : Decimal) (levels : list PriceLevel) : option PriceLevel :=
  findLevel p (List.rev levels).

(** [getMidPrice()] and [getSpread()] of [InMemoryOrderBook]. *)
Definition getMidPrice (self : InMemoryOrderBook) : option Decimal :=
  match getBestBid self, getBestAsk self with
  | Some bid, Some ask => Some ((bid + ask) / 2)
  | _, _ => None
  end.

Definition getSpread (self : InMemoryOrderBook) : option Decimal :=
  match getBestBid self, getBestAsk self with
  | Some bid, Some ask => Some (ask - bid)
  | _, _ => None
  end.


(** ** core/src/types.ts: depth and slippage estimates *)

Definition calculateDepthAtPrice (book : OrderBook) (price : Decimal)
    (side : OrderSide) : Decimal :=
  let levels := match side with buy => ob_asks book | sell => ob_bids book end in
  fold_left
    (fun depth level =>
       match side with
       | buy =>
           if Qle_bool price (lvl_price level)
           then depth + lvl_size level else depth
       | sell =>
           if Qle_bool (lvl_price level) price
           then depth + lvl_size level else depth
       end)
    levels 0.

Record SlippageEstimate := { avgPrice : Decimal; slippage : Decimal }.

(** The [for] loop of [estimateSlippage]: it walks the levels while
    something remains to fill, and yields [totalCost] and [totalSize]. *)
Fixpoint slippageLoop (levels : list PriceLevel)
    (remaining totalCost totalSize : Decimal) : Decimal * Decimal :=
  match levels with
  | [] => (totalCost, totalSize)
  | level :: rest =>
      if Qle_bool remaining 0 then (totalCost, totalSize)
      else
        let fillSize := Qmin remaining (lvl_size level) in
        slippageLoop rest (remaining - fillSize)
                     (totalCost + lvl_price level * fillSize)
                     (totalSize + fillSize)
  end.

Definition estimateSlippage (book : OrderBook) (side : OrderSide)
    (size : Decimal) : option SlippageEstimate :=
  let levels := match side with buy => ob_asks book | sell => ob_bids book end in
  match levels with
  | [] => None
  | _ :: _ =>
      let '(totalCost, totalSize) := slippageLoop levels size 0 0 in
      if Qeq_bool totalSize 0 then None
      else
        let avgPrice := totalCost / totalSize in
        let midPrice := calculateMidPrice book in
        let slippage :=
          match midPrice with
          | Some m => Qabs (avgPrice - m)
          | None => 0
          end in
        Some {| avgPrice := avgPrice; slippage := slippage |}
  end.

(** The side an order of [side] trades against. *)
Definition opposingLevels (book : OrderBook) (side : OrderSide)
    : list PriceLevel :=
  match side with buy => ob_asks book | sell => ob_bids book end.

Definition totalDepth (levels : list PriceLevel) : Decimal :=
  fold_right (fun level sum => lvl_size level + sum) 0 levels.

Definition totalNotional (levels : list PriceLevel) : Decimal :=
  fold_right (fun level sum => lvl_price level * lvl_size level + sum) 0 levels.


(** The book [getBook()] hands out, read as the order book the feature
    and execution code works on. *)
Definition asOrderBook (self : InMemoryOrderBook) : OrderBook :=
  {| ob_tokenId := cb_tokenId (book self);
     ob_bids := cb_bids (book self);
     ob_asks := cb_asks (book self);
     ob_timestamp := cb_lastUpdate (book self);
     ob_sequence := cb_sequence (book self) |}.


(** ** The risk manager: circuit breakers, PnL and drawdown bookkeeping *)

(** The three further fields of [getConfig()] that
    [checkCircuitBreakers] reads. *)
Record BreakerConfig := {
  WEBSOCKET_DISCONNECT_TIMEOUT_MS : Decimal;
  PRICE_FEED_STALE_MS : Decimal;
  MAX_ERROR_RATE_PER_MINUTE : Decimal
}.

Inductive BreakerReason :=
| WebSocketDisconnected (disconnectDuration : Z)  (* `WebSocket disconnected for ${disconnectDuration}ms` *)
| PriceFeedStale (priceAge : Z)                   (* `Price feed stale: ${priceAge}ms old` *)
| ErrorRateTooHigh (errorCount : Z).              (* `Error rate too high: ${errorCount} errors/min` *)

Record BreakerCheckResult := {
  br_allowed : bool;
  br_reason : option BreakerReason
}.

Definition set_errorWindow (self : RiskManager) (count start : Z) : RiskManager :=
  {| rm_config := rm_config self; dailyPnl := dailyPnl self;
     dailyStartTime := dailyStartTime self;
     orderCount := orderCount self; orderWindowStart := orderWindowStart self;
     errorCount := count; errorWindowStart := start;
     maxDrawdown := maxDrawdown self; peakBalance := peakBalance self |}.

(** The error-rate part of [checkCircuitBreakers]. *)
Definition checkErrorRate (cfg : BreakerConfig) (self : RiskManager)
    : M (BreakerCheckResult * RiskManager) :=
  let! now := Date_now in
  let errorWindowMs := 60000%Z in
  let elapsed := (now - errorWindowStart self)%Z in
  let self1 :=
    if (errorWindowMs <? elapsed)%Z then set_errorWindow self 0 now else self in
  if Qle_bool (MAX_ERROR_RATE_PER_MINUTE cfg) (inject_Z (errorCount self1))
  then ret ({| br_allowed := false;
               br_reason := Some (ErrorRateTooHigh (errorCount self1)) |}, self1)
  else ret ({| br_allowed := true; br_reason := None |}, self1).

(** The stale-price part, followed by the error-rate part. *)
Definition checkPriceFeed (cfg : BreakerConfig) (lastPriceUpdate : option Z)
    (self : RiskManager) : M (BreakerCheckResult * RiskManager) :=
  match lastPriceUpdate with
  | Some t =>
      let! now := Date_now in
      let priceAge := (now - t)%Z in
      if Qlt_bool (PRICE_FEED_STALE_MS cfg) (inject_Z priceAge)
      then ret ({| br_allowed := false;
                   br_reason := Some (PriceFeedStale priceAge) |}, self)
      else checkErrorRate cfg self
  | None => checkErrorRate cfg self
  end.

(** [checkCircuitBreakers(wsConnected, wsDisconnectTime, lastPriceUpdate)];
    a [Date] or [null] is an [option Z]. *)
Definition checkCircuitBreakers (cfg : BreakerConfig) (wsConnected : bool)
    (wsDisconnectTime lastPriceUpdate : option Z) (self : RiskManager)
    : M (BreakerCheckResult * RiskManager) :=
  match wsConnected, wsDisconnectTime with
  | false, Some t =>
      let! now := Date_now in
      let disconnectDuration := (now - t)%Z in
      if Qlt_bool (WEBSOCKET_DISCONNECT_TIMEOUT_MS cfg)
                  (inject_Z disconnectDuration)
      then ret ({| br_allowed := false;
                   br_reason := Some (WebSocketDisconnected disconnectDuration) |},
                self)
      else checkPriceFeed cfg lastPriceUpdate self
  | _, _ => checkPriceFeed cfg lastPriceUpdate self
  end.

Definition recordError (self : RiskManager) : RiskManager :=
  set_errorWindow self (errorCount self + 1) (errorWindowStart self).

Definition updateDailyPnl (pnl : Decimal) (self : RiskManager) : RiskManager :=
  {| rm_config := rm_config self; dailyPnl := dailyPnl self + pnl;
     dailyStartTime := dailyStartTime self;
     orderCount := orderCount self; orderWindowStart := orderWindowStart self;
     errorCount := errorCount self; errorWindowStart := errorWindowStart self;
     maxDrawdown := maxDrawdown self; peakBalance := peakBalance self |}.

Definition resetDailyMetrics (self : RiskManager) : M RiskManager :=
  let! now := Date_now in
  ret {| rm_config := rm_config self; dailyPnl := 0;
         dailyStartTime := now;
         orderCount := orderCount self; orderWindowStart := orderWindowStart self;
         errorCount := errorCount self; errorWindowStart := errorWindowStart self;
         maxDrawdown := maxDrawdown self; peakBalance := peakBalance self |}.

Definition set_drawdown (self : RiskManager) (peak dd : Decimal) : RiskManager :=
  {| rm_config := rm_config self; dailyPnl := dailyPnl self;
     dailyStartTime := dailyStartTime self;
     orderCount := orderCount self; orderWindowStart := orderWindowStart self;
     errorCount := errorCount self; errorWindowStart := errorWindowStart self;
     maxDrawdown := dd; peakBalance := peak |}.

Definition updateDrawdown (balance : Decimal) (self : RiskManager) : RiskManager :=
  if Qlt_bool (peakBalance self) balance then set_drawdown self balance 0
  else
    let drawdown := peakBalance self - balance in
    if Qlt_bool (maxDrawdown self) drawdown
    then set_drawdown self (peakBalance self) drawdown
    else self.

(** [n] calls of [checkOrderRate] in a row: the verdicts and the manager
    they leave. *)
Fixpoint checkOrderRates (n : nat) (self : RiskManager)
    : M (list bool * RiskManager) :=
  match n with
  | O => ret ([], self)
  | S n' =>
      let! (r, self1) := checkOrderRate self in
      let! (rs, self') := checkOrderRates n' self1 in
      ret (allowed r :: rs, self')
  end.

Definition count_true (l : list bool) : Z :=
  Z.of_nat (List.length (List.filter (fun b => b) l)).

(** *** The circuit-breaker conditions, one by one

    Each condition is read at the clock tick at which the method gets to
    it: the disconnect check reads the clock only for a disconnected
    socket with a disconnect time, the price check only when a last
    update is known, the error check always. *)

Definition wsTick (wsConnected : bool) (wsDisconnectTime : option Z)
    (w : World) : nat :=
  match wsConnected, wsDisconnectTime with
  | false, Some _ => S (w_clock_i w)
  | _, _ => w_clock_i w
  end.

Definition wsTripped (cfg : BreakerConfig) (wsConnected : bool)
    (wsDisconnectTime : option Z) (w : World) : option BreakerReason :=
  match wsConnected, wsDisconnectTime with
  | false, Some t =>
      let d := (w_clock w (w_clock_i w) - t)%Z in
      if Qlt_bool (WEBSOCKET_DISCONNECT_TIMEOUT_MS cfg) (inject_Z d)
      then Some (WebSocketDisconnected d) else None
  | _, _ => None
  end.

Definition priceTripped (cfg : BreakerConfig) (lastPriceUpdate : option Z)
    (w : World) (tick : nat) : option BreakerReason :=
  match lastPriceUpdate with
  | Some t =>
      let age := (w_clock w tick - t)%Z in
      if Qlt_bool (PRICE_FEED_STALE_MS cfg) (inject_Z age)
      then Some (PriceFeedStale age) else None
  | None => None
  end.

Definition priceTick (lastPriceUpdate : option Z) (tick : nat) : nat :=
  match lastPriceUpdate with Some _ => S tick | None => tick end.

(** The errors that count at [tick]: none once the window is over. *)
Definition errorsInWindow (self : RiskManager) (w : World) (tick : nat) : Z :=
  if (60000 <? w_clock w tick - errorWindowStart self)%Z
  then 0%Z else errorCount self.

Definition errorTripped (cfg : BreakerConfig) (self : RiskManager)
    (w : World) (tick : nat) : option BreakerReason :=
  if Qle_bool (MAX_ERROR_RATE_PER_MINUTE cfg)
              (inject_Z (errorsInWindow self w tick))
  then Some (ErrorRateTooHigh (errorsInWindow self w tick)) else None.

Definition first_some {A} (a b c : option A) : option A :=
  match a with
  | Some x => Some x
  | None => match b with Some y => Some y | None => c end
  end.

Definition updateDrawdowns (balances : list Decimal) (self : RiskManager)
    : RiskManager :=
  fold_left (fun rm b => updateDrawdown b rm) balances self.

Definition updateDailyPnls (pnls : list Decimal) (self : RiskManager)
    : RiskManager :=
  fold_left (fun rm p => updateDailyPnl p rm) pnls self.

Definition sample_breaker_config : BreakerConfig :=
  {| WEBSOCKET_DISCONNECT_TIMEOUT_MS := 30000;
     PRICE_FEED_STALE_MS := 60000;
     MAX_ERROR_RATE_PER_MINUTE := 10 |}.


(** ** Feeding an EMA *)

(** [update] called with each price in turn. *)
Definition EMA_feed (prices : list Decimal) (self : EMA) : EMA :=
  fold_left (fun e p => snd (EMA_update p e)) prices self.


(** ** Vocabulary for the trade tape *)

(** The last [n] elements of a list. *)
Definition lastn {A} (n : nat) (l : list A) : list A :=
  skipn (length l - n) l.

Definition tradesOf (tokenId : string) (ts : list TradeRecord)
    : list TradeRecord :=
  List.filter (fun t => String.eqb (tr_tokenId t) tokenId) ts.

Definition addTrades (ts : list TradeRecord) (self : MarketStateStore)
    : MarketStateStore :=
  fold_left (fun s t => addTrade t s) ts self.

(** [None] for a token that never traded, else the given list. *)
Definition if_traded {A B} (seen : list A) (v : B) : option B :=
  match seen with [] => None | _ :: _ => Some v end.


(** ** packages/execution/src/paper-execution-sim.ts: the other methods *)

Definition getOpenOrders (self : PaperExecutionSim) : list OrderIntent :=
  js_values (openOrders self).

Definition markToMarket (tokenId : string) (book : OrderBook)
    (self : PaperExecutionSim) : list (string * Decimal) :=
  match calculateMidPrice book with
  | None => []
  | Some midPrice =>
      fold_left
        (fun mtm order =>
           if negb (String.eqb (oi_tokenId order) tokenId) then mtm
           else
             let unrealizedPnl :=
               match oi_side order with
               | buy => (midPrice - oi_price order) * oi_size order
               | sell => (oi_price order - midPrice) * oi_size order
               end in
             js_set String.eqb (oi_id order) unrealizedPnl mtm)
        (js_values (openOrders self)) []
  end.

Definition getFills (self : PaperExecutionSim) : list Fill := fills self.

(** The open orders as [placeOrder] builds them: one entry per id, each
    order stored under its own id. *)
Definition sim_ok (self : PaperExecutionSim) : Prop :=
  List.NoDup (js_keys (openOrders self)) /\
  Forall (fun kv => oi_id (snd kv) = fst kv) (openOrders self).

(** What [createFill] records of the order and of the cost of a fill. *)
Definition fill_accounts (cfg : PaperExecutionSimConfig) (order : OrderIntent)
    (f : Fill) : Prop :=
  f_orderId f = oi_id order /\ f_tokenId f = oi_tokenId order /\
  f_side f = oi_side order /\
  f_fee f == f_price f * f_size f * feeRate cfg /\
  0 <= f_slippage f /\ 0 <= f_spreadPaid f.

(** A fill stays within its order: not more than the order's size, and
    for a limit order not at a worse price than the limit. *)
Definition fill_within_order (order : OrderIntent) (f : Fill) : Prop :=
  f_size f <= oi_size order /\
  (oi_type order = limit ->
   match oi_side order with
   | buy => f_price f <= oi_price order
   | sell => oi_price order <= f_price f
   end).

(** The fills among [fs] that carry the order id [orderId]. *)
Definition fillsOf (orderId : string) (fs : list Fill) : list Fill :=
  List.filter (fun f => String.eqb (f_orderId f) orderId) fs.

(** What one pass of the loop of [processMarketUpdate] leaves of an order
    [o], given the result of its fill attempt: its fills among the new
    ones ([mine]), the entry then stored under its id ([stored]) and
    whether the id was pushed to [ordersToRemove] ([removed]). *)
Definition entry_outcome (o : OrderIntent) (fill : option Fill)
    (mine : list Fill) (stored : option OrderIntent) (removed : Prop) : Prop :=
  match fill with
  | None => mine = [] /\ stored = Some o /\ ~ removed
  | Some f =>
      mine = [f] /\
      if Qle_bool (oi_size o - f_size f) 0 then removed
      else stored = Some (set_size o (oi_size o - f_size f)) /\ ~ removed
  end.

(** ** The risk gate: sample data *)

(** The sample signal as a sell at another price, with other edge and
    confidence figures. *)
Definition sample_signal_sell : Signal :=
  {| sig_id := "s2"; sig_strategy := sig_strategy sample_signal;
     sig_tokenId := "token-1"; sig_marketId := Some "m1"%string;
     sig_side := sell; sig_limitPrice := 3 # 4; sig_size := 200;
     sig_expectedEdgeBps := 5; sig_confidence := 1 # 10;
     sig_ttlMs := 1; sig_createdAt := 7 |}.

(** The sample gate with its own position, gross-exposure, daily-loss
    and drawdown limits set to zero. *)
Definition sample_gate_zero_limits (pnl : Decimal) : RiskGate :=
  {| riskManager := sample_manager pnl;
     rg_config := {| maxPositionPerToken := 0; maxGrossExposure := 0;
                     maxNetExposure := 5000; maxDailyLoss := 0;
                     rg_maxDrawdown := 0; staleFeedMs := 60000 |};
     lastPriceUpdate := ∅ |}.


(** ** packages/execution/src/paper-execution-sim.ts, with the intents as
    the objects they are

    [placeOrder] stores the caller's [OrderIntent] object itself, and
    [processMarketUpdate] writes the remaining size into that object
    ([order.size = remainingSize]).  The definitions above keep a copy
    per instance, which is what one instance sees of its own orders; here
    the objects live in a heap that the caller and every instance
    share. *)

Definition Ref := nat.

Definition Heap := Ref -> OrderIntent.

Definition heap_set (h : Heap) (r : Ref) (o : OrderIntent) : Heap :=
  fun r' => if Nat.eqb r' r then o else h r'.

Module ByRef.

Record PaperExecutionSim := {
  openOrders : list (string * Ref);
  config : PaperExecutionSimConfig;
  fills : list Fill
}.

Definition newPaperExecutionSim (cfg : PaperExecutionSimConfig)
    : PaperExecutionSim :=
  {| openOrders := []; config := cfg; fills := [] |}.

Definition placeOrder (intent : Ref) (self : PaperExecutionSim) (h : Heap)
    : PaperExecutionSim :=
  {| openOrders := js_set String.eqb (oi_id (h intent)) intent (openOrders self);
     config := config self;
     fills := fills self |}.

(** The [for] loop of [processMarketUpdate]: the entries are not changed,
    the objects they refer to are. *)
Fixpoint processOrders (cfg : PaperExecutionSimConfig) (tokenId : string)
    (book : OrderBook) (trade : option TradeRecord)
    (entries : list (string * Ref)) (h : Heap)
    : M (list Fill * list string * Heap) :=
  match entries with
  | [] => ret ([], [], h)
  | (orderId, r) :: rest =>
      let order := h r in
      if negb (String.eqb (oi_tokenId order) tokenId) then
        processOrders cfg tokenId book trade rest h
      else
        let! fill := attemptFill cfg order book trade in
        match fill with
        | Some f =>
            let remainingSize := oi_size order - f_size f in
            if Qle_bool remainingSize 0 then
              let! (newFills, ordersToRemove, h') :=
                processOrders cfg tokenId book trade rest h in
              ret (f :: newFills, orderId :: ordersToRemove, h')
            else
              let! (newFills, ordersToRemove, h') :=
                processOrders cfg tokenId book trade rest
                              (heap_set h r (set_size order remainingSize)) in
              ret (f :: newFills, ordersToRemove, h')
        | None => processOrders cfg tokenId book trade rest h
        end
  end.

Definition processMarketUpdate (tokenId : string) (book : OrderBook)
    (trade : option TradeRecord) (self : PaperExecutionSim) (h : Heap)
    : M (list Fill * PaperExecutionSim * Heap) :=
  let! (newFills, ordersToRemove, h') :=
    processOrders (config self) tokenId book trade (openOrders self) h in
  let remaining :=
    fold_left (fun m orderId => js_delete String.eqb orderId m)
              ordersToRemove (openOrders self) in
  ret (newFills,
       {| openOrders := remaining;
          config := config self;
          fills := fills self ++ newFills |},
       h').

(** The calls made on one instance, in order; [placeOrder] is given a
    reference to the caller's object. *)
Inductive SimCall :=
| PlaceOrder (intent : Ref)
| ProcessMarketUpdate (tokenId : string) (book : OrderBook)
                      (trade : option TradeRecord).

Fixpoint runCalls (calls : list SimCall) (self : PaperExecutionSim) (h : Heap)
    : M (list (list Fill) * PaperExecutionSim * Heap) :=
  match calls with
  | [] => ret ([], self, h)
  | PlaceOrder intent :: calls' =>
      let! (outs, self', h') := runCalls calls' (placeOrder intent self h) h in
      ret ([] :: outs, self', h')
  | ProcessMarketUpdate tokenId book trade :: calls' =>
      let! (newFills, self1, h1) := processMarketUpdate tokenId book trade self h in
      let! (outs, self', h') := runCalls calls' self1 h1 in
      ret (newFills :: outs, self', h')
  end.

End ByRef.

(** The caller's objects: one buy limit at 0.52 for 200. *)
Definition shared_heap : Heap := fun _ => order1 buy (52 # 100) 200 limit.

(** Place the object, then one market update on the test book. *)
Definition shared_calls : list ByRef.SimCall :=
  [ ByRef.PlaceOrder 0%nat; ByRef.ProcessMarketUpdate "token-1" test_book None ].


(** ** decimal.js arithmetic, with its rounding

    The repository leaves decimal.js at its defaults: every [plus],
    [minus], [times] and [div] returns its result rounded to 20
    significant digits, to the nearest, a tie away from zero
    (ROUND_HALF_UP).  The definitions above compute in exact rationals;
    the module below redoes the two helpers of math.ts whose results
    depend on the rounding, operation by operation. *)

Module Rounded.

Definition precision : Z := 20.

(** The decimal exponent of a positive rational: the [e] with
    10^e <= x < 10^(e+1), searched downwards from a bound taken from the
    binary size of the numerator. *)
Fixpoint exponent_from (fuel : nat) (e : Z) (x : Q) : Z :=
  match fuel with
  | O => e
  | S fuel' =>
      if Qle_bool (10 ^ e) x then e else exponent_from fuel' (e - 1) x
  end.

Definition exponent (x : Q) : Z :=
  let hi := (Z.log2 (Qnum x) + 1)%Z in
  let lo := (- (Z.log2 (Zpos (Qden x)) + 1))%Z in
  exponent_from (Z.to_nat (hi - lo)) hi x.

(** [x] rounded to [precision] significant digits, half away from zero. *)
Definition round (x : Q) : Q :=
  if Qeq_bool x 0 then 0
  else
    let scale := 10 ^ (precision - 1 - exponent (Qabs x)) in
    let r := inject_Z (Qfloor (Qabs x * scale + (1 # 2))) / scale in
    if Qle_bool 0 x then r else - r.

Definition plus (x y : Decimal) : Decimal := round (x + y).
Definition minus (x y : Decimal) : Decimal := round (x - y).
Definition times (x y : Decimal) : Decimal := round (x * y).
Definition div (x y : Decimal) : Decimal := round (x / y).

(** [new EMA(period)]: [new Decimal(2).div(period + 1)]. *)
Definition newEMA (period : Z) : EMA :=
  {| alpha := div 2 (inject_Z (period + 1)); value := None |}.

(** [EMA.update]:
    [alpha.times(price).plus(new Decimal(1).minus(alpha).times(value))]. *)
Definition EMA_update (price : Decimal) (self : EMA) : Decimal * EMA :=
  match value self with
  | None => (price, {| alpha := alpha self; value := Some price |})
  | Some v =>
      let v' := plus (times (alpha self) price)
                     (times (minus 1 (alpha self)) v) in
      (v', {| alpha := alpha self; value := Some v' |})
  end.

Definition EMA_feed (prices : list Decimal) (self : EMA) : EMA :=
  fold_left (fun e p => snd (EMA_update p e)) prices self.

Definition kellyFraction (winProb winAmount lossAmount : Decimal) : Decimal :=
  if Qle_bool lossAmount 0 || Qle_bool winAmount 0 then 0
  else
    let q := minus 1 winProb in
    let b := div winAmount lossAmount in
    let kelly := minus winProb (div q b) in
    Qmax 0 (Qmin 1 kelly).

End Rounded.

(** Half a unit in the 20th significant digit, relative to the value:
    the largest relative error of one rounded operation. *)
Definition half_ulp : Q := 1 # 20000000000000000000.

(** The relative drift an EMA of the given period can accumulate through
    rounding: one unit in the 19th significant digit per unit of
    period + 1. *)
Definition ema_drift (period : Z) : Q :=
  inject_Z (period + 1) * (2 * half_ulp).


(** What an instance sees of its orders: each stored reference with the
    object it points to. *)
Definition view (h : Heap) (entries : list (string * Ref))
    : list (string * OrderIntent) :=
  List.map (fun kr => (fst kr, h (snd kr))) entries.

(** The by-value instance that a by-reference instance amounts to on a
    given heap. *)
Definition sim_view (h : Heap) (self : ByRef.PaperExecutionSim)
    : PaperExecutionSim :=
  {| openOrders := view h (ByRef.openOrders self);
     config := ByRef.config self;
     fills := ByRef.fills self |}.

(** No object is stored under two ids. *)
Definition unshared (self : ByRef.PaperExecutionSim) : Prop :=
  List.NoDup (List.map snd (ByRef.openOrders self)).

(** * Properties *)

(** ** Insertion-ordered maps keyed by price *)

Lemma js_set_key_in k v (m : list (Decimal * PriceLevel)) x :
  InA same_key x (js_set Qeq_bool k v m) -> fst x == k \/ InA same_key x m.
Proof.
  induction m as [|[k' v'] m IH]; simpl; intros H.
  - inversion H; subst; [left; exact H1 | inversion H1].
  - destruct (Qeq_bool k' k) eqn:E.
    + inversion H; subst.
      * right. left. exact H1.
      * right. right. exact H1.
    + inversion H; subst.
      * right. left. exact H1.
      * destruct (IH H1) as [Hk | Hin]; [left; exact Hk | right; right; exact Hin].
Qed.

Lemma js_delete_key_in k (m : list (Decimal * PriceLevel)) x :
  InA same_key x (js_delete Qeq_bool k m) -> InA same_key x m.
Proof.
  induction m as [|[k' v'] m IH]; simpl; intros H; [exact H|].
  destruct (Qeq_bool k' k).
  - right. apply IH. exact H.
  - inversion H; subst; [left; exact H1 | right; apply IH; exact H1].
Qed.

Lemma js_set_NoDupA k v (m : list (Decimal * PriceLevel)) :
  NoDupA same_key m -> NoDupA same_key (js_set Qeq_bool k v m).
Proof.
  induction m as [|[k' v'] m IH]; simpl; intros H.
  - constructor; [intros Hin; inversion Hin | constructor].
  - inversion H as [|? ? Hnin Hnd]; subst.
    destruct (Qeq_bool k' k) eqn:E.
    + constructor; [|exact Hnd].
      intros Hin. apply Hnin.
      rewrite InA_alt in *. destruct Hin as [y [Hy Hiny]].
      exists y. split; [exact Hy | exact Hiny].
    + constructor; [|apply IH; exact Hnd].
      intros Hin. apply js_set_key_in in Hin. destruct Hin as [Hk | Hin].
      * simpl in Hk. apply Qeq_bool_iff in Hk. congruence.
      * apply Hnin. exact Hin.
Qed.

Lemma js_delete_NoDupA k (m : list (Decimal * PriceLevel)) :
  NoDupA same_key m -> NoDupA same_key (js_delete Qeq_bool k m).
Proof.
  induction m as [|[k' v'] m IH]; simpl; intros H; [constructor|].
  inversion H as [|? ? Hnin Hnd]; subst.
  destruct (Qeq_bool k' k).
  - apply IH. exact Hnd.
  - constructor; [|apply IH; exact Hnd].
    intros Hin. apply Hnin. apply js_delete_key_in in Hin. exact Hin.
Qed.

Lemma js_set_Forall (P : Decimal * PriceLevel -> Prop) k v m :
  (forall k', k' == k -> P (k', v)) ->
  Forall P m -> Forall P (js_set Qeq_bool k v m).
Proof.
  intros Hnew. induction m as [|[k' v'] m IH]; simpl; intros H.
  - constructor; [apply Hnew; reflexivity | constructor].
  - inversion H; subst. destruct (Qeq_bool k' k) eqn:E.
    + constructor; [apply Hnew; apply Qeq_bool_iff; exact E | assumption].
    + constructor; [assumption | apply IH; assumption].
Qed.

Lemma js_delete_Forall (P : Decimal * PriceLevel -> Prop) k m :
  Forall P m -> Forall P (js_delete Qeq_bool k m).
Proof.
  induction m as [|[k' v'] m IH]; simpl; intros H; [constructor|].
  inversion H; subst. destruct (Qeq_bool k' k).
  - apply IH; assumption.
  - constructor; [assumption | apply IH; assumption].
Qed.

Lemma price_map_set P level m :
  P level -> price_map_ok P m ->
  price_map_ok P (js_set Qeq_bool (lvl_price level) level m).
Proof.
  intros HP (Hnd & Hk & Hp). repeat split.
  - apply js_set_NoDupA. exact Hnd.
  - apply js_set_Forall; [|exact Hk].
    intros k' Hk'. unfold keyed_by_price. simpl. exact Hk'.
  - apply js_set_Forall; [|exact Hp]. intros k' _. simpl. exact HP.
Qed.

Lemma price_map_delete P k m :
  price_map_ok P m -> price_map_ok P (js_delete Qeq_bool k m).
Proof.
  intros (Hnd & Hk & Hp). repeat split.
  - apply js_delete_NoDupA. exact Hnd.
  - apply js_delete_Forall. exact Hk.
  - apply js_delete_Forall. exact Hp.
Qed.

Lemma price_map_existing P existing m :
  Forall P existing -> price_map_ok P m ->
  price_map_ok P
    (fold_left (fun m level => js_set Qeq_bool (lvl_price level) level m)
               existing m).
Proof.
  revert m. induction existing as [|x l IH]; simpl; intros m HP Hm; [exact Hm|].
  inversion HP; subst. apply IH; [assumption|].
  apply price_map_set; assumption.
Qed.

Lemma price_map_updates (P : PriceLevel -> Prop) updates m :
  (forall u, 0 < lvl_size u -> P u) -> price_map_ok P m ->
  price_map_ok P
    (fold_left (fun m update =>
                  let key := lvl_price update in
                  if Qle_bool (lvl_size update) 0
                  then js_delete Qeq_bool key m
                  else js_set Qeq_bool key update m)
               updates m).
Proof.
  intros HP. revert m. induction updates as [|u l IH]; simpl; intros m Hm; [exact Hm|].
  apply IH. destruct (Qle_bool (lvl_size u) 0) eqn:E.
  - apply price_map_delete. exact Hm.
  - apply price_map_set; [|exact Hm]. apply HP.
    destruct (Qlt_le_dec 0 (lvl_size u)) as [Hlt|Hle]; [exact Hlt|].
    apply Qle_bool_iff in Hle. congruence.
Qed.

Lemma price_map_values_unique P m :
  price_map_ok P m -> unique_prices (js_values m).
Proof.
  intros (Hnd & Hk & _). unfold unique_prices, js_values.
  induction m as [|[k v] m IH]; simpl; [constructor|].
  inversion Hnd as [|? ? Hnin Hnd']; subst. inversion Hk as [|? ? Hkv Hk']; subst.
  constructor; [|apply IH; assumption].
  intros Hin. apply Hnin. rewrite InA_alt in *.
  destruct Hin as [y [Hy Hiny]]. apply in_map_iff in Hiny.
  destruct Hiny as [[k' v'] [Hsnd Hin']]. simpl in Hsnd. subst y.
  exists (k', v'). split; [|exact Hin'].
  rewrite List.Forall_forall in Hk'. specialize (Hk' _ Hin').
  unfold same_key, keyed_by_price, same_price in *. simpl in *.
  rewrite Hkv, Hk'. exact Hy.
Qed.

Lemma price_map_values_Forall P m :
  price_map_ok P m -> Forall P (js_values m).
Proof.
  intros (_ & _ & Hp). unfold js_values. apply List.Forall_map. exact Hp.
Qed.

(** ** The stable sort on levels with distinct prices *)

Lemma level_cmp_Lt so a b : level_cmp so a b = Lt -> before so a b.
Proof.
  unfold level_cmp, before. destruct so; simpl.
  - intros H. apply Qlt_alt. exact H.
  - destruct (lvl_price a ?= lvl_price b) eqn:E; simpl; try discriminate.
    intros _. apply Qgt_alt. exact E.
Qed.

Lemma level_cmp_Eq so a b : level_cmp so a b = Eq -> same_price a b.
Proof.
  unfold level_cmp, same_price. destruct so; simpl.
  - intros H. apply Qeq_alt. exact H.
  - destruct (lvl_price a ?= lvl_price b) eqn:E; simpl; try discriminate.
    intros _. apply Qeq_alt. exact E.
Qed.

Lemma level_cmp_Gt so a b : level_cmp so a b = Gt -> before so b a.
Proof.
  unfold level_cmp, before. destruct so; simpl.
  - intros H. apply Qgt_alt. exact H.
  - destruct (lvl_price a ?= lvl_price b) eqn:E; simpl; try discriminate.
    intros _. apply Qlt_alt. exact E.
Qed.

Lemma before_trans so a b c : before so a b -> before so b c -> before so a c.
Proof. unfold before. destruct so; intros; lra. Qed.

Lemma before_distinct so a b : before so a b -> ~ same_price a b.
Proof. unfold before, same_price. destruct so; intros H E; lra. Qed.

Lemma js_insert_In {A} (cmp : A -> A -> comparison) x l z :
  In z (js_insert cmp x l) <-> z = x \/ In z l.
Proof.
  induction l as [|y l IH]; simpl.
  - split; intros [H|H]; auto.
  - destruct (cmp x y); simpl; rewrite ?IH; intuition auto.
Qed.

Lemma js_sort_In {A} (cmp : A -> A -> comparison) l z :
  In z (js_sort cmp l) <-> In z l.
Proof.
  induction l as [|y l IH]; simpl; [reflexivity|].
  rewrite js_insert_In, IH. intuition auto.
Qed.

Lemma js_insert_sorted so x l :
  StronglySorted (before so) l -> ~ InA same_price x l ->
  StronglySorted (before so) (js_insert (level_cmp so) x l).
Proof.
  induction l as [|y l IH]; simpl; intros Hs Hnin.
  - constructor; constructor.
  - inversion Hs as [|? ? Hs' Hall]; subst.
    destruct (level_cmp so x y) eqn:E.
    + exfalso. apply Hnin. left. apply level_cmp_Eq with so. exact E.
    + apply level_cmp_Lt in E. constructor; [exact Hs|].
      constructor; [exact E|].
      rewrite List.Forall_forall in *. intros z Hz.
      apply before_trans with y; [exact E | apply Hall; exact Hz].
    + apply level_cmp_Gt in E. constructor.
      * apply IH; [exact Hs'|]. intros Hin. apply Hnin. right. exact Hin.
      * rewrite List.Forall_forall in *. intros z Hz.
        apply js_insert_In in Hz. destruct Hz as [->|Hz]; [exact E | apply Hall; exact Hz].
Qed.

Lemma js_sort_sorted so l :
  unique_prices l -> StronglySorted (before so) (js_sort (level_cmp so) l).
Proof.
  unfold unique_prices. induction l as [|x l IH]; simpl; intros H; [constructor|].
  inversion H as [|? ? Hnin Hnd]; subst.
  apply js_insert_sorted; [apply IH; exact Hnd|].
  intros Hin. apply Hnin. rewrite InA_alt in *.
  destruct Hin as [y [Hy Hiny]]. exists y. split; [exact Hy|].
  apply js_sort_In in Hiny. exact Hiny.
Qed.

Lemma sorted_unique so l :
  StronglySorted (before so) l -> unique_prices l.
Proof.
  unfold unique_prices. induction l as [|x l IH]; intros H; [constructor|].
  inversion H as [|? ? Hs Hall]; subst. constructor; [|apply IH; exact Hs].
  intros Hin. rewrite InA_alt in Hin. destruct Hin as [y [Hy Hiny]].
  rewrite List.Forall_forall in Hall. specialize (Hall _ Hiny).
  apply (before_distinct _ _ _ Hall). exact Hy.
Qed.

Lemma js_sort_Forall {A} (P : A -> Prop) cmp l :
  Forall P l -> Forall P (js_sort cmp l).
Proof.
  rewrite !List.Forall_forall. intros H z Hz. apply H. apply js_sort_In in Hz. exact Hz.
Qed.

(** ** [applyLevels] and [applyDelta] *)

Lemma applyLevels_sorted existing updates so :
  StronglySorted (before so) (applyLevels existing updates so).
Proof.
  unfold applyLevels. apply js_sort_sorted.
  apply (price_map_values_unique (fun _ => True)).
  apply price_map_updates; [intros; exact I|].
  apply price_map_existing.
  - apply List.Forall_forall. intros; exact I.
  - repeat split; constructor.
Qed.

Lemma applyLevels_sizes existing updates so :
  sizes_positive existing -> sizes_positive (applyLevels existing updates so).
Proof.
  unfold applyLevels, sizes_positive. intros H. apply js_sort_Forall.
  apply (price_map_values_Forall (fun x => 0 < lvl_size x)).
  apply price_map_updates; [intros u Hu; exact Hu|].
  apply price_map_existing; [exact H|].
  repeat split; constructor.
Qed.

Lemma applyDelta_side_order now bids asks sequence self :
  side_order self -> side_order (applyDelta now bids asks sequence self).
Proof.
  intros H. unfold applyDelta.
  destruct (match sequence with
            | Some s => match lastSequence self with
                        | Some l => (s <=? l)%Z | None => false end
            | None => false end); [exact H|].
  unfold side_order, strictly_descending, strictly_ascending.
  destruct sequence; simpl;
    (split; [apply (applyLevels_sorted _ _ desc)|];
     split; [apply (applyLevels_sorted _ _ asc)|];
     split; [apply (sorted_unique desc); apply applyLevels_sorted
            | apply (sorted_unique asc); apply applyLevels_sorted]).
Qed.

Lemma applyDelta_sizes now bids asks sequence self :
  stored_sizes_positive self ->
  stored_sizes_positive (applyDelta now bids asks sequence self).
Proof.
  intros [Hb Ha]. unfold applyDelta.
  destruct (match sequence with
            | Some s => match lastSequence self with
                        | Some l => (s <=? l)%Z | None => false end
            | None => false end); [split; assumption|].
  unfold stored_sizes_positive.
  destruct sequence; simpl; split; apply applyLevels_sizes; assumption.
Qed.

Lemma applyDeltas_preserve ds self :
  side_order self -> stored_sizes_positive self ->
  side_order (applyDeltas ds self) /\ stored_sizes_positive (applyDeltas ds self).
Proof.
  unfold applyDeltas. revert self.
  induction ds as [|d ds IH]; simpl; intros self Ho Hs; [split; assumption|].
  apply IH; [apply applyDelta_side_order | apply applyDelta_sizes]; assumption.
Qed.

Lemma js_set_stores (k : Decimal) (v : PriceLevel) m :
  In v (js_values (js_set Qeq_bool k v m)).
Proof.
  unfold js_values. induction m as [|[k' v'] m IH]; simpl; [left; reflexivity|].
  destruct (Qeq_bool k' k); simpl; [left; reflexivity | right; exact IH].
Qed.

Lemma applyLevels_stores existing u so :
  0 < lvl_size u -> In u (applyLevels existing [u] so).
Proof.
  intros Hu. unfold applyLevels. simpl.
  destruct (Qle_bool (lvl_size u) 0) eqn:E.
  - apply Qle_bool_iff in E. lra.
  - apply js_sort_In. apply js_set_stores.
Qed.

Lemma sorted_head_first so h t x :
  StronglySorted (before so) (h :: t) -> In x (h :: t) ->
  x = h \/ before so h x.
Proof.
  intros Hs [<-|Hin]; [left; reflexivity|].
  inversion Hs as [|? ? _ Hall]; subst.
  rewrite List.Forall_forall in Hall. right. apply Hall. exact Hin.
Qed.

(** C3: a delta whose sequence number is at most the last applied one
    leaves the book as it was: bids, asks, stored sequence and
    [lastUpdate] are those before the call. *)
Theorem applyDelta_stale_sequence_unchanged
    (now : Z) (bids asks : list PriceLevel) (sequence s : Z)
    (self : InMemoryOrderBook) :
  lastSequence self = Some s -> (sequence <= s)%Z ->
  applyDelta now bids asks (Some sequence) self = self.
Proof.
  intros Hlast Hle. unfold applyDelta. rewrite Hlast.
  apply Z.leb_le in Hle. rewrite Hle. reflexivity.
Qed.

Lemma applyDelta_stale_sequence_witness :
  applyDelta 2000 [lvl (1 # 2) 10] [lvl (51 # 100) 0] (Some 5%Z) sample_book
  = sample_book.
Proof.
  apply (applyDelta_stale_sequence_unchanged 2000 _ _ 5 5 sample_book);
    [reflexivity | lia].
Defined.

(** C4, as stated, fails: a snapshot level of size zero that no delta
    touches stays in the book, although both sides are strictly ordered. *)
Lemma stored_size_not_positive_counterexample :
  side_order zero_size_book /\
  cb_bids (book (applyDeltas [ask_delta] zero_size_book)) = [lvl (1 # 2) 0] /\
  ~ stored_sizes_positive (applyDeltas [ask_delta] zero_size_book).
Proof.
  split; [|split].
  - unfold side_order, strictly_descending, strictly_ascending, unique_prices.
    simpl. repeat split; repeat constructor.
    intros H. inversion H.
  - reflexivity.
  - intros [Hb _]. vm_compute in Hb. inversion Hb as [|? ? Hpos _]; subst.
    vm_compute in Hpos. discriminate.
Qed.

(** C4 (amended): from a book whose sides are strictly ordered with
    unique prices and whose stored sizes are positive, every sequence of
    [applyDelta] calls leaves the bids strictly descending, the asks
    strictly ascending, the prices unique per side and the sizes positive;
    the two sides are not compared: a bid posted at or above an ask is
    stored together with it, and the book is then crossed. *)
Theorem applyDeltas_side_order (self : InMemoryOrderBook) (ds : list Delta) :
  side_order self -> stored_sizes_positive self ->
  side_order (applyDeltas ds self) /\
  stored_sizes_positive (applyDeltas ds self) /\
  (forall now b a,
      0 < lvl_size b -> 0 < lvl_size a -> lvl_price a <= lvl_price b ->
      let self' := applyDelta now [b] [a] None (applyDeltas ds self) in
      In b (cb_bids (book self')) /\ In a (cb_asks (book self')) /\
      crossed self').
Proof.
  intros Ho Hs. destruct (applyDeltas_preserve ds self Ho Hs) as [Ho' Hs'].
  split; [exact Ho'|]. split; [exact Hs'|].
  intros now b a Hb Ha Hab self'.
  assert (Hinb : In b (cb_bids (book self'))).
  { unfold self', applyDelta. simpl. apply applyLevels_stores. exact Hb. }
  assert (Hina : In a (cb_asks (book self'))).
  { unfold self', applyDelta. simpl. apply applyLevels_stores. exact Ha. }
  split; [exact Hinb|]. split; [exact Hina|].
  assert (Hsb : StronglySorted (before desc) (cb_bids (book self'))).
  { unfold self', applyDelta. simpl. apply applyLevels_sorted. }
  assert (Hsa : StronglySorted (before asc) (cb_asks (book self'))).
  { unfold self', applyDelta. simpl. apply applyLevels_sorted. }
  unfold crossed, getBestBid, getBestAsk.
  destruct (cb_bids (book self')) as [|hb tb]; [inversion Hinb|].
  destruct (cb_asks (book self')) as [|ha ta]; [inversion Hina|].
  destruct (sorted_head_first _ _ _ _ Hsb Hinb) as [->|Hltb];
    destruct (sorted_head_first _ _ _ _ Hsa Hina) as [->|Hlta];
    unfold before in *; lra.
Qed.

Lemma applyDeltas_side_order_witness :
  side_order (applyDeltas [ask_delta] sample_book) /\
  stored_sizes_positive (applyDeltas [ask_delta] sample_book).
Proof.
  assert (Ho : side_order sample_book).
  { unfold side_order, strictly_descending, strictly_ascending, unique_prices,
      same_price. simpl.
    repeat split; repeat constructor;
      try (intros H; inversion H; subst;
           match goal with
           | E : _ == _ |- _ => vm_compute in E; discriminate
           | E : InA _ _ [] |- _ => inversion E
           end). }
  assert (Hs : stored_sizes_positive sample_book).
  { unfold stored_sizes_positive, sizes_positive. simpl.
    split; repeat constructor. }
  destruct (applyDeltas_side_order sample_book [ask_delta] Ho Hs) as (H1 & H2 & _).
  split; assumption.
Defined.

(** ** The risk gate *)

Lemma first_failing_none fails cs :
  first_failing fails cs = None -> forall c, In c cs -> fails c = None.
Proof.
  induction cs as [|c0 cs IH]; simpl; intros H c Hin; [contradiction|].
  destruct (fails c0) eqn:E; [discriminate|].
  destruct Hin as [<-|Hin]; [exact E | apply IH; assumption].
Qed.

Lemma first_failing_some fails cs c r :
  first_failing fails cs = Some (c, r) -> In c cs /\ fails c = Some r.
Proof.
  induction cs as [|c0 cs IH]; simpl; intros H; [discriminate|].
  destruct (fails c0) eqn:E.
  - inversion H; subst. split; [left; reflexivity | exact E].
  - destruct (IH H) as [Hin Hf]. split; [right; exact Hin | exact Hf].
Qed.

Lemma check_order_complete c : In c check_order.
Proof. destruct c; simpl; tauto. Qed.

Lemma some_check_fails_iff fails :
  (exists c r, fails c = Some r) <-> first_failing fails check_order <> None.
Proof.
  split.
  - intros (c & r & Hc) Hnone.
    pose proof (first_failing_none _ _ Hnone c (check_order_complete c)).
    congruence.
  - intros Hne. destruct (first_failing fails check_order) as [[c r]|] eqn:E;
      [|congruence].
    apply first_failing_some in E. exists c, r. apply E.
Qed.

Lemma checkOrderRate_world rm w :
  snd (checkOrderRate rm w) = snd (Date_now w).
Proof.
  unfold checkOrderRate, bind, Date_now, ret.
  destruct (Qle_bool _ _); reflexivity.
Qed.

Lemma checkOrderRate_refused rm w :
  allowed (fst (fst (checkOrderRate rm w))) = false ->
  orderCount (snd (fst (checkOrderRate rm w))) = orderCount rm \/
  orderCount (snd (fst (checkOrderRate rm w))) = 0%Z.
Proof.
  unfold checkOrderRate, bind, Date_now, ret.
  destruct (1000 <? _)%Z; destruct (Qle_bool _ _); cbn; intros H;
    try discriminate; tauto.
Qed.

Ltac gate_done G Hiff :=
  unfold ret in G; inversion G; subst; clear G; cbn;
  repeat match goal with
         | |- _ /\ _ => split
         | |- _ <-> _ => split
         end;
  try reflexivity; try discriminate;
  try (intros; apply Hiff; discriminate);
  try (intros H; apply Hiff in H; congruence);
  try (intros _; split; reflexivity);
  try (cbn in *; lia);
  try (let c' := fresh "c" in let Hc' := fresh "Hc" in
       intros c' Hc'; destruct c'; cbn in Hc'; try lia; assumption).

(** C1: [gateSignal] gates exactly when one of the seven checks fails;
    the reasons list is the reason of the first failing check in the
    order kill switch, daily loss, position limit, gross exposure, net
    exposure, order rate, stale feed; every earlier check passes; and no
    later check runs: when the first failure comes before the order-rate
    check, the gate (its rate counter and window) and the world (the
    clock) are left untouched, and when it is the order-rate check, the
    clock is read once only and the counter is not incremented. *)
Theorem gateSignal_first_failure
    (signal : Signal) (currentPositions : list (string * Position))
    (balance : Decimal) (self : RiskGate) (w : World) :
  let fails c := check_fails c signal currentPositions balance self w in
  let '(d, self', w') := gateSignal signal currentPositions balance self w in
  gi_signal d = signal /\
  (gated d = true <-> exists c r, fails c = Some r) /\
  match first_failing fails check_order with
  | Some (c, r) =>
      gated d = true /\ gateReasons d = Some [r] /\
      (forall c', (check_index c' < check_index c)%nat -> fails c' = None) /\
      ((check_index c < check_index OrderRate)%nat -> self' = self /\ w' = w) /\
      (c = OrderRate ->
         w' = snd (Date_now w) /\
         lastPriceUpdate self' = lastPriceUpdate self /\
         (orderCount (riskManager self') = orderCount (riskManager self) \/
          orderCount (riskManager self') = 0%Z))
  | None => gated d = false /\ gateReasons d = None
  end.
Proof.
  intros fails.
  destruct (gateSignal signal currentPositions balance self w) as [[d self'] w'] eqn:G.
  pose proof (some_check_fails_iff fails) as Hiff.
  assert (HK : fails KillSwitch =
               if w_exists w "kill-switch.flag" then Some KillSwitchActive else None)
    by reflexivity.
  assert (HD : fails DailyLoss =
               failure (checkDailyLoss balance (riskManager self)) DailyLossLimit)
    by reflexivity.
  assert (HP : fails PositionLimitCheck =
               failure
                 (checkPositionLimit (marketId_or_unknown signal) (sig_tokenId signal)
                    (js_get String.eqb
                       (marketId_or_unknown signal ++ "-" ++ sig_tokenId signal)%string
                       currentPositions)
                    (sig_size signal) (riskManager self)) PositionLimit)
    by reflexivity.
  assert (HG : fails GrossExposure =
               failure (checkGrossExposure (js_values currentPositions) (riskManager self))
                       GrossExposureLimit)
    by reflexivity.
  assert (HN : fails NetExposure =
               let netExposure :=
                 fold_left (fun sum p => sum + pos_size p) (js_values currentPositions) 0 in
               if Qlt_bool (maxNetExposure (rg_config self)) (Qabs netExposure)
               then Some (NetExposureLimit netExposure) else None)
    by reflexivity.
  assert (HR : fails OrderRate =
               failure (fst (fst (checkOrderRate (riskManager self) w))) OrderRateLimit)
    by reflexivity.
  assert (HS : fails StaleFeed =
               match lastPriceUpdate self !! sig_tokenId signal with
               | Some lastUpdate =>
                   if (lastUpdate =? 0)%Z then None
                   else if (staleFeedMs (rg_config self)
                              <? w_clock w (S (w_clock_i w)) - lastUpdate)%Z
                        then Some StalePriceFeed else None
               | None => None
               end)
    by reflexivity.
  clearbody fails.
  unfold check_order in *. cbn [first_failing] in *.
  unfold gateSignal, bind, checkKillSwitch, existsSync in G.
  unfold failure in *. cbv zeta in *.
  destruct (w_exists w "kill-switch.flag") eqn:Ekill; rewrite HK in *.
  { gate_done G Hiff. }
  destruct (allowed (checkDailyLoss balance (riskManager self))) eqn:Edaily;
    cbn [negb] in G; rewrite HD in *.
  2:{ gate_done G Hiff. }
  destruct (allowed (checkPositionLimit _ _ _ _ _)) eqn:Epos;
    cbn [negb] in G; rewrite HP in *.
  2:{ gate_done G Hiff. }
  destruct (allowed (checkGrossExposure _ _)) eqn:Egross;
    cbn [negb] in G; rewrite HG in *.
  2:{ gate_done G Hiff. }
  destruct (Qlt_bool (maxNetExposure (rg_config self)) _) eqn:Enet;
    rewrite HN in *.
  { gate_done G Hiff. }
  pose proof (checkOrderRate_world (riskManager self) w) as Hw1.
  pose proof (checkOrderRate_refused (riskManager self) w) as Hcnt.
  destruct (checkOrderRate (riskManager self) w) as [[rateCheck rm'] w1] eqn:Erate.
  cbn [fst snd] in *.
  destruct (allowed rateCheck) eqn:Eallowed; cbn [negb] in G; rewrite HR in *.
  2:{ gate_done G Hiff. intros _. repeat split. apply Hcnt. reflexivity. }
  cbn [lastPriceUpdate with_riskManager rg_config] in G.
  destruct (lastPriceUpdate self !! sig_tokenId signal) as [lastUpdate|] eqn:Elast;
    rewrite HS in *.
  2:{ gate_done G Hiff. }
  destruct (lastUpdate =? 0)%Z eqn:Ezero.
  { gate_done G Hiff. }
  subst w1. unfold Date_now in G at 1. cbn [Date_now snd w_clock w_clock_i] in G.
  destruct (_ <? _)%Z eqn:Estale.
  - gate_done G Hiff.
  - gate_done G Hiff.
Qed.

(** The precedence scenario of the specification: 900 held, a buy of 200,
    limit 1000.  With the daily loss limit also reached, the daily-loss
    check comes first and is the one reported; the rate counter stays at
    3 and the clock is not read.  Without a daily loss the position limit
    is reported. *)
Example gate_precedence_daily_loss_first :
  let '(d, self', w') :=
    gateSignal sample_signal sample_positions 10000 (sample_gate (-600)) world0 in
  gated d = true /\
  gateReasons d = Some [DailyLossReached (-600)] /\
  check_fails PositionLimitCheck sample_signal sample_positions 10000
              (sample_gate (-600)) world0
  = Some (PositionLimitExceeded "m1" "token-1") /\
  orderCount (riskManager self') = 3%Z /\ w' = world0.
Proof. vm_compute. repeat split. Qed.

Example gate_precedence_position_limit :
  let '(d, self', w') :=
    gateSignal sample_signal sample_positions 10000 (sample_gate 0) world0 in
  gated d = true /\
  gateReasons d = Some [PositionLimitExceeded "m1" "token-1"] /\
  orderCount (riskManager self') = 3%Z /\ w' = world0.
Proof. vm_compute. repeat split. Qed.

(** A signal that passes every check consumes one unit of the order
    rate. *)
Example gate_pass_consumes_rate :
  let '(d, self', w') :=
    gateSignal sample_signal [] 10000 (sample_gate 0) world0 in
  gated d = false /\ gateReasons d = None /\
  orderCount (riskManager self') = 4%Z.
Proof. vm_compute. repeat split. Qed.

(** ** The paper execution simulator *)

Lemma passiveFill_world cfg order midPrice trade w r w' :
  passiveFill cfg order midPrice trade w = (r, w') ->
  w_random w' = w_random w /\ (w_random_i w <= w_random_i w')%nat.
Proof.
  unfold passiveFill. destruct trade as [t|]; [|unfold ret; intros H; inversion H; subst; split; [reflexivity|lia]].
  destruct (match oi_side order with buy => _ | sell => _ end);
    [|unfold ret; intros H; inversion H; subst; split; [reflexivity|lia]].
  unfold bind, Math_random. destruct (Qlt_bool _ _).
  - unfold createFill, bind, randomUUID, Date_now, ret. intros H; inversion H; subst; cbn. split; [reflexivity|lia].
  - unfold ret. intros H; inversion H; subst; cbn. split; [reflexivity|lia].
Qed.

Lemma attemptFill_world cfg order book trade w r w' :
  attemptFill cfg order book trade w = (r, w') ->
  w_random w' = w_random w /\ (w_random_i w <= w_random_i w')%nat.
Proof.
  unfold attemptFill. destruct (oi_type order).
  - unfold fillLimitOrder. destruct (calculateMidPrice book) as [m|];
      [|unfold ret; intros H; inversion H; subst; split; [reflexivity|lia]].
    destruct (oi_side order); destruct (ob_asks book); destruct (ob_bids book);
      try apply passiveFill_world;
      (destruct (Qle_bool _ _); [|apply passiveFill_world]);
      unfold createFill, bind, randomUUID, Date_now, ret;
      intros H; inversion H; subst; cbn; (split; [reflexivity|lia]).
  - unfold fillMarketOrder.
    destruct (oi_side order); [destruct (ob_asks book)|destruct (ob_bids book)];
      unfold createFill, bind, randomUUID, Date_now, ret;
      intros H; inversion H; subst; cbn; (split; [reflexivity|lia]).
Qed.

Lemma processOrders_cons cfg tokenId book trade orderId order rest w :
  processOrders cfg tokenId book trade ((orderId, order) :: rest) w =
  if negb (String.eqb (oi_tokenId order) tokenId) then
    let '(rest', newFills, ordersToRemove, w') :=
      processOrders cfg tokenId book trade rest w in
    ((orderId, order) :: rest', newFills, ordersToRemove, w')
  else
    let '(fill, w1) := attemptFill cfg order book trade w in
    let '(rest', newFills, ordersToRemove, w') :=
      processOrders cfg tokenId book trade rest w1 in
    match fill with
    | Some f =>
        if Qle_bool (oi_size order - f_size f) 0
        then ((orderId, order) :: rest', f :: newFills,
              orderId :: ordersToRemove, w')
        else ((orderId, set_size order (oi_size order - f_size f)) :: rest',
              f :: newFills, ordersToRemove, w')
    | None => ((orderId, order) :: rest', newFills, ordersToRemove, w')
    end.
Proof.
  cbn [processOrders]. unfold bind, ret.
  destruct (negb (String.eqb (oi_tokenId order) tokenId)).
  - destruct (processOrders cfg tokenId book trade rest w) as [[[? ?] ?] ?].
    reflexivity.
  - destruct (attemptFill cfg order book trade w) as [[f|] w1].
    + destruct (Qle_bool (oi_size order - f_size f) 0);
        destruct (processOrders cfg tokenId book trade rest w1) as [[[? ?] ?] ?];
        reflexivity.
    + destruct (processOrders cfg tokenId book trade rest w1) as [[[? ?] ?] ?].
      reflexivity.
Qed.

Lemma processOrders_fill_origin cfg tokenId book trade entries :
  forall w rest' newFills ordersToRemove w',
    processOrders cfg tokenId book trade entries w
    = (rest', newFills, ordersToRemove, w') ->
    w_random w' = w_random w /\ (w_random_i w <= w_random_i w')%nat /\
    forall f, In f newFills ->
      exists orderId order w1 w2,
        In (orderId, order) entries /\ oi_tokenId order = tokenId /\
        attemptFill cfg order book trade w1 = (Some f, w2) /\
        w_random w1 = w_random w /\
        (w_random_i w <= w_random_i w1)%nat /\
        (w_random_i w2 <= w_random_i w')%nat.
Proof.
  induction entries as [|[orderId order] rest IH]; intros w rest' newFills rm w' H.
  - cbn in H. unfold ret in H. inversion H; subst.
    split; [reflexivity|]. split; [lia|]. intros f [].
  - rewrite processOrders_cons in H.
    destruct (negb (String.eqb (oi_tokenId order) tokenId)) eqn:Etok.
    + destruct (processOrders cfg tokenId book trade rest w) as [[[r1 nf1] rm1] w1] eqn:E.
      inversion H; subst. destruct (IH _ _ _ _ _ E) as (Hr & Hi & Hf).
      split; [exact Hr|]. split; [exact Hi|].
      intros f Hin. destruct (Hf f Hin) as (k & o & wa & wb & Hk & Ht & Ha & Hra & Hia & Hib).
      exists k, o, wa, wb. repeat split; try assumption. right. exact Hk.
    + apply negb_false_iff in Etok. apply String.eqb_eq in Etok.
      destruct (attemptFill cfg order book trade w) as [fill w1] eqn:Ea.
      destruct (attemptFill_world _ _ _ _ _ _ _ Ea) as [Hr1 Hi1].
      destruct (processOrders cfg tokenId book trade rest w1) as [[[r1 nf1] rm1] w2] eqn:E.
      destruct (IH _ _ _ _ _ E) as (Hr & Hi & Hf).
      assert (Hrest : forall f, In f nf1 ->
                exists orderId0 order0 wa wb,
                  In (orderId0, order0) ((orderId, order) :: rest) /\
                  oi_tokenId order0 = tokenId /\
                  attemptFill cfg order0 book trade wa = (Some f, wb) /\
                  w_random wa = w_random w /\
                  (w_random_i w <= w_random_i wa)%nat /\
                  (w_random_i wb <= w_random_i w2)%nat).
      { intros f Hin. destruct (Hf f Hin) as (k & o & wa & wb & Hk & Ht & Ha & Hra & Hia & Hib).
        exists k, o, wa, wb. repeat split; try assumption.
        - right. exact Hk.
        - congruence.
        - lia. }
      destruct fill as [f0|].
      * assert (Hhead : exists orderId0 order0 wa wb,
                  In (orderId0, order0) ((orderId, order) :: rest) /\
                  oi_tokenId order0 = tokenId /\
                  attemptFill cfg order0 book trade wa = (Some f0, wb) /\
                  w_random wa = w_random w /\
                  (w_random_i w <= w_random_i wa)%nat /\
                  (w_random_i wb <= w_random_i w2)%nat).
        { exists orderId, order, w, w1. repeat split; try assumption; try lia.
          left. reflexivity. }
        destruct (Qle_bool (oi_size order - f_size f0) 0); inversion H; subst;
          (split; [congruence|]; split; [lia|]);
          intros f [<-|Hin]; [exact Hhead | apply Hrest; exact Hin
                             | exact Hhead | apply Hrest; exact Hin].
      * inversion H; subst. split; [congruence|]. split; [lia|]. exact Hrest.
Qed.

Lemma processOrders_attempts cfg tokenId book trade entries :
  forall w rest' newFills ordersToRemove w',
    processOrders cfg tokenId book trade entries w
    = (rest', newFills, ordersToRemove, w') ->
    forall orderId order,
      In (orderId, order) entries -> oi_tokenId order = tokenId ->
      exists w1, forall f w2,
          attemptFill cfg order book trade w1 = (Some f, w2) -> In f newFills.
Proof.
  induction entries as [|[k o] rest IH]; intros w rest' newFills rm w' H orderId order Hin Htok.
  - destruct Hin.
  - rewrite processOrders_cons in H.
    destruct (negb (String.eqb (oi_tokenId o) tokenId)) eqn:Etok.
    + destruct (processOrders cfg tokenId book trade rest w) as [[[r1 nf1] rm1] w1] eqn:E.
      inversion H; subst. destruct Hin as [Heq|Hin].
      * inversion Heq; subst. rewrite String.eqb_refl in Etok. discriminate.
      * eapply IH; eauto.
    + destruct (attemptFill cfg o book trade w) as [fill w1] eqn:Ea.
      destruct (processOrders cfg tokenId book trade rest w1) as [[[r1 nf1] rm1] w2] eqn:E.
      destruct Hin as [Heq|Hin].
      * inversion Heq; subst. exists w. intros f wb Hf.
        rewrite Hf in Ea. inversion Ea; subst.
        destruct (Qle_bool _ _); inversion H; subst; left; reflexivity.
      * destruct (IH _ _ _ _ _ E _ _ Hin Htok) as [wa Hwa].
        exists wa. intros f wb Hf. specialize (Hwa f wb Hf).
        destruct fill as [f0|]; [destruct (Qle_bool _ _)|]; inversion H; subst;
          try (right; exact Hwa); exact Hwa.
Qed.

Lemma processMarketUpdate_fills tokenId book trade self w :
  fst (fst (processMarketUpdate tokenId book trade self w)) =
  snd (fst (fst (processOrders (config self) tokenId book trade
                               (openOrders self) w))).
Proof.
  unfold processMarketUpdate, bind, ret.
  destruct (processOrders _ _ _ _ _ _) as [[[? ?] ?] ?]. reflexivity.
Qed.

Lemma processMarketUpdate_world tokenId book trade self w :
  snd (processMarketUpdate tokenId book trade self w) =
  snd (processOrders (config self) tokenId book trade (openOrders self) w).
Proof.
  unfold processMarketUpdate, bind, ret.
  destruct (processOrders _ _ _ _ _ _) as [[[? ?] ?] ?]. reflexivity.
Qed.

Lemma attempted_order_fills tokenId book trade self w orderId order
    (P : Fill -> Prop) :
  In (orderId, order) (openOrders self) -> oi_tokenId order = tokenId ->
  (forall w1, exists f w2,
      attemptFill (config self) order book trade w1 = (Some f, w2) /\ P f) ->
  exists f,
    In f (fst (fst (processMarketUpdate tokenId book trade self w))) /\ P f.
Proof.
  intros Hin Htok Hfill. rewrite processMarketUpdate_fills.
  destruct (processOrders (config self) tokenId book trade (openOrders self) w)
    as [[[rest' newFills] rm] w'] eqn:E.
  destruct (processOrders_attempts _ _ _ _ _ _ _ _ _ _ E _ _ Hin Htok) as [w1 Hw1].
  destruct (Hfill w1) as (f & w2 & Ha & HP).
  exists f. split; [eapply Hw1; exact Ha | exact HP].
Qed.

(** C5, as stated, fails: a buy limit at 0.52 crosses the best ask 0.51,
    the ask side is non-empty, and no fill is produced, because the bid
    side is empty and [fillLimitOrder] returns before it looks at the
    asks. *)
Lemma crossing_limit_one_sided_counterexample :
  let order := order1 buy (52 # 100) 50 limit in
  In ("order-1"%string, order) (openOrders (sim_with order)) /\
  oi_tokenId order = "token-1"%string /\
  oi_type order = limit /\
  ob_asks asks_only_book <> [] /\
  crossesSpread order asks_only_book /\
  fst (fst (processMarketUpdate "token-1" asks_only_book None
                                (sim_with order) world0)) = [].
Proof.
  cbv zeta. split; [left; reflexivity|]. split; [reflexivity|].
  split; [reflexivity|]. split; [discriminate|].
  split; [vm_compute; discriminate | reflexivity].
Qed.

(** C5 (amended): an open limit order that crosses the spread of a book
    with both sides non-empty is filled by [processMarketUpdate] on its
    token, at the best opposing price, not at its limit price, for
    min(remaining order size, size of the best opposing level). *)
Theorem crossing_limit_fills_at_best
    (tokenId : string) (book : OrderBook) (trade : option TradeRecord)
    (self : PaperExecutionSim) (w : World)
    (orderId : string) (order : OrderIntent) :
  In (orderId, order) (openOrders self) ->
  oi_tokenId order = tokenId ->
  oi_type order = limit ->
  ob_bids book <> [] -> ob_asks book <> [] ->
  crossesSpread order book ->
  exists f,
    In f (fst (fst (processMarketUpdate tokenId book trade self w))) /\
    exists best,
      bestOpposing order book = Some best /\
      f_orderId f = oi_id order /\
      f_price f = lvl_price best /\
      f_size f = Qmin (oi_size order) (lvl_size best).
Proof.
  intros Hin Htok Htype Hbids Hasks Hcross.
  apply attempted_order_fills with (orderId := orderId) (order := order);
    [exact Hin | exact Htok |].
  intros w1. unfold attemptFill. rewrite Htype.
  unfold crossesSpread, bestOpposing in *. unfold fillLimitOrder, calculateMidPrice.
  destruct (ob_bids book) as [|bestBid bids]; [congruence|].
  destruct (ob_asks book) as [|bestAsk asks]; [congruence|].
  destruct (oi_side order).
  - apply Qle_bool_iff in Hcross. rewrite Hcross.
    unfold createFill, bind, randomUUID, Date_now, ret. cbn.
    eexists. eexists. split; [reflexivity|].
    exists bestAsk. cbn. repeat split.
  - apply Qle_bool_iff in Hcross. rewrite Hcross.
    unfold createFill, bind, randomUUID, Date_now, ret. cbn.
    eexists. eexists. split; [reflexivity|].
    exists bestBid. cbn. repeat split.
Qed.

Lemma crossing_limit_fills_at_best_witness :
  exists f,
    In f (fst (fst (processMarketUpdate "token-1" test_book None
                      (sim_with (order1 buy (52 # 100) 50 limit)) world0))) /\
    exists best,
      bestOpposing (order1 buy (52 # 100) 50 limit) test_book = Some best /\
      f_orderId f = "order-1"%string /\
      f_price f = lvl_price best /\
      f_size f = Qmin 50 (lvl_size best).
Proof.
  apply (crossing_limit_fills_at_best "token-1" test_book None
           (sim_with (order1 buy (52 # 100) 50 limit)) world0
           "order-1" (order1 buy (52 # 100) 50 limit)).
  - left. reflexivity.
  - reflexivity.
  - reflexivity.
  - discriminate.
  - discriminate.
  - vm_compute. discriminate.
Defined.

(** The example of C5: the buy limit at 0.52 fills at the best ask 0.51. *)
Example crossing_limit_example :
  List.map (fun f => (f_price f, f_size f))
    (fst (fst (processMarketUpdate "token-1" test_book None
                 (sim_with (order1 buy (52 # 100) 50 limit)) world0)))
  = [(51 # 100, 50)].
Proof. reflexivity. Qed.

(** C10: a market order fills when the book has no mid price.  A market
    buy against a non-empty ask side with the bid side empty (a market
    sell against a non-empty bid side with the ask side empty) is filled
    at the best opposing price for min(remaining, best size), and its
    fill reports slippage 0 and spreadPaid 0. *)
Theorem market_order_fills_without_mid
    (tokenId : string) (book : OrderBook) (trade : option TradeRecord)
    (self : PaperExecutionSim) (w : World)
    (orderId : string) (order : OrderIntent) (best : PriceLevel)
    (rest : list PriceLevel) :
  In (orderId, order) (openOrders self) ->
  oi_tokenId order = tokenId ->
  oi_type order = market ->
  (oi_side order = buy /\ ob_asks book = best :: rest /\ ob_bids book = []) \/
  (oi_side order = sell /\ ob_bids book = best :: rest /\ ob_asks book = []) ->
  calculateMidPrice book = None /\
  exists f,
    In f (fst (fst (processMarketUpdate tokenId book trade self w))) /\
    (f_orderId f = oi_id order /\
     f_price f = lvl_price best /\
     f_size f = Qmin (oi_size order) (lvl_size best) /\
     f_slippage f = 0 /\ f_spreadPaid f = 0).
Proof.
  intros Hin Htok Htype Hside.
  assert (Hmid : calculateMidPrice book = None).
  { unfold calculateMidPrice.
    destruct Hside as [(_ & _ & ->)|(_ & -> & ->)]; reflexivity. }
  split; [exact Hmid|].
  apply attempted_order_fills with (orderId := orderId) (order := order);
    [exact Hin | exact Htok |].
  intros w1. unfold attemptFill. rewrite Htype. unfold fillMarketOrder.
  rewrite Hmid.
  destruct Hside as [(-> & -> & _)|(-> & -> & _)];
    unfold createFill, bind, randomUUID, Date_now, ret; cbn;
    eexists; eexists; (split; [reflexivity|]); cbn; repeat split.
Qed.

Lemma market_order_fills_without_mid_witness :
  calculateMidPrice asks_only_book = None /\
  exists f,
    In f (fst (fst (processMarketUpdate "token-1" asks_only_book None
                      (sim_with (order1 buy (1 # 2) 50 market)) world0))) /\
    (f_orderId f = "order-1"%string /\
     f_price f = 51 # 100 /\
     f_size f = Qmin 50 150 /\
     f_slippage f = 0 /\ f_spreadPaid f = 0).
Proof.
  apply (market_order_fills_without_mid "token-1" asks_only_book None
           (sim_with (order1 buy (1 # 2) 50 market)) world0
           "order-1" (order1 buy (1 # 2) 50 market)
           (lvl (51 # 100) 150) [lvl (52 # 100) 250]).
  - left. reflexivity.
  - reflexivity.
  - reflexivity.
  - left. repeat split.
Defined.

Lemma passiveFill_spec cfg order midPrice trade w f w' :
  passiveFill cfg order midPrice trade w = (Some f, w') ->
  exists t,
    trade = Some t /\ tradeThrough t order /\
    w_random w (w_random_i w) < fillProbability cfg /\
    w_random_i w' = S (w_random_i w) /\
    f_price f = oi_price order /\ f_size f = oi_size order /\
    f_spreadPaid f == 0 /\
    f_slippage f == Qabs (oi_price order - midPrice).
Proof.
  unfold passiveFill. destruct trade as [t|]; [|unfold ret; intros H; inversion H].
  destruct (match oi_side order with buy => _ | sell => _ end) eqn:Ethrough;
    [|unfold ret; intros H; inversion H].
  unfold bind, Math_random.
  destruct (Qlt_bool _ _) eqn:Edraw; [|unfold ret; intros H; inversion H].
  unfold createFill, bind, randomUUID, Date_now, ret. intros H.
  inversion H; subst; clear H.
  cbn [f_price f_size f_slippage f_spreadPaid w_random_i w_random].
  exists t. split; [reflexivity|]. split.
  { unfold tradeThrough. destruct (oi_side order); apply Qle_bool_iff; exact Ethrough. }
  split.
  { unfold Qlt_bool in Edraw. apply negb_true_iff in Edraw.
    destruct (Qlt_le_dec (w_random w (w_random_i w)) (fillProbability cfg)) as [Hlt|Hle];
      [exact Hlt|].
    apply Qle_bool_iff in Hle. congruence. }
  split; [reflexivity|]. split; [reflexivity|]. split; [reflexivity|].
  split; [reflexivity|].
  destruct (oi_side order); [reflexivity|].
  rewrite Qabs_Qminus. reflexivity.
Qed.

(** C6: every fill [processMarketUpdate] returns stems from the attempt on
    one open order of the token; when that order is a limit order that
    does not cross the spread, a trade was supplied whose price crossed
    through the limit, one draw of [Math.random()] made during the call
    fell below [fillProbability], and the fill is the whole remaining
    size at the limit price, with spreadPaid zero and slippage
    |limit - mid|.  Hence with no trade, or a trade that does not cross
    the limit, a passive order is not filled, whatever the draw. *)
Theorem passive_limit_fill
    (tokenId : string) (book : OrderBook) (trade : option TradeRecord)
    (self self' : PaperExecutionSim) (w w' : World)
    (newFills : list Fill) (f : Fill) :
  processMarketUpdate tokenId book trade self w = (newFills, self', w') ->
  In f newFills ->
  exists orderId order w1 w2,
    In (orderId, order) (openOrders self) /\
    oi_tokenId order = tokenId /\
    attemptFill (config self) order book trade w1 = (Some f, w2) /\
    f_orderId f = oi_id order /\
    (oi_type order = limit -> ~ crossesSpread order book ->
     exists t midPrice n,
       trade = Some t /\ tradeThrough t order /\
       calculateMidPrice book = Some midPrice /\
       (w_random_i w <= n < w_random_i w')%nat /\
       w_random w n < fillProbability (config self) /\
       f_price f = oi_price order /\
       f_size f = oi_size order /\
       f_spreadPaid f == 0 /\
       f_slippage f == Qabs (oi_price order - midPrice)).
Proof.
  intros Hrun Hin.
  pose proof (processMarketUpdate_fills tokenId book trade self w) as Hf.
  pose proof (processMarketUpdate_world tokenId book trade self w) as Hw.
  rewrite Hrun in Hf, Hw. cbn [fst snd] in Hf, Hw.
  destruct (processOrders (config self) tokenId book trade (openOrders self) w)
    as [[[rest' nf] rm] wf] eqn:E.
  cbn [fst snd] in Hf, Hw. subst nf wf.
  destruct (processOrders_fill_origin _ _ _ _ _ _ _ _ _ _ E) as (_ & _ & Horigin).
  destruct (Horigin f Hin) as (orderId & order & w1 & w2 & Ho & Htok & Ha & Hr & Hi1 & Hi2).
  exists orderId, order, w1, w2.
  split; [exact Ho|]. split; [exact Htok|]. split; [exact Ha|].
  assert (Hid : f_orderId f = oi_id order).
  { revert Ha. unfold attemptFill, fillLimitOrder, fillMarketOrder, passiveFill.
    destruct (oi_type order); destruct (calculateMidPrice book);
      destruct (oi_side order); destruct (ob_asks book); destruct (ob_bids book);
      destruct trade;
      unfold createFill, bind, Math_random, randomUUID, Date_now, ret;
      repeat match goal with
             | |- context [if ?b then _ else _] => destruct b
             end;
      intros H; inversion H; reflexivity. }
  split; [exact Hid|].
  intros Htype Hpassive.
  assert (Hp : exists midPrice,
             calculateMidPrice book = Some midPrice /\
             passiveFill (config self) order midPrice trade w1 = (Some f, w2)).
  { revert Ha. unfold attemptFill. rewrite Htype. unfold fillLimitOrder.
    destruct (calculateMidPrice book) as [m|]; [|unfold ret; intros H; inversion H].
    intros Ha. exists m. split; [reflexivity|]. revert Ha.
    unfold crossesSpread, bestOpposing in Hpassive.
    destruct (oi_side order); destruct (ob_asks book) as [|bestAsk ?];
      destruct (ob_bids book) as [|bestBid ?]; try (intros Ha; exact Ha).
    all: destruct (Qle_bool _ _) eqn:Ecross; try (intros Ha; exact Ha).
    all: exfalso; apply Hpassive; apply Qle_bool_iff; exact Ecross. }
  destruct Hp as (midPrice & Hmid & Hp).
  destruct (passiveFill_spec _ _ _ _ _ _ _ Hp)
    as (t & Ht & Hthrough & Hdraw & Hidx & Hprice & Hsize & Hspread & Hslip).
  exists t, midPrice, (w_random_i w1).
  split; [exact Ht|]. split; [exact Hthrough|]. split; [exact Hmid|].
  split; [lia|]. split; [rewrite <- Hr; exact Hdraw|].
  repeat split; assumption.
Qed.

Lemma passive_limit_fill_witness :
  exists orderId order w1 w2,
    In (orderId, order) (openOrders (sim_with passive_order)) /\
    oi_tokenId order = "token-1"%string /\
    attemptFill (config (sim_with passive_order)) order test_book
                (Some (trade_at (1 # 2))) w1 = (Some passive_fill, w2) /\
    f_orderId passive_fill = oi_id order /\
    (oi_type order = limit -> ~ crossesSpread order test_book ->
     exists t midPrice n,
       Some (trade_at (1 # 2)) = Some t /\ tradeThrough t order /\
       calculateMidPrice test_book = Some midPrice /\
       (w_random_i world0 <= n < w_random_i (snd passive_run))%nat /\
       w_random world0 n < fillProbability (config (sim_with passive_order)) /\
       f_price passive_fill = oi_price order /\
       f_size passive_fill = oi_size order /\
       f_spreadPaid passive_fill == 0 /\
       f_slippage passive_fill == Qabs (oi_price order - midPrice)).
Proof.
  apply (passive_limit_fill "token-1" test_book (Some (trade_at (1 # 2)))
           (sim_with passive_order) (snd (fst passive_run)) world0
           (snd passive_run) (fst (fst passive_run)) passive_fill).
  - reflexivity.
  - left. reflexivity.
Defined.

(** *** Determinism *)

Lemma createFill_same cfg order price size slippage spreadPaid w1 w2 :
  same_draws w1 w2 ->
  fill_content (fst (createFill cfg order price size slippage spreadPaid w1)) =
  fill_content (fst (createFill cfg order price size slippage spreadPaid w2)) /\
  same_draws (snd (createFill cfg order price size slippage spreadPaid w1))
             (snd (createFill cfg order price size slippage spreadPaid w2)).
Proof.
  intros [Hf Hi]. unfold createFill, bind, randomUUID, Date_now, ret, same_draws.
  cbn. repeat split; assumption.
Qed.

Lemma none_same w1 w2 :
  same_draws w1 w2 ->
  option_map fill_content (fst (ret (@None Fill) w1)) =
  option_map fill_content (fst (ret (@None Fill) w2)) /\
  same_draws (snd (ret (@None Fill) w1)) (snd (ret (@None Fill) w2)).
Proof. intros H. split; [reflexivity | exact H]. Qed.

Lemma filled_same cfg order price size slippage spreadPaid w1 w2 :
  same_draws w1 w2 ->
  let c := (let! f := createFill cfg order price size slippage spreadPaid in
            ret (Some f)) in
  option_map fill_content (fst (c w1)) = option_map fill_content (fst (c w2)) /\
  same_draws (snd (c w1)) (snd (c w2)).
Proof.
  intros H. cbv zeta. unfold bind.
  pose proof (createFill_same cfg order price size slippage spreadPaid w1 w2 H) as [Hc Hw].
  destruct (createFill cfg order price size slippage spreadPaid w1) as [f1 w1'].
  destruct (createFill cfg order price size slippage spreadPaid w2) as [f2 w2'].
  unfold ret. cbn in *. split; [f_equal; exact Hc | exact Hw].
Qed.

Lemma passiveFill_same cfg order midPrice trade w1 w2 :
  same_draws w1 w2 ->
  option_map fill_content (fst (passiveFill cfg order midPrice trade w1)) =
  option_map fill_content (fst (passiveFill cfg order midPrice trade w2)) /\
  same_draws (snd (passiveFill cfg order midPrice trade w1))
             (snd (passiveFill cfg order midPrice trade w2)).
Proof.
  intros H. unfold passiveFill.
  destruct trade as [t|]; [|apply none_same; exact H].
  destruct (match oi_side order with buy => _ | sell => _ end);
    [|apply none_same; exact H].
  unfold bind at 1 3 5 7. unfold Math_random.
  destruct H as [Hf Hi]. rewrite Hi, Hf.
  destruct (Qlt_bool _ _).
  - apply filled_same. split; [exact Hf | cbn; congruence].
  - apply none_same. split; [exact Hf | cbn; congruence].
Qed.

Lemma attemptFill_same cfg order book trade w1 w2 :
  same_draws w1 w2 ->
  option_map fill_content (fst (attemptFill cfg order book trade w1)) =
  option_map fill_content (fst (attemptFill cfg order book trade w2)) /\
  same_draws (snd (attemptFill cfg order book trade w1))
             (snd (attemptFill cfg order book trade w2)).
Proof.
  intros H. unfold attemptFill. destruct (oi_type order).
  - unfold fillLimitOrder.
    destruct (calculateMidPrice book) as [m|]; [|apply none_same; exact H].
    destruct (oi_side order); destruct (ob_asks book); destruct (ob_bids book);
      try (apply passiveFill_same; exact H);
      (destruct (Qle_bool _ _); [apply filled_same | apply passiveFill_same]);
      exact H.
  - unfold fillMarketOrder.
    destruct (oi_side order); [destruct (ob_asks book)|destruct (ob_bids book)];
      try (apply none_same; exact H); apply filled_same; exact H.
Qed.

Lemma fill_content_size f1 f2 :
  fill_content f1 = fill_content f2 -> f_size f1 = f_size f2.
Proof. unfold fill_content. intros H. inversion H. reflexivity. Qed.

Lemma processOrders_same cfg tokenId book trade entries :
  forall w1 w2, same_draws w1 w2 ->
  forall e1 nf1 rm1 w1' e2 nf2 rm2 w2',
    processOrders cfg tokenId book trade entries w1 = (e1, nf1, rm1, w1') ->
    processOrders cfg tokenId book trade entries w2 = (e2, nf2, rm2, w2') ->
    e1 = e2 /\ List.map fill_content nf1 = List.map fill_content nf2 /\
    rm1 = rm2 /\ same_draws w1' w2'.
Proof.
  induction entries as [|[orderId order] rest IH];
    intros w1 w2 H e1 nf1 rm1 w1' e2 nf2 rm2 w2' H1 H2.
  - cbn in H1, H2. unfold ret in *. inversion H1; inversion H2; subst.
    repeat split; try reflexivity; apply H.
  - rewrite processOrders_cons in H1, H2.
    destruct (negb (String.eqb (oi_tokenId order) tokenId)).
    + destruct (processOrders cfg tokenId book trade rest w1) as [[[? ?] ?] ?] eqn:E1.
      destruct (processOrders cfg tokenId book trade rest w2) as [[[? ?] ?] ?] eqn:E2.
      destruct (IH _ _ H _ _ _ _ _ _ _ _ E1 E2) as (-> & Hnf & -> & Hw).
      inversion H1; inversion H2; subst. repeat split; try assumption; apply Hw.
    + pose proof (attemptFill_same cfg order book trade w1 w2 H) as [Hfill Hw].
      destruct (attemptFill cfg order book trade w1) as [fill1 wa].
      destruct (attemptFill cfg order book trade w2) as [fill2 wb].
      cbn [fst snd] in Hfill, Hw.
      destruct (processOrders cfg tokenId book trade rest wa) as [[[? ?] ?] ?] eqn:E1.
      destruct (processOrders cfg tokenId book trade rest wb) as [[[? ?] ?] ?] eqn:E2.
      destruct (IH _ _ Hw _ _ _ _ _ _ _ _ E1 E2) as (-> & Hnf & -> & Hw').
      destruct fill1 as [f1|]; destruct fill2 as [f2|];
        cbn [option_map] in Hfill; try discriminate.
      * assert (Hc : fill_content f1 = fill_content f2) by congruence.
        rewrite (fill_content_size _ _ Hc) in H1.
        destruct (Qle_bool _ _); inversion H1; inversion H2; subst; cbn;
          rewrite Hc, Hnf; repeat split; apply Hw'.
      * inversion H1; inversion H2; subst. repeat split; try assumption; apply Hw'.
Qed.

Lemma processMarketUpdate_same tokenId book trade s1 s2 w1 w2 :
  same_sim s1 s2 -> same_draws w1 w2 ->
  forall nf1 s1' w1' nf2 s2' w2',
    processMarketUpdate tokenId book trade s1 w1 = (nf1, s1', w1') ->
    processMarketUpdate tokenId book trade s2 w2 = (nf2, s2', w2') ->
    List.map fill_content nf1 = List.map fill_content nf2 /\
    same_sim s1' s2' /\ same_draws w1' w2'.
Proof.
  intros (Ho & Hc & Hf) Hw nf1 s1' w1' nf2 s2' w2'.
  unfold processMarketUpdate, bind, ret. rewrite Ho, Hc.
  destruct (processOrders (config s2) tokenId book trade (openOrders s2) w1)
    as [[[e1 n1] r1] wa] eqn:E1.
  destruct (processOrders (config s2) tokenId book trade (openOrders s2) w2)
    as [[[e2 n2] r2] wb] eqn:E2.
  destruct (processOrders_same _ _ _ _ _ _ _ Hw _ _ _ _ _ _ _ _ E1 E2)
    as (-> & Hnf & -> & Hw').
  intros H1 H2. inversion H1; inversion H2; subst.
  split; [exact Hnf|]. split; [|exact Hw'].
  unfold same_sim. cbn. split; [reflexivity|]. split; [reflexivity|].
  rewrite !List.map_app. rewrite Hf, Hnf. reflexivity.
Qed.

Lemma runCalls_same calls :
  forall s1 s2 w1 w2, same_sim s1 s2 -> same_draws w1 w2 ->
  forall outs1 s1' w1' outs2 s2' w2',
    runCalls calls s1 w1 = (outs1, s1', w1') ->
    runCalls calls s2 w2 = (outs2, s2', w2') ->
    List.map (List.map fill_content) outs1 = List.map (List.map fill_content) outs2 /\
    same_sim s1' s2' /\ same_draws w1' w2'.
Proof.
  induction calls as [|call calls IH];
    intros s1 s2 w1 w2 Hs Hw outs1 s1' w1' outs2 s2' w2' H1 H2.
  - cbn in H1, H2. unfold ret in *. inversion H1; inversion H2; subst.
    split; [reflexivity|]. split; assumption.
  - destruct call as [intent|tokenId book trade]; cbn [runCalls] in H1, H2;
      unfold bind, ret in H1, H2.
    + destruct (runCalls calls (placeOrder intent s1) w1) as [[o1 t1] wa] eqn:E1.
      destruct (runCalls calls (placeOrder intent s2) w2) as [[o2 t2] wb] eqn:E2.
      assert (Hs' : same_sim (placeOrder intent s1) (placeOrder intent s2)).
      { destruct Hs as (Ho & Hc & Hf). unfold same_sim, placeOrder. cbn.
        rewrite Ho. repeat split; assumption. }
      destruct (IH _ _ _ _ Hs' Hw _ _ _ _ _ _ E1 E2) as (Houts & Hsim & Hw').
      inversion H1; inversion H2; subst. cbn. rewrite Houts.
      split; [reflexivity|]. split; assumption.
    + destruct (processMarketUpdate tokenId book trade s1 w1) as [[n1 t1] wa] eqn:E1.
      destruct (processMarketUpdate tokenId book trade s2 w2) as [[n2 t2] wb] eqn:E2.
      destruct (processMarketUpdate_same _ _ _ _ _ _ _ Hs Hw _ _ _ _ _ _ E1 E2)
        as (Hn & Hs' & Hw').
      destruct (runCalls calls t1 wa) as [[o1 u1] wc] eqn:F1.
      destruct (runCalls calls t2 wb) as [[o2 u2] wd] eqn:F2.
      destruct (IH _ _ _ _ Hs' Hw' _ _ _ _ _ _ F1 F2) as (Houts & Hsim & Hw'').
      inversion H1; inversion H2; subst. cbn. rewrite Hn, Houts.
      split; [reflexivity|]. split; assumption.
Qed.

(** The draws are the only ambient input of the fills: two instances
    built with the same configuration and fed the same calls of
    [placeOrder] and [processMarketUpdate], each with its own copies of
    the intents, in two runs in which [Math.random()] happens to return
    the same draws, return the same fills call by call, whatever the
    clocks and UUIDs of the two runs.  Nothing in the source makes the
    draws of two runs the same. *)
Theorem runs_with_same_draws_fill_alike
    (cfg : PaperExecutionSimConfig) (calls : list SimCall) (w1 w2 : World) :
  same_draws w1 w2 ->
  let run1 := runCalls calls (newPaperExecutionSim cfg) w1 in
  let run2 := runCalls calls (newPaperExecutionSim cfg) w2 in
  List.map (List.map fill_content) (fst (fst run1)) =
  List.map (List.map fill_content) (fst (fst run2)) /\
  List.map fill_content (fills (snd (fst run1))) =
  List.map fill_content (fills (snd (fst run2))) /\
  openOrders (snd (fst run1)) = openOrders (snd (fst run2)).
Proof.
  intros Hw run1 run2.
  destruct run1 as [[outs1 s1] w1'] eqn:E1. destruct run2 as [[outs2 s2] w2'] eqn:E2.
  assert (Hs : same_sim (newPaperExecutionSim cfg) (newPaperExecutionSim cfg)).
  { repeat split. }
  destruct (runCalls_same calls _ _ _ _ Hs Hw _ _ _ _ _ _ E1 E2)
    as (Houts & (Ho & _ & Hf) & _).
  cbn. split; [exact Houts|]. split; [exact Hf | exact Ho].
Qed.

Lemma runs_with_same_draws_witness :
  List.map (List.map fill_content)
    (fst (fst (runCalls sample_calls (newPaperExecutionSim sample_config) world0))) =
  List.map (List.map fill_content)
    (fst (fst (runCalls sample_calls (newPaperExecutionSim sample_config) world1))) /\
  List.map fill_content
    (fills (snd (fst (runCalls sample_calls (newPaperExecutionSim sample_config) world0)))) =
  List.map fill_content
    (fills (snd (fst (runCalls sample_calls (newPaperExecutionSim sample_config) world1)))) /\
  openOrders (snd (fst (runCalls sample_calls (newPaperExecutionSim sample_config) world0))) =
  openOrders (snd (fst (runCalls sample_calls (newPaperExecutionSim sample_config) world1))).
Proof.
  apply (runs_with_same_draws_fill_alike sample_config sample_calls world0 world1).
  split; [intros n; reflexivity | reflexivity].
Defined.

(** The fills of the sample run: the market sell takes 100 at the best
    bid and then its last 20, the resting buy fills on the trade print. *)
Example sample_run_fills :
  List.map (List.map (fun f => (f_orderId f, f_price f, f_size f)))
    (fst (fst (runCalls sample_calls (newPaperExecutionSim sample_config) world0)))
  = [ []; [];
      [("order-2"%string, 49 # 100, 100)];
      [("order-1"%string, 1 # 2, 50); ("order-2"%string, 49 # 100, 20)] ].
Proof. vm_compute. reflexivity. Qed.

(** The draw is an input of the run: with other draws the same calls give
    other fills.  The source takes the draw from [Math.random()]; neither
    the configuration nor any call carries a seed. *)
Example fills_depend_on_the_draws :
  List.map (List.map fill_content)
    (fst (fst (runCalls sample_calls (newPaperExecutionSim sample_config) world0))) <>
  List.map (List.map fill_content)
    (fst (fst (runCalls sample_calls (newPaperExecutionSim sample_config)
                        world_unlucky))).
Proof. vm_compute. discriminate. Qed.

(** C2: the fills are not reproducible.  The draw of a passive fill is
    taken from [Math.random()]; neither the configuration nor any call
    carries a seed, so two instances built with the same configuration
    and fed the same calls fill differently as soon as their draws
    differ: with draws of 1/4 the resting buy of the sample run fills on
    the trade print, with draws of 3/4 it does not.  And with no draw at
    all: an instance writes the remaining size into the caller's intent
    object, so a second instance fed the same calls with the same
    object fills 50 where the first filled 150. *)
Theorem same_calls_different_fills :
  (let run w := runCalls sample_calls (newPaperExecutionSim sample_config) w in
   List.map (List.map (fun f => (f_orderId f, f_price f, f_size f)))
            (fst (fst (run world0)))
   = [ []; []; [("order-2"%string, 49 # 100, 100)];
       [("order-1"%string, 1 # 2, 50); ("order-2"%string, 49 # 100, 20)] ] /\
   List.map (List.map (fun f => (f_orderId f, f_price f, f_size f)))
            (fst (fst (run world_unlucky)))
   = [ []; []; [("order-2"%string, 49 # 100, 100)];
       [("order-2"%string, 49 # 100, 20)] ]) /\
  (let '(outs1, _, h1, w1) :=
     ByRef.runCalls shared_calls (ByRef.newPaperExecutionSim sample_config)
                    shared_heap world0 in
   let '(outs2, _, _, w2) :=
     ByRef.runCalls shared_calls (ByRef.newPaperExecutionSim sample_config)
                    h1 world0 in
   List.map (List.map (fun f => (f_orderId f, f_price f, f_size f))) outs1
   = [ []; [("order-1"%string, 51 # 100, 150)] ] /\
   List.map (List.map (fun f => (f_orderId f, f_price f, f_size f))) outs2
   = [ []; [("order-1"%string, 51 # 100, 50)] ] /\
   oi_size (shared_heap 0%nat) = 200 /\
   oi_size (h1 0%nat) = 50 /\
   w_random_i w1 = w_random_i world0 /\ w_random_i w2 = w_random_i world0).
Proof.
  split.
  - split; vm_compute; reflexivity.
  - vm_compute. repeat split.
Qed.

(** ** One instance and its own orders

    As long as no object is stored under two ids, an instance that keeps
    references behaves, call by call, as the instance that keeps copies:
    the copy it would hold of each order is the object as it is now. *)

Lemma view_heap_set h r o entries :
  ~ In r (List.map snd entries) ->
  view (heap_set h r o) entries = view h entries.
Proof.
  unfold view. induction entries as [|[k r'] rest IH]; intros Hnot; [reflexivity|].
  cbn [List.map fst snd] in *. unfold heap_set at 1.
  destruct (Nat.eqb r' r) eqn:E.
  - apply Nat.eqb_eq in E. exfalso. apply Hnot. left. exact E.
  - rewrite IH; [reflexivity|]. intros Hin. apply Hnot. right. exact Hin.
Qed.

Lemma view_frame h h' entries :
  (forall r, In r (List.map snd entries) -> h' r = h r) ->
  view h' entries = view h entries.
Proof.
  unfold view. induction entries as [|[k r] rest IH]; intros H; [reflexivity|].
  cbn [List.map fst snd] in *. rewrite (H r) by (left; reflexivity).
  rewrite IH; [reflexivity|]. intros r' Hin. apply H. right. exact Hin.
Qed.

Lemma view_js_set h k r entries :
  view h (js_set String.eqb k r entries) = js_set String.eqb k (h r) (view h entries).
Proof.
  unfold view. induction entries as [|[k' r'] rest IH]; [reflexivity|].
  cbn [js_set List.map fst snd]. destruct (String.eqb k' k); [reflexivity|].
  cbn [List.map fst snd]. rewrite IH. reflexivity.
Qed.

Lemma view_js_delete h k entries :
  view h (js_delete String.eqb k entries) = js_delete String.eqb k (view h entries).
Proof.
  unfold view. induction entries as [|[k' r'] rest IH]; [reflexivity|].
  cbn [js_delete List.map fst snd]. destruct (String.eqb k' k); [exact IH|].
  cbn [List.map fst snd]. rewrite IH. reflexivity.
Qed.

Lemma view_js_deletes h ks entries :
  view h (fold_left (fun m k => js_delete String.eqb k m) ks entries)
  = fold_left (fun m k => js_delete String.eqb k m) ks (view h entries).
Proof.
  revert entries. induction ks as [|k ks IH]; intros entries; [reflexivity|].
  cbn [fold_left]. rewrite IH, view_js_delete. reflexivity.
Qed.

Lemma ByRef_placeOrder_view intent self h :
  sim_view h (ByRef.placeOrder intent self h) = placeOrder (h intent) (sim_view h self).
Proof.
  unfold sim_view, ByRef.placeOrder, placeOrder.
  cbn [ByRef.openOrders ByRef.config ByRef.fills openOrders config fills].
  rewrite view_js_set. reflexivity.
Qed.

Lemma ByRef_processOrders_view cfg tokenId book trade entries :
  List.NoDup (List.map snd entries) ->
  forall h w newFills ordersToRemove h' w',
    ByRef.processOrders cfg tokenId book trade entries h w
    = (newFills, ordersToRemove, h', w') ->
    processOrders cfg tokenId book trade (view h entries) w
    = (view h' entries, newFills, ordersToRemove, w') /\
    (forall r, ~ In r (List.map snd entries) -> h' r = h r).
Proof.
  induction entries as [|[k r] rest IH]; intros Hnd h w nf rm h' w' H.
  - cbn in H. unfold ret in H. injection H as <- <- <- <-.
    split; [reflexivity | intros; reflexivity].
  - cbn [List.map snd] in Hnd.
    apply List.NoDup_cons_iff in Hnd. destruct Hnd as [Hnot Hnd].
    cbn [ByRef.processOrders] in H.
    change (view h ((k, r) :: rest)) with ((k, h r) :: view h rest).
    rewrite processOrders_cons.
    destruct (negb (String.eqb (oi_tokenId (h r)) tokenId)) eqn:Etok.
    + destruct (IH Hnd _ _ _ _ _ _ H) as [Hv Hf].
      rewrite Hv. split.
      * change (view h' ((k, r) :: rest)) with ((k, h' r) :: view h' rest).
        rewrite (Hf r Hnot). reflexivity.
      * intros r' Hr'. apply Hf. intros Hin. apply Hr'. right. exact Hin.
    + unfold bind in H.
      destruct (attemptFill cfg (h r) book trade w) as [[f|] w1].
      * destruct (Qle_bool (oi_size (h r) - f_size f) 0) eqn:Erem.
        -- destruct (ByRef.processOrders cfg tokenId book trade rest h w1)
             as [[[nf1 rm1] h1] w2] eqn:E.
           unfold ret in H. injection H as <- <- <- <-.
           destruct (IH Hnd _ _ _ _ _ _ E) as [Hv Hf].
           rewrite Hv. split.
           ++ change (view h1 ((k, r) :: rest)) with ((k, h1 r) :: view h1 rest).
              rewrite (Hf r Hnot). reflexivity.
           ++ intros r' Hr'. apply Hf. intros Hin. apply Hr'. right. exact Hin.
        -- destruct (ByRef.processOrders cfg tokenId book trade rest
                       (heap_set h r (set_size (h r) (oi_size (h r) - f_size f))) w1)
             as [[[nf1 rm1] h1] w2] eqn:E.
           unfold ret in H. injection H as <- <- <- <-.
           destruct (IH Hnd _ _ _ _ _ _ E) as [Hv Hf].
           rewrite (view_heap_set _ _ _ _ Hnot) in Hv.
           rewrite Hv. split.
           ++ change (view h1 ((k, r) :: rest)) with ((k, h1 r) :: view h1 rest).
              rewrite (Hf r Hnot). unfold heap_set. rewrite Nat.eqb_refl.
              reflexivity.
           ++ intros r' Hr'. rewrite Hf by (intros Hin; apply Hr'; right; exact Hin).
              unfold heap_set. destruct (Nat.eqb r' r) eqn:Er; [|reflexivity].
              apply Nat.eqb_eq in Er. exfalso. apply Hr'. left. symmetry. exact Er.
      * destruct (IH Hnd _ _ _ _ _ _ H) as [Hv Hf].
        rewrite Hv. split.
        -- change (view h' ((k, r) :: rest)) with ((k, h' r) :: view h' rest).
           rewrite (Hf r Hnot). reflexivity.
        -- intros r' Hr'. apply Hf. intros Hin. apply Hr'. right. exact Hin.
Qed.

(** One market update on an instance that shares no object between two
    ids returns the fills of the by-value instance, and leaves the
    by-value instance as seen on the heap after the update. *)
Lemma ByRef_processMarketUpdate_view tokenId book trade self h w :
  unshared self ->
  let '(newFills, self', h', w') :=
    ByRef.processMarketUpdate tokenId book trade self h w in
  processMarketUpdate tokenId book trade (sim_view h self) w
  = (newFills, sim_view h' self', w').
Proof.
  intros Hnd. unfold ByRef.processMarketUpdate, processMarketUpdate, bind, ret.
  cbn [sim_view openOrders config].
  destruct (ByRef.processOrders (ByRef.config self) tokenId book trade
              (ByRef.openOrders self) h w) as [[[nf rm] h'] w'] eqn:E.
  destruct (ByRef_processOrders_view _ _ _ _ _ Hnd _ _ _ _ _ _ E) as [Hv _].
  rewrite Hv. unfold sim_view.
  cbn [ByRef.openOrders ByRef.config ByRef.fills fills].
  rewrite view_js_deletes. reflexivity.
Qed.

(** ** Position sizing *)

(** C9, as stated, fails: with a negative win amount and a negative loss
    amount, b = 1 and the claimed value is min(100, 1000 x 0.6 x 0.25) =
    100, while [kellyFraction] returns 0 for a non-positive amount and the
    size is min(100, 0) = 0. *)
Lemma kelly_nonpositive_amounts_counterexample :
  calculatePositionSize 100 1000 None None (Some (4 # 5)) (Some (-1)) (Some (-1))
    == 0 /\
  kellySizeSpec 100 1000 (4 # 5) (-1) (-1) == 100 /\
  ~ calculatePositionSize 100 1000 None None (Some (4 # 5)) (Some (-1)) (Some (-1))
    == kellySizeSpec 100 1000 (4 # 5) (-1) (-1).
Proof.
  split; [reflexivity|]. split; [reflexivity|].
  intros H. vm_compute in H. discriminate.
Qed.

(** C9 (amended): with p, the win amount and the loss amount supplied and
    both amounts positive, [calculatePositionSize] returns
    min(signalSize, balance x clamp(p - (1-p)/b, 0, 1) x 0.25) with
    b = winAmount / lossAmount; with an amount that is not positive the
    Kelly fraction is 0 and it returns min(signalSize, 0); in both cases
    the result is at most the signal size; with neither the Kelly inputs
    nor a stop-loss supplied it returns min(signalSize, balance x 0.05). *)
Theorem calculatePositionSize_policies
    (signalSize balance p winAmount lossAmount : Decimal)
    (riskPerTrade stopLoss : option Decimal) :
  (0 < winAmount -> 0 < lossAmount ->
   calculatePositionSize signalSize balance riskPerTrade stopLoss
                         (Some p) (Some winAmount) (Some lossAmount)
   == kellySizeSpec signalSize balance p winAmount lossAmount) /\
  (winAmount <= 0 \/ lossAmount <= 0 ->
   calculatePositionSize signalSize balance riskPerTrade stopLoss
                         (Some p) (Some winAmount) (Some lossAmount)
   == Qmin signalSize 0) /\
  calculatePositionSize signalSize balance riskPerTrade stopLoss
                        (Some p) (Some winAmount) (Some lossAmount)
  <= signalSize /\
  calculatePositionSize signalSize balance riskPerTrade None None None None
  == Qmin signalSize (balance * (5 # 100)).
Proof.
  split; [|split; [|split]].
  - intros Hw Hl. unfold calculatePositionSize, kellySizeSpec, kellyFraction.
    destruct (Qle_bool lossAmount 0) eqn:El.
    { apply Qle_bool_iff in El. lra. }
    destruct (Qle_bool winAmount 0) eqn:Ew.
    { apply Qle_bool_iff in Ew. lra. }
    cbn [orb]. reflexivity.
  - intros Hnp. unfold calculatePositionSize, kellyFraction.
    assert (E : Qle_bool lossAmount 0 || Qle_bool winAmount 0 = true).
    { apply orb_true_iff. destruct Hnp as [H|H]; [right|left];
        apply Qle_bool_iff; exact H. }
    rewrite E. apply Q.min_compat; [reflexivity|]. ring.
  - unfold calculatePositionSize. apply Q.le_min_l.
  - unfold calculatePositionSize. reflexivity.
Qed.

Lemma calculatePositionSize_policies_witness :
  calculatePositionSize 150 1000 None None (Some (3 # 5)) (Some 2) (Some 1)
  == kellySizeSpec 150 1000 (3 # 5) 2 1 /\
  calculatePositionSize 150 1000 None None (Some (3 # 5)) (Some 2) (Some 0)
  == Qmin 150 0.
Proof.
  destruct (calculatePositionSize_policies 150 1000 (3 # 5) 2 1 None None)
    as (H1 & _).
  destruct (calculatePositionSize_policies 150 1000 (3 # 5) 2 0 None None)
    as (_ & H2 & _).
  split; [apply H1; reflexivity | apply H2; right; discriminate].
Defined.

(** The Kelly size of the witness: min(150, 1000 x 0.4 x 0.25) = 100. *)
Example kelly_size_example :
  calculatePositionSize 150 1000 None None (Some (3 # 5)) (Some 2) (Some 1) == 100.
Proof. reflexivity. Qed.

(** ** The market state store *)

Lemma calculateVolatility_ignores_window prices window1 window2 :
  calculateVolatility prices window1 = calculateVolatility prices window2.
Proof. reflexivity. Qed.

(** C7 at a failing input.  The token has a book and the price history
    1, 2, 2, ..., 2 (27 prices, within the capacity 2 x 20).  The last 20
    prices, and the last 21, are all 2, so the volatility over the most
    recent window is 0; [getDerivedFeatures] returns the deviation of the
    returns of the whole history, which is not 0. *)
Theorem ewmaVol_spans_whole_history :
  volWindow vol_store = 20%nat /\
  priceHistory vol_store !! "token-1"%string = Some vol_prices /\
  df_ewmaVol (fst (fst (getDerivedFeatures "token-1" vol_store world0)))
  = Some (calculateVolatility vol_prices 20) /\
  calculateVolatility vol_prices 20 = stddev (simpleReturns vol_prices) /\
  windowedVolatility vol_prices 20 == 0 /\
  windowedVolatility vol_prices 21 == 0 /\
  calculateVolatility vol_prices 20 == 19230769230769230769 # 100000000000000000000 /\
  ~ calculateVolatility vol_prices 20 == windowedVolatility vol_prices 20.
Proof.
  split; [reflexivity|]. split; [vm_compute; reflexivity|].
  split; [vm_compute; reflexivity|]. split; [reflexivity|].
  split; [vm_compute; reflexivity|]. split; [vm_compute; reflexivity|].
  split; [vm_compute; reflexivity|].
  intros H. vm_compute in H. discriminate.
Qed.

(** C8: [getDerivedFeatures] is not a read-only recomputation.  The EMA
    of a token is advanced by the reads and by nothing else: [addTrade]
    never touches it, although it is the trades that are meant to build
    it.  After trades at 1, 2 and 3 with no read, no EMA is stored and
    the first read reports an [ema] of 3, the latest price alone.  After
    a trade at 1, a read and a trade at 2, a read replaces the stored
    EMA while the trade tape and the price history stay as they are, and
    two consecutive reads with no update in between report two different
    [ema] values (about 1.095, then about 1.181). *)
Theorem reads_advance_the_ema :
  (forall trade self, emas (addTrade trade self) = emas self) /\
  (let '(f, _, _) := getDerivedFeatures "token-1" unread_store world0 in
   emas unread_store !! "token-1"%string = None /\
   df_ema f = Some 3) /\
  (let '(f1, self1, w1) := getDerivedFeatures "token-1" ema_store world0 in
   let '(f2, self2, w2) := getDerivedFeatures "token-1" self1 w1 in
   priceHistory self1 = priceHistory ema_store /\
   tradeTapeStore self1 = tradeTapeStore ema_store /\
   emas self1 <> emas ema_store /\
   exists v1 v2,
     df_ema f1 = Some v1 /\ df_ema f2 = Some v2 /\
     (109 # 100) < v1 /\ v1 < (110 # 100) /\
     (118 # 100) < v2 /\ v2 < (119 # 100)).
Proof.
  split; [reflexivity|]. split.
  - vm_compute. split; reflexivity.
  - vm_compute. split; [reflexivity|]. split; [reflexivity|].
    split; [intros H; discriminate H|].
    eexists _, _. split; [reflexivity|]. split; [reflexivity|].
    repeat split.
Qed.

(** What a read leaves alone: [getDerivedFeatures] changes no order
    book, trade tape or price history and no EMA state of another token;
    it stores an updated EMA for the token itself when the token has a
    book and at least one trade, and only then.  Two consecutive calls
    return the same midPrice, spread, spreadBps, depths and ewmaVol. *)
Theorem getDerivedFeatures_frame
    (tokenId : string) (self : MarketStateStore) (w : World) :
  let '(f1, self1, w1) := getDerivedFeatures tokenId self w in
  let '(f2, self2, w2) := getDerivedFeatures tokenId self1 w1 in
  (orderBookStore self1 = orderBookStore self /\
   tradeTapeStore self1 = tradeTapeStore self /\
   priceHistory self1 = priceHistory self /\
   emaPeriod self1 = emaPeriod self /\
   volWindow self1 = volWindow self) /\
  delete tokenId (emas self1) = delete tokenId (emas self) /\
  emas self1 =
    match getOrderBook tokenId self,
          List.rev (getTrades tokenId (volWindow self) self) with
    | Some _, latest :: _ =>
        <[tokenId :=
            snd (EMA_update (tr_price latest)
                   match emas self !! tokenId with
                   | Some e => e
                   | None => newEMA (emaPeriod self)
                   end)]> (emas self)
    | _, _ => emas self
    end /\
  (df_midPrice f2 = df_midPrice f1 /\
   df_spread f2 = df_spread f1 /\
   df_spreadBps f2 = df_spreadBps f1 /\
   df_bidDepth f2 = df_bidDepth f1 /\
   df_askDepth f2 = df_askDepth f1 /\
   df_ewmaVol f2 = df_ewmaVol f1).
Proof.
  destruct (getDerivedFeatures tokenId self w) as [[f1 self1] w1] eqn:E1.
  assert (Hframe : orderBookStore self1 = orderBookStore self /\
                   tradeTapeStore self1 = tradeTapeStore self /\
                   priceHistory self1 = priceHistory self /\
                   emaPeriod self1 = emaPeriod self /\
                   volWindow self1 = volWindow self).
  { revert E1. unfold getDerivedFeatures, bind, ret, Date_now.
    destruct (getOrderBook tokenId self); [|intros H; inversion H; repeat split].
    destruct (List.rev _); [intros H; inversion H; repeat split|].
    destruct (EMA_update _ _). intros H; inversion H; repeat split. }
  destruct Hframe as (Hb & Ht & Hh & Hp & Hv).
  destruct (getDerivedFeatures tokenId self1 w1) as [[f2 self2] w2] eqn:E2.
  split; [repeat split; assumption|].
  revert E1 E2. unfold getDerivedFeatures, getOrderBook, getTrades.
  rewrite Hb, Ht, Hh, Hv. unfold bind, ret, Date_now.
  destruct (books (orderBookStore self) !! tokenId) as [book|].
  2:{ intros H1 H2. inversion H1; subst. inversion H2; subst. cbn. repeat split. }
  destruct (List.rev (TradeTapeStore_get tokenId (volWindow self) (tradeTapeStore self)))
    as [|latest ?].
  { intros H1 H2. inversion H1; subst. inversion H2; subst. cbn. repeat split. }
  destruct (EMA_update (tr_price latest) _) as [v1 e1] eqn:U1.
  destruct (EMA_update (tr_price latest)
              match emas self1 !! tokenId with
              | Some e => e | None => newEMA (emaPeriod self1) end) as [v2 e2].
  intros H1 H2. inversion H1; subst. inversion H2; subst. cbn.
  split; [apply delete_insert_eq|]. repeat split.
Qed.

(** * Further properties *)

(** ** The order book: what a delta stores *)

Lemma js_get_set_price k v (m : list (Decimal * PriceLevel)) p :
  js_get Qeq_bool p (js_set Qeq_bool k v m) =
  if Qeq_bool k p then Some v else js_get Qeq_bool p m.
Proof.
  induction m as [|[k' v'] m IH]; simpl.
  - reflexivity.
  - destruct (Qeq_bool k' k) eqn:E1; simpl.
    + destruct (Qeq_bool k' p) eqn:E2; destruct (Qeq_bool k p) eqn:E3; try reflexivity.
      * apply Qeq_bool_iff in E1, E2. apply Qeq_bool_neq in E3.
        exfalso. apply E3. rewrite <- E1. exact E2.
      * apply Qeq_bool_iff in E1, E3. apply Qeq_bool_neq in E2.
        exfalso. apply E2. rewrite E1. exact E3.
    + destruct (Qeq_bool k' p) eqn:E2; [|exact IH].
      destruct (Qeq_bool k p) eqn:E3; [|reflexivity].
      apply Qeq_bool_iff in E2, E3. apply Qeq_bool_neq in E1.
      exfalso. apply E1. rewrite E2, E3. reflexivity.
Qed.

Lemma js_get_delete_price k (m : list (Decimal * PriceLevel)) p :
  js_get Qeq_bool p (js_delete Qeq_bool k m) =
  if Qeq_bool k p then None else js_get Qeq_bool p m.
Proof.
  induction m as [|[k' v'] m IH]; simpl.
  - destruct (Qeq_bool k p); reflexivity.
  - destruct (Qeq_bool k' k) eqn:E1; simpl.
    + rewrite IH. destruct (Qeq_bool k p) eqn:E3; [reflexivity|].
      destruct (Qeq_bool k' p) eqn:E2; [|reflexivity].
      apply Qeq_bool_iff in E1, E2. apply Qeq_bool_neq in E3.
      exfalso. apply E3. rewrite <- E1. exact E2.
    + destruct (Qeq_bool k' p) eqn:E2; [|exact IH].
      destruct (Qeq_bool k p) eqn:E3; [|reflexivity].
      apply Qeq_bool_iff in E2, E3. apply Qeq_bool_neq in E1.
      exfalso. apply E1. rewrite E2, E3. reflexivity.
Qed.

Lemma findLevel_app p l1 l2 :
  findLevel p (l1 ++ l2) =
  match findLevel p l1 with Some x => Some x | None => findLevel p l2 end.
Proof.
  unfold findLevel. induction l1 as [|x l1 IH]; simpl; [reflexivity|].
  destruct (Qeq_bool (lvl_price x) p); [reflexivity | exact IH].
Qed.

Lemma js_get_existing existing m p :
  js_get Qeq_bool p
    (fold_left (fun m level => js_set Qeq_bool (lvl_price level) level m)
               existing m) =
  match lastAt p existing with
  | Some x => Some x
  | None => js_get Qeq_bool p m
  end.
Proof.
  unfold lastAt. revert m. induction existing as [|x l IH]; intros m; simpl.
  - reflexivity.
  - rewrite IH, findLevel_app, js_get_set_price.
    destruct (findLevel p (rev l)); [reflexivity|].
    unfold findLevel. simpl. destruct (Qeq_bool (lvl_price x) p); reflexivity.
Qed.

Lemma js_get_updates updates m p :
  js_get Qeq_bool p
    (fold_left (fun m update =>
                  let key := lvl_price update in
                  if Qle_bool (lvl_size update) 0
                  then js_delete Qeq_bool key m
                  else js_set Qeq_bool key update m)
               updates m) =
  match lastAt p updates with
  | Some u => if Qle_bool (lvl_size u) 0 then None else Some u
  | None => js_get Qeq_bool p m
  end.
Proof.
  unfold lastAt. revert m. induction updates as [|u l IH]; intros m; simpl.
  - reflexivity.
  - rewrite IH, findLevel_app.
    destruct (findLevel p (rev l)); [reflexivity|].
    unfold findLevel. simpl.
    destruct (Qle_bool (lvl_size u) 0) eqn:Esize;
      rewrite ?js_get_delete_price, ?js_get_set_price;
      destruct (Qeq_bool (lvl_price u) p); rewrite ?Esize; reflexivity.
Qed.

Lemma findLevel_values m p :
  Forall keyed_by_price m ->
  findLevel p (js_values m) = js_get Qeq_bool p m.
Proof.
  unfold findLevel, js_values. induction m as [|[k v] m IH]; simpl; intros H.
  - reflexivity.
  - inversion H as [|? ? Hk Hm]; subst. unfold keyed_by_price in Hk. simpl in Hk.
    destruct (Qeq_bool (lvl_price v) p) eqn:E1; destruct (Qeq_bool k p) eqn:E2;
      try reflexivity; try (apply IH; exact Hm).
    + apply Qeq_bool_iff in E1. apply Qeq_bool_neq in E2.
      exfalso. apply E2. rewrite Hk. exact E1.
    + apply Qeq_bool_iff in E2. apply Qeq_bool_neq in E1.
      exfalso. apply E1. rewrite <- Hk. exact E2.
Qed.

Lemma findLevel_Some p l x :
  findLevel p l = Some x -> In x l /\ lvl_price x == p.
Proof.
  unfold findLevel. intros H. apply find_some in H. destruct H as [Hin Hp].
  split; [exact Hin | apply Qeq_bool_iff; exact Hp].
Qed.

Lemma findLevel_None p l x :
  findLevel p l = None -> In x l -> ~ lvl_price x == p.
Proof.
  unfold findLevel. intros H Hin Hp.
  pose proof (find_none _ _ H x Hin) as Hx. cbv beta in Hx.
  apply Qeq_bool_iff in Hp. congruence.
Qed.

Lemma findLevel_unique p l x :
  unique_prices l -> In x l -> lvl_price x == p -> findLevel p l = Some x.
Proof.
  unfold unique_prices, findLevel. induction l as [|y l IH]; simpl; intros Hu Hin Hp.
  - contradiction.
  - inversion Hu as [|? ? Hnin Hnd]; subst.
    destruct (Qeq_bool (lvl_price y) p) eqn:E.
    + destruct Hin as [->|Hin]; [reflexivity|].
      exfalso. apply Hnin. rewrite InA_alt. exists x. split; [|exact Hin].
      unfold same_price. apply Qeq_bool_iff in E. rewrite E, Hp. reflexivity.
    + destruct Hin as [->|Hin].
      * apply Qeq_bool_iff in Hp. congruence.
      * apply IH; assumption.
Qed.

Lemma findLevel_sort so l p :
  unique_prices l ->
  findLevel p (js_sort (level_cmp so) l) = findLevel p l.
Proof.
  intros Hu. destruct (findLevel p l) as [x|] eqn:E.
  - apply findLevel_Some in E. destruct E as [Hin Hp].
    apply findLevel_unique; [|apply js_sort_In; exact Hin | exact Hp].
    apply (sorted_unique so). apply js_sort_sorted. exact Hu.
  - destruct (findLevel p (js_sort (level_cmp so) l)) as [y|] eqn:E'; [|reflexivity].
    apply findLevel_Some in E'. destruct E' as [Hin Hp].
    apply js_sort_In in Hin. exfalso. exact (findLevel_None _ _ _ E Hin Hp).
Qed.

(** X1: what [applyLevels] leaves at a price.  The level stored at price
    [p] after merging [updates] into [existing] is the last update at [p]
    when that update has a positive size; nothing when the last update at
    [p] has size zero or less; and, when no update names [p], the level
    [existing] had there (the last one, should the input repeat a
    price). *)
Theorem applyLevels_lookup
    (existing updates : list PriceLevel) (sortOrder : SortOrder) (p : Decimal) :
  findLevel p (applyLevels existing updates sortOrder) =
  match lastAt p updates with
  | Some u => if Qle_bool (lvl_size u) 0 then None else Some u
  | None => lastAt p existing
  end.
Proof.
  unfold applyLevels.
  assert (Hok : price_map_ok (fun _ => True)
            (fold_left (fun m update =>
                  let key := lvl_price update in
                  if Qle_bool (lvl_size update) 0
                  then js_delete Qeq_bool key m
                  else js_set Qeq_bool key update m)
               updates
               (fold_left (fun m level => js_set Qeq_bool (lvl_price level) level m)
                          existing []))).
  { apply price_map_updates; [intros; exact I|].
    apply price_map_existing.
    - apply List.Forall_forall. intros; exact I.
    - repeat split; constructor. }
  rewrite findLevel_sort by (apply (price_map_values_unique _ _ Hok)).
  rewrite findLevel_values by (apply Hok).
  rewrite js_get_updates, js_get_existing. simpl.
  destruct (lastAt p updates); [reflexivity|].
  destruct (lastAt p existing); reflexivity.
Qed.


Lemma js_set_fresh k v (m : list (Decimal * PriceLevel)) :
  (forall e, In e m -> ~ fst e == k) ->
  js_set Qeq_bool k v m = m ++ [(k, v)].
Proof.
  induction m as [|[k' v'] m IH]; simpl; intros H; [reflexivity|].
  destruct (Qeq_bool k' k) eqn:E.
  - apply Qeq_bool_iff in E. exfalso. apply (H (k', v')); [left; reflexivity | exact E].
  - rewrite IH; [reflexivity|]. intros e He. apply H. right. exact He.
Qed.

Lemma fold_existing_fresh (l : list PriceLevel) m :
  unique_prices l ->
  (forall x e, In x l -> In e m -> ~ fst e == lvl_price x) ->
  fold_left (fun m level => js_set Qeq_bool (lvl_price level) level m) l m =
  m ++ List.map (fun x => (lvl_price x, x)) l.
Proof.
  unfold unique_prices. revert m.
  induction l as [|x l IH]; simpl; intros m Hu Hm.
  - rewrite app_nil_r. reflexivity.
  - inversion Hu as [|? ? Hnin Hnd]; subst.
    rewrite js_set_fresh by (intros e He; apply (Hm x e); [left; reflexivity | exact He]).
    rewrite IH; [rewrite <- app_assoc; reflexivity | exact Hnd |].
    intros y e Hy He. apply in_app_or in He. destruct He as [He|[<-|[]]].
    + apply (Hm y e); [right; exact Hy | exact He].
    + simpl. intros Heq. apply Hnin. rewrite InA_alt. exists y.
      split; [exact Heq | exact Hy].
Qed.

Lemma before_cmp so a b : before so a b -> level_cmp so a b = Lt.
Proof.
  unfold before, level_cmp. destruct so; intros H.
  - apply Qlt_alt. exact H.
  - apply Qgt_alt in H. rewrite H. reflexivity.
Qed.

Lemma js_sort_sorted_id so l :
  StronglySorted (before so) l -> js_sort (level_cmp so) l = l.
Proof.
  induction l as [|x l IH]; intros H; [reflexivity|].
  inversion H as [|? ? Hs Hall]; subst. simpl. rewrite (IH Hs).
  destruct l as [|y l']; [reflexivity|]. simpl.
  inversion Hall as [|? ? Hxy _]; subst.
  rewrite (before_cmp _ _ _ Hxy). reflexivity.
Qed.

Lemma applyLevels_no_updates existing so :
  StronglySorted (before so) existing -> applyLevels existing [] so = existing.
Proof.
  intros Hs. unfold applyLevels. simpl.
  rewrite fold_existing_fresh.
  - simpl. unfold js_values. rewrite List.map_map. simpl. rewrite List.map_id.
    apply js_sort_sorted_id. exact Hs.
  - apply (sorted_unique so). exact Hs.
  - intros x e _ [].
Qed.

(** X2: a delta that carries no level (a heartbeat) leaves both sides of
    a properly ordered book exactly as they are, whatever its sequence
    number: re-sorting does not reorder or drop anything. *)
Theorem applyDelta_empty_delta_keeps_sides
    (now : Z) (sequence : option Z) (self : InMemoryOrderBook) :
  side_order self ->
  cb_bids (book (applyDelta now [] [] sequence self)) = cb_bids (book self) /\
  cb_asks (book (applyDelta now [] [] sequence self)) = cb_asks (book self).
Proof.
  intros (Hb & Ha & _). unfold applyDelta.
  destruct (match sequence with
            | Some s => match lastSequence self with
                        | Some l => (s <=? l)%Z | None => false end
            | None => false end); [split; reflexivity|].
  destruct sequence; simpl;
    (split; [apply (applyLevels_no_updates _ desc); exact Hb
            | apply (applyLevels_no_updates _ asc); exact Ha]).
Qed.

Lemma sample_book_side_order : side_order sample_book.
Proof.
  unfold side_order, strictly_descending, strictly_ascending, unique_prices,
    same_price. simpl.
  repeat split; repeat constructor;
    try (intros H; inversion H; subst;
         match goal with
         | E : _ == _ |- _ => vm_compute in E; discriminate
         | E : InA _ _ [] |- _ => inversion E
         end).
Defined.

Lemma applyDelta_empty_delta_witness :
  cb_bids (book (applyDelta 2000 [] [] (Some 9%Z) sample_book))
  = cb_bids (book sample_book) /\
  cb_asks (book (applyDelta 2000 [] [] (Some 9%Z) sample_book))
  = cb_asks (book sample_book).
Proof.
  apply (applyDelta_empty_delta_keeps_sides 2000 (Some 9%Z) sample_book).
  exact sample_book_side_order.
Defined.

Lemma applyDelta_sequence now bids asks sequence self s :
  lastSequence self = Some s -> cb_sequence (book self) = Some s ->
  exists s', lastSequence (applyDelta now bids asks sequence self) = Some s' /\
             cb_sequence (book (applyDelta now bids asks sequence self)) = Some s' /\
             (s <= s')%Z.
Proof.
  intros Hl Hc. unfold applyDelta. rewrite Hl.
  destruct sequence as [q|].
  - destruct (q <=? s)%Z eqn:E.
    + exists s. repeat split; try assumption; lia.
    + apply Z.leb_gt in E. exists q. simpl. repeat split. lia.
  - exists s. simpl. repeat split; try assumption; lia.
Qed.

(** X3: sequence numbers only move forward.  On a book whose stored
    sequence and last applied sequence are [s], after any run of
    [applyDelta] calls (sequenced or not, stale or not) both are still
    equal to each other and at least [s]. *)
Theorem applyDeltas_sequence_monotone
    (ds : list Delta) (self : InMemoryOrderBook) (s : Z) :
  lastSequence self = Some s -> cb_sequence (book self) = Some s ->
  exists s',
    lastSequence (applyDeltas ds self) = Some s' /\
    cb_sequence (book (applyDeltas ds self)) = Some s' /\
    (s <= s')%Z.
Proof.
  unfold applyDeltas. revert self s.
  induction ds as [|d ds IH]; simpl; intros self s Hl Hc.
  - exists s. repeat split; [exact Hl | exact Hc | lia].
  - destruct (applyDelta_sequence (d_now d) (d_bids d) (d_asks d) (d_sequence d)
                                  self s Hl Hc) as (s1 & Hl1 & Hc1 & Hle).
    destruct (IH _ _ Hl1 Hc1) as (s' & Hl' & Hc' & Hle').
    exists s'. repeat split; [exact Hl' | exact Hc' | lia].
Qed.

Lemma applyDeltas_sequence_witness :
  exists s',
    lastSequence (applyDeltas [ask_delta] sample_book) = Some s' /\
    cb_sequence (book (applyDeltas [ask_delta] sample_book)) = Some s' /\
    (5 <= s')%Z.
Proof.
  apply (applyDeltas_sequence_monotone [ask_delta] sample_book 5);
    reflexivity.
Defined.

Lemma applyDeltas_keep_side_order ds self :
  side_order self -> side_order (applyDeltas ds self).
Proof.
  unfold applyDeltas. revert self.
  induction ds as [|d ds IH]; simpl; intros self H; [exact H|].
  apply IH. apply applyDelta_side_order. exact H.
Qed.

(** X4: the head of each side is its best price.  After any run of
    deltas on a properly ordered book, [getBestBid] is at least the price
    of every stored bid and [getBestAsk] at most the price of every stored
    ask. *)
Theorem best_prices_are_extreme
    (ds : list Delta) (self : InMemoryOrderBook) (x : PriceLevel) :
  side_order self ->
  (In x (cb_bids (book (applyDeltas ds self))) ->
   exists best, getBestBid (applyDeltas ds self) = Some best /\
                lvl_price x <= best) /\
  (In x (cb_asks (book (applyDeltas ds self))) ->
   exists best, getBestAsk (applyDeltas ds self) = Some best /\
                best <= lvl_price x).
Proof.
  intros H. destruct (applyDeltas_keep_side_order ds self H) as (Hb & Ha & _).
  unfold getBestBid, getBestAsk. split; intros Hin.
  - destruct (cb_bids (book (applyDeltas ds self))) as [|h t]; [inversion Hin|].
    exists (lvl_price h). split; [reflexivity|].
    destruct (sorted_head_first desc _ _ _ Hb Hin) as [->|Hlt];
      [apply Qle_refl | unfold before in Hlt; lra].
  - destruct (cb_asks (book (applyDeltas ds self))) as [|h t]; [inversion Hin|].
    exists (lvl_price h). split; [reflexivity|].
    destruct (sorted_head_first asc _ _ _ Ha Hin) as [->|Hlt];
      [apply Qle_refl | unfold before in Hlt; lra].
Qed.

Lemma best_prices_are_extreme_witness :
  (In (lvl (48 # 100) 200) (cb_bids (book (applyDeltas [ask_delta] sample_book))) ->
   exists best, getBestBid (applyDeltas [ask_delta] sample_book) = Some best /\
                48 # 100 <= best) /\
  (In (lvl (48 # 100) 200) (cb_asks (book (applyDeltas [ask_delta] sample_book))) ->
   exists best, getBestAsk (applyDeltas [ask_delta] sample_book) = Some best /\
                best <= 48 # 100).
Proof.
  apply (best_prices_are_extreme [ask_delta] sample_book (lvl (48 # 100) 200)).
  exact sample_book_side_order.
Defined.


(** ** Mid price, spread, depth and slippage estimates *)

(** X5: [calculateMidPrice] and [calculateSpread] are defined exactly
    when both sides of the book are non-empty; then the best bid is
    mid - spread/2 and the best ask is mid + spread/2, and on a book that
    is not crossed the spread is not negative and the mid lies between
    the two best prices.  [getMidPrice] and [getSpread] of the in-memory
    book return the same two values for its own sides. *)
Theorem mid_and_spread (b : OrderBook) (self : InMemoryOrderBook) :
  (calculateMidPrice b = None <-> ob_bids b = [] \/ ob_asks b = []) /\
  (calculateSpread b = None <-> ob_bids b = [] \/ ob_asks b = []) /\
  (forall bestBid bids bestAsk asks,
     ob_bids b = bestBid :: bids -> ob_asks b = bestAsk :: asks ->
     exists mid spread,
       calculateMidPrice b = Some mid /\
       calculateSpread b = Some spread /\
       lvl_price bestBid == mid - spread / 2 /\
       lvl_price bestAsk == mid + spread / 2 /\
       (lvl_price bestBid <= lvl_price bestAsk ->
        0 <= spread /\ lvl_price bestBid <= mid /\ mid <= lvl_price bestAsk)) /\
  getMidPrice self = calculateMidPrice (asOrderBook self) /\
  getSpread self = calculateSpread (asOrderBook self).
Proof.
  unfold calculateMidPrice, calculateSpread.
  split; [|split; [|split; [|split]]].
  - destruct (ob_bids b), (ob_asks b); split; intros H;
      try reflexivity; try discriminate; try (left; reflexivity);
      try (right; reflexivity); destruct H; discriminate.
  - destruct (ob_bids b), (ob_asks b); split; intros H;
      try reflexivity; try discriminate; try (left; reflexivity);
      try (right; reflexivity); destruct H; discriminate.
  - intros bestBid bids bestAsk asks -> ->.
    exists ((lvl_price bestBid + lvl_price bestAsk) / 2),
           (lvl_price bestAsk - lvl_price bestBid).
    split; [reflexivity|]. split; [reflexivity|].
    split; [field|]. split; [field|].
    intros Hle. repeat split.
    + lra.
    + apply Qle_shift_div_l; lra.
    + apply Qle_shift_div_r; lra.
  - unfold getMidPrice, getBestBid, getBestAsk, asOrderBook. simpl.
    destruct (cb_bids (book self)), (cb_asks (book self)); reflexivity.
  - unfold getSpread, getBestBid, getBestAsk, asOrderBook. simpl.
    destruct (cb_bids (book self)), (cb_asks (book self)); reflexivity.
Qed.


Lemma slippageLoop_fills levels :
  sizes_positive levels -> levels <> [] ->
  forall remaining totalCost totalSize cost' size',
    0 < remaining ->
    slippageLoop levels remaining totalCost totalSize = (cost', size') ->
    totalSize < size'.
Proof.
  intros Hs Hne remaining tc ts c' s' Hrem H.
  destruct levels as [|level rest]; [congruence|].
  simpl in H. inversion Hs as [|? ? Hpos Hs']; subst.
  destruct (Qle_bool remaining 0) eqn:E.
  { apply Qle_bool_iff in E. lra. }
  assert (Hfill : 0 < Qmin remaining (lvl_size level)).
  { apply Q.min_glb_lt; assumption. }
  (* monotonicity of the rest of the loop, without price bounds *)
  assert (Hmono : forall l r c s c2 s2,
            sizes_positive l -> slippageLoop l r c s = (c2, s2) -> s <= s2).
  { clear. induction l as [|x l IH]; intros r c s c2 s2 Hs H.
    - simpl in H. inversion H; subst. lra.
    - simpl in H. inversion Hs as [|? ? Hpos Hs']; subst.
      destruct (Qle_bool r 0) eqn:E.
      + inversion H; subst. lra.
      + assert (Hr : 0 < r).
        { destruct (Qlt_le_dec 0 r) as [Hlt|Hle]; [exact Hlt|].
          apply Qle_bool_iff in Hle. congruence. }
        assert (0 < Qmin r (lvl_size x)) by (apply Q.min_glb_lt; assumption).
        specialize (IH _ _ _ _ _ Hs' H). lra. }
  specialize (Hmono _ _ _ _ _ _ Hs' H). lra.
Qed.

(** X6: when [estimateSlippage] has an answer.  It returns nothing for an
    empty opposing side, and nothing for a size of zero or less; against
    a non-empty side with positive level sizes it returns an estimate for
    every positive size, however large. *)
Theorem estimateSlippage_defined
    (book : OrderBook) (side : OrderSide) (size : Decimal) :
  (opposingLevels book side = [] -> estimateSlippage book side size = None) /\
  (size <= 0 -> estimateSlippage book side size = None) /\
  (opposingLevels book side <> [] ->
   sizes_positive (opposingLevels book side) -> 0 < size ->
   exists e, estimateSlippage book side size = Some e).
Proof.
  unfold estimateSlippage, opposingLevels.
  set (levels := match side with buy => ob_asks book | sell => ob_bids book end).
  split; [|split].
  - intros ->. reflexivity.
  - intros Hsize. destruct levels as [|level rest]; [reflexivity|].
    simpl. apply Qle_bool_iff in Hsize. rewrite Hsize. reflexivity.
  - intros Hne Hs Hsize. destruct levels as [|level rest] eqn:El; [congruence|].
    destruct (slippageLoop (level :: rest) size 0 0) as [tc ts] eqn:E.
    pose proof (slippageLoop_fills _ Hs Hne _ _ _ _ _ Hsize E) as Hts.
    destruct (Qeq_bool ts 0) eqn:Ez.
    + apply Qeq_bool_iff in Ez. lra.
    + eexists. reflexivity.
Qed.

Lemma estimateSlippage_defined_witness :
  exists e, estimateSlippage test_book buy 500 = Some e.
Proof.
  apply (estimateSlippage_defined test_book buy 500).
  - discriminate.
  - unfold sizes_positive. simpl. repeat constructor.
  - reflexivity.
Defined.





Lemma Qle_bool_false x y : y < x -> Qle_bool x y = false.
Proof.
  intros H. destruct (Qle_bool x y) eqn:E; [|reflexivity].
  apply Qle_bool_iff in E. lra.
Qed.

Lemma Qeq_bool_false x y : ~ x == y -> Qeq_bool x y = false.
Proof.
  intros H. destruct (Qeq_bool x y) eqn:E; [|reflexivity].
  apply Qeq_bool_iff in E. contradiction.
Qed.



Lemma totalDepth_nonneg levels : sizes_positive levels -> 0 <= totalDepth levels.
Proof.
  unfold sizes_positive. induction levels as [|x l IH]; simpl; intros H; [lra|].
  inversion H; subst. specialize (IH H3). lra.
Qed.

Lemma slippageLoop_exhausts levels :
  sizes_positive levels ->
  forall remaining totalCost totalSize cost' size',
    totalDepth levels <= remaining ->
    slippageLoop levels remaining totalCost totalSize = (cost', size') ->
    cost' == totalCost + totalNotional levels /\
    size' == totalSize + totalDepth levels.
Proof.
  induction levels as [|x l IH]; intros Hs remaining tc ts c' s' Hrem H.
  - simpl in *. inversion H; subst. split; ring.
  - simpl in H, Hrem. inversion Hs as [|? ? Hpos Hs']; subst.
    pose proof (totalDepth_nonneg l Hs') as Hd.
    rewrite (Qle_bool_false remaining 0) in H by lra.
    remember (Qmin remaining (lvl_size x)) as f eqn:Ef.
    assert (Hf : f == lvl_size x) by (subst f; apply Q.min_r; lra).
    assert (Hrem' : totalDepth l <= remaining - f) by lra.
    destruct (IH Hs' _ _ _ _ _ Hrem' H) as [Hc Hz].
    simpl. split.
    + rewrite Hc, Hf. ring.
    + rewrite Hz, Hf. ring.
Qed.

(** X9: an order larger than the whole opposing side is estimated over
    the depth there is, without any error: with positive level sizes and
    size >= total depth, the average price is the volume-weighted price
    of the entire side, the same for every such size. *)
Theorem estimateSlippage_beyond_depth
    (b : OrderBook) (side : OrderSide) (size : Decimal) :
  opposingLevels b side <> [] ->
  sizes_positive (opposingLevels b side) ->
  totalDepth (opposingLevels b side) <= size ->
  exists e,
    estimateSlippage b side size = Some e /\
    avgPrice e ==
      totalNotional (opposingLevels b side) / totalDepth (opposingLevels b side).
Proof.
  unfold estimateSlippage, opposingLevels.
  set (levels := match side with buy => ob_asks b | sell => ob_bids b end).
  intros Hne Hs Hsize. destruct levels as [|level rest] eqn:El; [congruence|].
  destruct (slippageLoop (level :: rest) size 0 0) as [tc ts] eqn:E.
  destruct (slippageLoop_exhausts _ Hs _ _ _ _ _ Hsize E) as [Hc Hz].
  assert (Hd : 0 < totalDepth (level :: rest)).
  { simpl. inversion Hs as [|? ? Hpos Hs']; subst.
    pose proof (totalDepth_nonneg rest Hs'). lra. }
  rewrite Qeq_bool_false by lra.
  eexists. split; [reflexivity|]. cbn [avgPrice].
  rewrite Hc, Hz. field. lra.
Qed.

Lemma estimateSlippage_beyond_depth_witness :
  exists e,
    estimateSlippage test_book sell 1000 = Some e /\
    avgPrice e ==
      totalNotional (opposingLevels test_book sell)
      / totalDepth (opposingLevels test_book sell).
Proof.
  apply (estimateSlippage_beyond_depth test_book sell 1000).
  - discriminate.
  - unfold sizes_positive. simpl. repeat constructor.
  - discriminate.
Defined.

Lemma depth_fold_all (keep : PriceLevel -> bool) levels depth :
  (forall l, In l levels -> keep l = true) ->
  fold_left (fun d l => if keep l then d + lvl_size l else d) levels depth
  == depth + totalDepth levels.
Proof.
  revert depth. induction levels as [|x l IH]; simpl; intros depth H.
  - ring.
  - rewrite (H x) by (left; reflexivity).
    rewrite IH by (intros y Hy; apply H; right; exact Hy). ring.
Qed.

Lemma depth_fold_none (keep : PriceLevel -> bool) levels depth :
  (forall l, In l levels -> keep l = false) ->
  fold_left (fun d l => if keep l then d + lvl_size l else d) levels depth
  = depth.
Proof.
  revert depth. induction levels as [|x l IH]; simpl; intros depth H.
  - reflexivity.
  - rewrite (H x) by (left; reflexivity).
    apply IH. intros y Hy. apply H. right. exact Hy.
Qed.

Lemma depth_fold_filter (keep : PriceLevel -> bool) levels depth :
  fold_left (fun d l => if keep l then d + lvl_size l else d) levels depth
  == depth + totalDepth (List.filter keep levels).
Proof.
  revert depth. induction levels as [|x l IH]; intros depth; cbn [fold_left List.filter].
  - cbn. ring.
  - rewrite IH. destruct (keep x); cbn [totalDepth fold_right]; [|reflexivity].
    fold (totalDepth (List.filter keep l)). ring.
Qed.

Lemma totalDepth_filter_le (keep1 keep2 : PriceLevel -> bool) levels :
  (forall l, In l levels -> 0 <= lvl_size l) ->
  (forall l, In l levels -> keep1 l = true -> keep2 l = true) ->
  totalDepth (List.filter keep1 levels) <= totalDepth (List.filter keep2 levels).
Proof.
  induction levels as [|x l IH]; intros Hs Hk; cbn [List.filter].
  - apply Qle_refl.
  - assert (IH' : totalDepth (List.filter keep1 l) <= totalDepth (List.filter keep2 l)).
    { apply IH; intros y Hy; [apply Hs | apply Hk]; right; exact Hy. }
    assert (Hx : 0 <= lvl_size x) by (apply Hs; left; reflexivity).
    assert (Hnn : 0 <= totalDepth (List.filter keep2 l) - totalDepth (List.filter keep1 l)) by lra.
    destruct (keep1 x) eqn:E1.
    + rewrite (Hk x (or_introl eq_refl) E1). cbn [totalDepth fold_right].
      fold (totalDepth (List.filter keep1 l)). fold (totalDepth (List.filter keep2 l)). lra.
    + destruct (keep2 x); cbn [totalDepth fold_right];
        fold (totalDepth (List.filter keep1 l)); fold (totalDepth (List.filter keep2 l)); lra.
Qed.

(** X10: which levels [calculateDepthAtPrice] counts.  For a buy it is
    the sum of the sizes of exactly the asks priced at or above the given
    price, for a sell the sum of the sizes of exactly the bids priced at
    or below it, whatever the order of the levels.  Hence the whole ask
    depth when the price is at or below every ask and zero when it is
    above every ask, and likewise for the bids; and with sizes that are
    not negative, raising the price never raises the depth seen by a buy
    and never lowers the depth seen by a sell. *)
Theorem calculateDepthAtPrice_counts (b : OrderBook) (price : Decimal) :
  calculateDepthAtPrice b price buy ==
    totalDepth (List.filter (fun l => Qle_bool price (lvl_price l)) (ob_asks b)) /\
  calculateDepthAtPrice b price sell ==
    totalDepth (List.filter (fun l => Qle_bool (lvl_price l) price) (ob_bids b)) /\
  ((forall l, In l (ob_asks b) -> price <= lvl_price l) ->
   calculateDepthAtPrice b price buy == totalDepth (ob_asks b)) /\
  ((forall l, In l (ob_asks b) -> lvl_price l < price) ->
   calculateDepthAtPrice b price buy = 0) /\
  ((forall l, In l (ob_bids b) -> lvl_price l <= price) ->
   calculateDepthAtPrice b price sell == totalDepth (ob_bids b)) /\
  ((forall l, In l (ob_bids b) -> price < lvl_price l) ->
   calculateDepthAtPrice b price sell = 0) /\
  (forall price', price <= price' ->
     ((forall l, In l (ob_asks b) -> 0 <= lvl_size l) ->
      calculateDepthAtPrice b price' buy <= calculateDepthAtPrice b price buy) /\
     ((forall l, In l (ob_bids b) -> 0 <= lvl_size l) ->
      calculateDepthAtPrice b price sell <= calculateDepthAtPrice b price' sell)).
Proof.
  unfold calculateDepthAtPrice.
  split; [rewrite depth_fold_filter; ring|].
  split; [rewrite depth_fold_filter; ring|].
  split; [|split; [|split; [|split]]].
  - intros H. rewrite (depth_fold_all (fun l => Qle_bool price (lvl_price l))).
    + ring.
    + intros l Hl. apply Qle_bool_iff. apply H. exact Hl.
  - intros H. apply (depth_fold_none (fun l => Qle_bool price (lvl_price l))).
    intros l Hl. apply Qle_bool_false. apply H. exact Hl.
  - intros H. rewrite (depth_fold_all (fun l => Qle_bool (lvl_price l) price)).
    + ring.
    + intros l Hl. apply Qle_bool_iff. apply H. exact Hl.
  - intros H. apply (depth_fold_none (fun l => Qle_bool (lvl_price l) price)).
    intros l Hl. apply Qle_bool_false. apply H. exact Hl.
  - intros price' Hle. split; intros Hs.
    + rewrite !depth_fold_filter.
      assert (H := totalDepth_filter_le
                     (fun l => Qle_bool price' (lvl_price l))
                     (fun l => Qle_bool price (lvl_price l)) (ob_asks b) Hs).
      cbv beta in H. 
      assert (H' : totalDepth (List.filter (fun l => Qle_bool price' (lvl_price l)) (ob_asks b)) <=
                   totalDepth (List.filter (fun l => Qle_bool price (lvl_price l)) (ob_asks b))).
      { apply H. intros l _ Hl. apply Qle_bool_iff in Hl. apply Qle_bool_iff. lra. }
      lra.
    + rewrite !depth_fold_filter.
      assert (H := totalDepth_filter_le
                     (fun l => Qle_bool (lvl_price l) price)
                     (fun l => Qle_bool (lvl_price l) price') (ob_bids b) Hs).
      cbv beta in H.
      assert (H' : totalDepth (List.filter (fun l => Qle_bool (lvl_price l) price) (ob_bids b)) <=
                   totalDepth (List.filter (fun l => Qle_bool (lvl_price l) price') (ob_bids b))).
      { apply H. intros l _ Hl. apply Qle_bool_iff in Hl. apply Qle_bool_iff. lra. }
      lra.
Qed.

(** On the test book (asks 150 at 0.51 and 250 at 0.52, bids 100 at 0.49
    and 200 at 0.48): a buy priced above every ask sees no depth, one
    priced below the best ask sees all 400, one at 0.52 sees the 250 of
    the second level only; a sell at 0.48 sees the 200 of the second bid
    only. *)
Example calculateDepthAtPrice_example :
  calculateDepthAtPrice test_book (60 # 100) buy = 0 /\
  calculateDepthAtPrice test_book (50 # 100) buy == 400 /\
  calculateDepthAtPrice test_book (52 # 100) buy == 250 /\
  calculateDepthAtPrice test_book (48 # 100) sell == 200.
Proof. repeat split; reflexivity. Qed.


(** ** The risk manager *)

Lemma checkOrderRate_in_window rm w :
  (w_clock w (w_clock_i w) - orderWindowStart rm <= 1000)%Z ->
  let '(r, rm', w') := checkOrderRate rm w in
  w' = snd (Date_now w) /\
  rm_config rm' = rm_config rm /\
  orderWindowStart rm' = orderWindowStart rm /\
  (allowed r = true ->
   inject_Z (orderCount rm) < MAX_ORDER_RATE_PER_SECOND (rm_config rm) /\
   orderCount rm' = (orderCount rm + 1)%Z) /\
  (allowed r = false -> orderCount rm' = orderCount rm).
Proof.
  intros Hwin. unfold checkOrderRate, bind, Date_now, ret.
  cbn [fst snd].
  assert (E : (1000 <? w_clock w (w_clock_i w) - orderWindowStart rm)%Z = false)
    by (apply Z.ltb_ge; exact Hwin).
  rewrite E.
  destruct (Qle_bool (MAX_ORDER_RATE_PER_SECOND (rm_config rm))
                     (inject_Z (orderCount rm))) eqn:Em; cbn.
  - repeat split; try discriminate.
  - repeat split; try discriminate.
    destruct (Qlt_le_dec (inject_Z (orderCount rm))
                (MAX_ORDER_RATE_PER_SECOND (rm_config rm))) as [Hlt|Hle];
      [exact Hlt|].
    apply Qle_bool_iff in Hle. congruence.
Qed.

Lemma count_true_cons b l :
  count_true (b :: l) = ((if b then 1 else 0) + count_true l)%Z.
Proof. unfold count_true. destruct b; simpl length; lia. Qed.

Lemma count_true_nonneg l : (0 <= count_true l)%Z.
Proof. unfold count_true. lia. Qed.

Lemma checkOrderRates_in_window n :
  forall rm w,
    (forall i, (w_clock_i w <= i < w_clock_i w + n)%nat ->
               (w_clock w i - orderWindowStart rm <= 1000)%Z) ->
    forall rs rm' w',
      checkOrderRates n rm w = (rs, rm', w') ->
      rm_config rm' = rm_config rm /\
      orderWindowStart rm' = orderWindowStart rm /\
      orderCount rm' = (orderCount rm + count_true rs)%Z /\
      ((0 < count_true rs)%Z ->
       inject_Z (orderCount rm') < MAX_ORDER_RATE_PER_SECOND (rm_config rm) + 1).
Proof.
  induction n as [|n IH]; intros rm w Hwin rs rm' w' H.
  - cbn in H. unfold ret in H. inversion H; subst.
    split; [reflexivity|]. split; [reflexivity|].
    split; [unfold count_true; simpl; lia|].
    unfold count_true. simpl. lia.
  - cbn [checkOrderRates] in H. unfold bind in H.
    assert (Hnow : (w_clock w (w_clock_i w) - orderWindowStart rm <= 1000)%Z)
      by (apply Hwin; lia).
    pose proof (checkOrderRate_in_window rm w Hnow) as Hstep.
    destruct (checkOrderRate rm w) as [[r rm1] w1].
    destruct Hstep as (Hw1 & Hcfg & Hstart & Hyes & Hno).
    destruct (checkOrderRates n rm1 w1) as [[rs1 rm2] w2] eqn:E.
    unfold ret in H. inversion H; subst rs rm' w'; clear H.
    assert (Hwin1 : forall i, (w_clock_i w1 <= i < w_clock_i w1 + n)%nat ->
                              (w_clock w1 i - orderWindowStart rm1 <= 1000)%Z).
    { subst w1. cbn. intros i Hi. rewrite Hstart. apply Hwin. lia. }
    destruct (IH _ _ Hwin1 _ _ _ E) as (Hcfg2 & Hstart2 & Hcount & Hbound).
    rewrite Hcfg in *. rewrite count_true_cons.
    pose proof (count_true_nonneg rs1) as Hnn.
    split; [exact Hcfg2|]. split; [congruence|].
    destruct (allowed r) eqn:Ea.
    + destruct (Hyes eq_refl) as [Hlt Hinc]. split; [lia|].
      intros _. destruct (Z.eq_dec (count_true rs1) 0%Z) as [Hz|Hz].
      * rewrite Hcount, Hinc, Hz, Z.add_0_r, inject_Z_plus. change (inject_Z 1) with 1. lra.
      * apply Hbound. lia.
    + rewrite (Hno eq_refl) in Hcount. split; [lia|].
      intros Hpos. apply Hbound. lia.
Qed.

(** X11: the order-rate limit within one window.  As long as the clock
    stays within 1000 ms of the window start, the counter grows by one
    for each allowed check and by nothing for a refused one, and a check
    is only allowed below the limit: after any number of checks the
    window start and the configured limit are unchanged, the count is
    the old count plus the number allowed, and if any was allowed it is
    below MAX_ORDER_RATE_PER_SECOND + 1. *)
Theorem orderRate_window_bound (n : nat) (rm : RiskManager) (w : World) :
  (forall i, (w_clock_i w <= i < w_clock_i w + n)%nat ->
             (w_clock w i - orderWindowStart rm <= 1000)%Z) ->
  let '(rs, rm', _) := checkOrderRates n rm w in
  orderWindowStart rm' = orderWindowStart rm /\
  rm_config rm' = rm_config rm /\
  orderCount rm' = (orderCount rm + count_true rs)%Z /\
  ((0 < count_true rs)%Z ->
   inject_Z (orderCount rm') < MAX_ORDER_RATE_PER_SECOND (rm_config rm) + 1).
Proof.
  intros Hwin. destruct (checkOrderRates n rm w) as [[rs rm'] w'] eqn:E.
  destruct (checkOrderRates_in_window n rm w Hwin _ _ _ E)
    as (Hcfg & Hstart & Hcount & Hbound).
  split; [exact Hstart|]. split; [exact Hcfg|].
  split; [exact Hcount | exact Hbound].
Qed.

(** Thirty checks in the first 30 ms of a window with limit 10 and three
    orders counted: seven are allowed. *)
Lemma orderRate_window_bound_witness :
  let '(rs, rm', _) := checkOrderRates 30 (sample_manager 0) world0 in
  orderWindowStart rm' = 900%Z /\
  rm_config rm' = sample_app_config /\
  orderCount rm' = (3 + count_true rs)%Z /\
  ((0 < count_true rs)%Z -> inject_Z (orderCount rm') < 10 + 1).
Proof.
  apply (orderRate_window_bound 30 (sample_manager 0) world0).
  intros i Hi. cbn in *. lia.
Defined.

Example orderRate_window_example :
  count_true (fst (fst (checkOrderRates 30 (sample_manager 0) world0))) = 7%Z.
Proof. vm_compute. reflexivity. Qed.


(** X13: [checkCircuitBreakers] reports the first tripped breaker in the
    order WebSocket disconnect, stale price feed, error rate, and allows
    exactly when none trips.  Each condition is evaluated at the clock
    tick the method reaches it at; a disconnect or a stale feed returns
    before the error window is looked at, so the manager is unchanged;
    otherwise the only change is that an error window older than 60 s is
    restarted with no errors. *)
Theorem checkCircuitBreakers_first_tripped
    (cfg : BreakerConfig) (wsConnected : bool)
    (wsDisconnectTime lastPriceUpdate : option Z)
    (self : RiskManager) (w : World) :
  let t1 := wsTick wsConnected wsDisconnectTime w in
  let t2 := priceTick lastPriceUpdate t1 in
  let ws := wsTripped cfg wsConnected wsDisconnectTime w in
  let price := priceTripped cfg lastPriceUpdate w t1 in
  let errors := errorTripped cfg self w t2 in
  let '(r, self', w') := checkCircuitBreakers cfg wsConnected wsDisconnectTime
                                              lastPriceUpdate self w in
  br_reason r = first_some ws price errors /\
  (br_allowed r = true <-> ws = None /\ price = None /\ errors = None) /\
  (ws <> None \/ price <> None -> self' = self) /\
  (ws = None -> price = None ->
   self' = (if (60000 <? w_clock w t2 - errorWindowStart self)%Z
            then set_errorWindow self 0 (w_clock w t2) else self)).
Proof.
  cbv zeta.
  unfold checkCircuitBreakers, checkPriceFeed, checkErrorRate,
    wsTripped, priceTripped, errorTripped, errorsInWindow, wsTick, priceTick,
    first_some, bind, Date_now, ret.
  destruct wsConnected; destruct wsDisconnectTime as [t|];
    destruct lastPriceUpdate as [u|];
    repeat (cbn [fst snd w_clock w_clock_i errorCount set_errorWindow];
            match goal with
            | |- context [if Qlt_bool ?a ?b then _ else _] =>
                destruct (Qlt_bool a b) eqn:?
            | |- context [if (?a <? ?b)%Z then _ else _] =>
                destruct (a <? b)%Z eqn:?
            | |- context [if Qle_bool ?a ?b then _ else _] =>
                destruct (Qle_bool a b) eqn:?
            end);
    cbn;
    repeat match goal with
           | |- _ /\ _ => split
           | |- _ <-> _ => split
           end;
    try reflexivity; try discriminate; try congruence;
    try (intros (? & ? & ?); discriminate);
    try (intros [?|?]; congruence);
    try (intros; repeat split; congruence).
Qed.

(** A socket down for 40 s trips the first breaker even with a fresh
    price feed and no errors; the same socket down for 10 s does not. *)
Example checkCircuitBreakers_example :
  br_reason (fst (fst (checkCircuitBreakers sample_breaker_config false
                         (Some (-39000)%Z) (Some 990%Z) (sample_manager 0) world0)))
  = Some (WebSocketDisconnected 40000) /\
  br_allowed (fst (fst (checkCircuitBreakers sample_breaker_config false
                          (Some (-9000)%Z) (Some 990%Z) (sample_manager 0) world0)))
  = true.
Proof. vm_compute. split; reflexivity. Qed.

Lemma Qlt_bool_true x y : Qlt_bool x y = true -> x < y.
Proof.
  unfold Qlt_bool. intros H. apply negb_true_iff in H.
  destruct (Qlt_le_dec x y) as [Hlt|Hle]; [exact Hlt|].
  apply Qle_bool_iff in Hle. congruence.
Qed.

Lemma Qlt_bool_false_le x y : Qlt_bool x y = false -> y <= x.
Proof.
  unfold Qlt_bool. intros H. apply negb_false_iff in H.
  apply Qle_bool_iff. exact H.
Qed.

Lemma updateDrawdown_step balance rm :
  0 <= maxDrawdown rm ->
  peakBalance rm <= peakBalance (updateDrawdown balance rm) /\
  balance <= peakBalance (updateDrawdown balance rm) /\
  0 <= maxDrawdown (updateDrawdown balance rm) /\
  peakBalance (updateDrawdown balance rm) - balance
    <= maxDrawdown (updateDrawdown balance rm).
Proof.
  intros Hdd. unfold updateDrawdown.
  destruct (Qlt_bool (peakBalance rm) balance) eqn:E1.
  - apply Qlt_bool_true in E1. cbn. repeat split; lra.
  - apply Qlt_bool_false_le in E1.
    destruct (Qlt_bool (maxDrawdown rm) (peakBalance rm - balance)) eqn:E2.
    + apply Qlt_bool_true in E2. cbn. repeat split; lra.
    + apply Qlt_bool_false_le in E2. repeat split; lra.
Qed.

(** X14: drawdown bookkeeping.  Over any run of balance updates,
    starting from a drawdown that is not negative, the peak never falls
    and is at least every balance seen, the recorded drawdown is never
    negative, and after the last update it is at least the distance of
    that balance from the peak. *)
Theorem updateDrawdowns_invariants
    (balances : list Decimal) (rm : RiskManager) :
  0 <= maxDrawdown rm ->
  let rm' := updateDrawdowns balances rm in
  peakBalance rm <= peakBalance rm' /\
  (forall b, In b balances -> b <= peakBalance rm') /\
  0 <= maxDrawdown rm' /\
  (forall b, List.last (List.map Some balances) None = Some b ->
             peakBalance rm' - b <= maxDrawdown rm').
Proof.
  unfold updateDrawdowns. revert rm.
  induction balances as [|b bs IH]; intros rm Hdd; cbn [fold_left].
  - repeat split; try lra; [intros b []| intros b H; discriminate].
  - destruct (updateDrawdown_step b rm Hdd) as (H1 & H2 & H3 & H4).
    destruct (IH (updateDrawdown b rm) H3) as (I1 & I2 & I3 & I4).
    cbv zeta in *. repeat split.
    + lra.
    + intros x [<-|Hx]; [lra | apply I2; exact Hx].
    + exact I3.
    + intros x Hlast. destruct bs as [|b2 bs'].
      * simpl in Hlast. inversion Hlast; subst. simpl. exact H4.
      * apply I4. exact Hlast.
Qed.

Lemma updateDrawdowns_witness :
  let rm' := updateDrawdowns [100; 50; 120; 90] (sample_manager 0) in
  peakBalance (sample_manager 0) <= peakBalance rm' /\
  (forall b, In b [100; 50; 120; 90] -> b <= peakBalance rm') /\
  0 <= maxDrawdown rm' /\
  (forall b, List.last (List.map Some [100; 50; 120; 90]) None = Some b ->
             peakBalance rm' - b <= maxDrawdown rm').
Proof.
  apply (updateDrawdowns_invariants [100; 50; 120; 90] (sample_manager 0)).
  discriminate.
Defined.

(** The recorded drawdown restarts at every new peak: after 100, 50,
    120 it is 0 although the balance had fallen by 50. *)
Example updateDrawdowns_restart :
  maxDrawdown (updateDrawdowns [100; 50] (sample_manager 0)) == 50 /\
  maxDrawdown (updateDrawdowns [100; 50; 120] (sample_manager 0)) == 0.
Proof. vm_compute. split; reflexivity. Qed.

Lemma updateDailyPnls_total pnls rm :
  dailyPnl (updateDailyPnls pnls rm) = fold_left Qplus pnls (dailyPnl rm) /\
  rm_config (updateDailyPnls pnls rm) = rm_config rm.
Proof.
  unfold updateDailyPnls. revert rm.
  induction pnls as [|p ps IH]; intros rm; cbn [fold_left]; [split; reflexivity|].
  destruct (IH (updateDailyPnl p rm)) as [H1 H2]. rewrite H1, H2. split; reflexivity.
Qed.

(** X15: the daily-loss breaker follows the running total.  After
    [resetDailyMetrics] and any list of PnL updates, [checkDailyLoss]
    refuses exactly when the total of the updates is negative and its
    magnitude has reached MAX_DAILY_LOSS; the balance passed to it plays
    no part. *)
Theorem dailyLoss_follows_total
    (pnls : list Decimal) (balance : Decimal) (rm : RiskManager) (w : World) :
  let rm' := updateDailyPnls pnls (fst (resetDailyMetrics rm w)) in
  let total := fold_left Qplus pnls 0 in
  dailyPnl rm' = total /\
  (allowed (checkDailyLoss balance rm') = false <->
   total < 0 /\ MAX_DAILY_LOSS (rm_config rm) <= - total) /\
  (allowed (checkDailyLoss balance rm') = false ->
   rc_reason (checkDailyLoss balance rm') = Some (DailyLossReached total)).
Proof.
  cbv zeta.
  destruct (updateDailyPnls_total pnls (fst (resetDailyMetrics rm w))) as [Ht Hc].
  change (dailyPnl (fst (resetDailyMetrics rm w))) with 0 in Ht.
  change (rm_config (fst (resetDailyMetrics rm w))) with (rm_config rm) in Hc.
  split; [exact Ht|].
  unfold checkDailyLoss. rewrite Ht, Hc.
  set (total := fold_left Qplus pnls 0).
  destruct (Qlt_bool total 0) eqn:E1; cbn [andb].
  - apply Qlt_bool_true in E1.
    destruct (Qle_bool (MAX_DAILY_LOSS (rm_config rm)) (Qabs total)) eqn:E2; cbn.
    + apply Qle_bool_iff in E2. rewrite Qabs_neg in E2 by lra.
      split; [|reflexivity]. split; [intros _; split; assumption | reflexivity].
    + split; [|discriminate]. split; [discriminate|]. intros [_ Hle].
      rewrite <- (Qabs_neg total) in Hle by lra.
      apply Qle_bool_iff in Hle. congruence.
  - apply Qlt_bool_false_le in E1. cbn.
    split; [|discriminate]. split; [discriminate|]. intros [Hlt _]. lra.
Qed.


(** ** Position sizing and the statistics helpers *)

(** X17: [calculatePositionSize] never returns more than the signal
    size, whichever inputs are supplied.  With a stop-loss and without
    the three Kelly inputs it is the fixed-fractional size
    min(signalSize, balance x riskPerTrade / stopLoss) for a positive
    stop-loss, with riskPerTrade 2% when not supplied, and
    min(signalSize, 0) for a stop-loss of zero or less. *)
Theorem calculatePositionSize_fixed_fractional
    (signalSize balance stopLoss : Decimal)
    (riskPerTrade winProb winAmount lossAmount : option Decimal) :
  (forall sl, calculatePositionSize signalSize balance riskPerTrade sl
                                    winProb winAmount lossAmount
              <= signalSize) /\
  (winProb = None \/ winAmount = None \/ lossAmount = None ->
   let risk := match riskPerTrade with Some r => r | None => 2 # 100 end in
   (0 < stopLoss ->
    calculatePositionSize signalSize balance riskPerTrade (Some stopLoss)
                          winProb winAmount lossAmount
    == Qmin signalSize (balance * risk / stopLoss)) /\
   (stopLoss <= 0 ->
    calculatePositionSize signalSize balance riskPerTrade (Some stopLoss)
                          winProb winAmount lossAmount
    == Qmin signalSize 0)).
Proof.
  split.
  - intros sl. unfold calculatePositionSize.
    destruct winProb, winAmount, lossAmount, sl; apply Q.le_min_l.
  - intros Hmissing risk.
    assert (Hbranch :
      calculatePositionSize signalSize balance riskPerTrade (Some stopLoss)
                            winProb winAmount lossAmount
      = Qmin signalSize (fixedFractionalSize balance risk stopLoss)).
    { unfold calculatePositionSize.
      destruct winProb, winAmount, lossAmount; try reflexivity.
      destruct Hmissing as [H|[H|H]]; discriminate. }
    rewrite Hbranch. unfold fixedFractionalSize. split; intros Hsl.
    + rewrite Qle_bool_false by exact Hsl.
      rewrite Qabs_pos by lra. reflexivity.
    + apply Qle_bool_iff in Hsl. rewrite Hsl. reflexivity.
Qed.

Lemma Dsqrt_nonneg x : 0 <= Dsqrt x.
Proof.
  unfold Dsqrt, Qle. cbn [Qnum Qden]. rewrite Z.mul_1_r.
  change (0 * Z.pos (10 ^ 20))%Z with 0%Z. apply Z.sqrt_nonneg.
Qed.

Lemma Dsqrt_zero x : x == 0 -> Dsqrt x == 0.
Proof.
  intros H. unfold Dsqrt.
  assert (Hf : Qfloor (x * inject_Z (10 ^ 40)) = 0%Z).
  { rewrite H. reflexivity. }
  rewrite Hf. reflexivity.
Qed.

Lemma fold_sum_zero (f : Decimal -> Decimal) l acc :
  Forall (fun r => f r == 0) l ->
  fold_left (fun sum r => sum + f r) l acc == acc.
Proof.
  revert acc. induction l as [|r l IH]; intros acc H; cbn [fold_left].
  - reflexivity.
  - inversion H as [|? ? Hr Hl]; subst. rewrite (IH _ Hl). rewrite Hr. ring.
Qed.

Lemma stddev_zero_returns returns :
  Forall (fun r => r == 0) returns -> stddev returns == 0.
Proof.
  intros H. unfold stddev. destruct returns as [|r rs] eqn:E; [reflexivity|].
  rewrite <- E in *. clear E r rs.
  set (n := inject_Z (Z.of_nat (length returns))).
  assert (Hsum : Qsum returns == 0).
  { unfold Qsum. apply (fold_sum_zero (fun r => r)). exact H. }
  assert (Hmean : Qsum returns / n == 0).
  { rewrite Hsum. unfold Qdiv. ring. }
  apply Dsqrt_zero.
  assert (Hvar : fold_left (fun sum r => sum + (r - Qsum returns / n) ^ 2) returns 0 == 0).
  { apply (fold_sum_zero (fun r => (r - Qsum returns / n) ^ 2)).
    apply List.Forall_forall. intros r Hr.
    rewrite List.Forall_forall in H. rewrite (H r Hr), Hmean. reflexivity. }
  rewrite Hvar. unfold Qdiv. ring.
Qed.

Lemma simpleReturns_cons prev cur rest :
  simpleReturns (prev :: cur :: rest) =
  if Qlt_bool 0 prev
  then (cur - prev) / prev :: simpleReturns (cur :: rest)
  else simpleReturns (cur :: rest).
Proof. reflexivity. Qed.

Lemma simpleReturns_constant p n :
  Forall (fun r => r == 0) (simpleReturns (repeat p n)).
Proof.
  induction n as [|n IH]; [constructor|].
  destruct n as [|n]; [constructor|].
  change (repeat p (S (S n))) with (p :: p :: repeat p n).
  rewrite simpleReturns_cons. change (p :: repeat p n) with (repeat p (S n)).
  destruct (Qlt_bool 0 p); [|exact IH].
  constructor; [|exact IH]. unfold Qdiv. ring.
Qed.

(** X20: the volatility is never negative, it is 0 for fewer than two
    prices, and it is 0 for a history in which every price is the same
    (whatever the window argument). *)
Theorem calculateVolatility_floor (prices : list Decimal) (window : nat) :
  0 <= calculateVolatility prices window /\
  ((length prices < 2)%nat -> calculateVolatility prices window = 0) /\
  (forall p n, prices = repeat p n -> calculateVolatility prices window == 0).
Proof.
  unfold calculateVolatility. split; [|split].
  - destruct (length prices <? 2)%nat; [lra|].
    unfold stddev. destruct (simpleReturns prices); [lra | apply Dsqrt_nonneg].
  - intros H. apply Nat.ltb_lt in H. rewrite H. reflexivity.
  - intros p n ->. destruct (length (repeat p n) <? 2)%nat; [reflexivity|].
    apply stddev_zero_returns. apply simpleReturns_constant.
Qed.


(** ** The market state store: stored books and bounded tapes *)

(** X21: storing a book and reading it back.  After
    [updateOrderBook(tokenId, book)] the store returns for that token the
    book cut to the first [topN] levels of each side, and every other
    token's book is as before; with [topN] at least 1 the cut book has
    the same best bid and ask, hence the same mid price and spread. *)
Theorem updateOrderBook_roundtrip
    (tokenId : string) (b : OrderBook) (self : MarketStateStore) :
  (1 <= topN (orderBookStore self))%nat ->
  exists stored,
    getOrderBook tokenId (updateOrderBook tokenId b self) = Some stored /\
    ob_bids stored = firstn (topN (orderBookStore self)) (ob_bids b) /\
    ob_asks stored = firstn (topN (orderBookStore self)) (ob_asks b) /\
    (length (ob_bids stored) <= topN (orderBookStore self))%nat /\
    (length (ob_asks stored) <= topN (orderBookStore self))%nat /\
    ob_timestamp stored = ob_timestamp b /\
    calculateMidPrice stored = calculateMidPrice b /\
    calculateSpread stored = calculateSpread b /\
    (forall other, other <> tokenId ->
       getOrderBook other (updateOrderBook tokenId b self)
       = getOrderBook other self).
Proof.
  intros Htop. unfold getOrderBook, updateOrderBook, OrderBookStore_update.
  cbn [orderBookStore books].
  eexists. split; [apply lookup_insert_eq|]. cbn [ob_bids ob_asks ob_timestamp].
  split; [reflexivity|]. split; [reflexivity|].
  split; [apply List.firstn_le_length|]. split; [apply List.firstn_le_length|].
  split; [reflexivity|].
  destruct (topN (orderBookStore self)) as [|n] eqn:En; [lia|].
  split; [|split].
  - unfold calculateMidPrice. cbn [ob_bids ob_asks].
    destruct (ob_bids b), (ob_asks b); reflexivity.
  - unfold calculateSpread. cbn [ob_bids ob_asks].
    destruct (ob_bids b), (ob_asks b); reflexivity.
  - intros other Hne. apply lookup_insert_ne. congruence.
Qed.

Lemma updateOrderBook_roundtrip_witness :
  exists stored,
    getOrderBook "token-1" (updateOrderBook "token-1" test_book newMarketStateStore)
    = Some stored /\
    ob_bids stored = firstn 20 (ob_bids test_book) /\
    ob_asks stored = firstn 20 (ob_asks test_book) /\
    (length (ob_bids stored) <= 20)%nat /\
    (length (ob_asks stored) <= 20)%nat /\
    ob_timestamp stored = ob_timestamp test_book /\
    calculateMidPrice stored = calculateMidPrice test_book /\
    calculateSpread stored = calculateSpread test_book /\
    (forall other, other <> "token-1"%string ->
       getOrderBook other (updateOrderBook "token-1" test_book newMarketStateStore)
       = getOrderBook other newMarketStateStore).
Proof.
  apply (updateOrderBook_roundtrip "token-1" test_book newMarketStateStore).
  cbn. lia.
Defined.

Lemma tl_skipn {A} k (l : list A) : tl (skipn k l) = skipn (S k) l.
Proof.
  revert l. induction k as [|k IH]; intros l.
  - destruct l; reflexivity.
  - destruct l as [|x l]; [reflexivity|]. cbn [skipn]. rewrite IH.
    destruct l; reflexivity.
Qed.

Lemma push_capped_lastn {A} cap (x : A) (l : list A) :
  push_capped cap x (lastn cap l) = lastn cap (l ++ [x]).
Proof.
  unfold push_capped, lastn. rewrite !List.length_app, List.length_skipn. cbn [length].
  destruct (Nat.le_gt_cases (length l + 1) cap) as [Hle|Hgt].
  - replace (length l - cap)%nat with 0%nat by lia.
    replace (length l + 1 - cap)%nat with 0%nat by lia.
    cbn [skipn]. rewrite Nat.sub_0_r.
    assert (E : (cap <? length l + 1)%nat = false) by (apply Nat.ltb_ge; lia).
    rewrite E. reflexivity.
  - assert (E : (cap <? length l - (length l - cap) + 1)%nat = true)
      by (apply Nat.ltb_lt; lia).
    rewrite E.
    replace (length l + 1 - cap)%nat with (S (length l - cap)) by lia.
    rewrite <- tl_skipn. rewrite List.skipn_app.
    replace (length l - cap - length l)%nat with 0%nat by lia.
    reflexivity.
Qed.

Lemma tradesOf_snoc tokenId ts t :
  tradesOf tokenId (ts ++ [t]) =
  tradesOf tokenId ts ++ (if String.eqb (tr_tokenId t) tokenId then [t] else []).
Proof.
  unfold tradesOf. rewrite List.filter_app. cbn [List.filter].
  destruct (String.eqb (tr_tokenId t) tokenId); reflexivity.
Qed.

Lemma addTrades_snoc ts t self :
  addTrades (ts ++ [t]) self = addTrade t (addTrades ts self).
Proof. unfold addTrades. rewrite List.fold_left_app. reflexivity. Qed.

Lemma addTrades_fixed ts self :
  maxTradesPerToken (tradeTapeStore (addTrades ts self))
  = maxTradesPerToken (tradeTapeStore self) /\
  volWindow (addTrades ts self) = volWindow self /\
  orderBookStore (addTrades ts self) = orderBookStore self /\
  emas (addTrades ts self) = emas self.
Proof.
  unfold addTrades. revert self.
  induction ts as [|t ts IH]; intros self; cbn [fold_left]; [repeat split|].
  destruct (IH (addTrade t self)) as (H1 & H2 & H3 & H4).
  rewrite H1, H2, H3, H4. repeat split.
Qed.

Lemma if_traded_snoc {A B} (l : list A) (x : A) (v : B) :
  if_traded (l ++ [x]) v = Some v.
Proof. destruct l; reflexivity. Qed.

(** X22: the trade tape and the price history are bounded FIFO buffers.
    After any trades are added to a fresh store, the tape of a token is
    the last 1000 trades of that token, in arrival order, and its price
    history is the prices of its last 40 trades (twice the volatility
    window); a token that never traded has neither. *)
Theorem addTrades_bounded_fifo (ts : list TradeRecord) (tokenId : string) :
  let s := addTrades ts newMarketStateStore in
  trades (tradeTapeStore s) !! tokenId
  = if_traded (tradesOf tokenId ts) (lastn 1000 (tradesOf tokenId ts)) /\
  priceHistory s !! tokenId
  = if_traded (tradesOf tokenId ts)
              (lastn 40 (List.map tr_price (tradesOf tokenId ts))).
Proof.
  cbv zeta. induction ts as [|t ts IH] using rev_ind.
  - split; reflexivity.
  - rewrite addTrades_snoc, tradesOf_snoc.
    destruct (addTrades_fixed ts newMarketStateStore) as (Hmax & Hvol & _ & _).
    destruct IH as [IHt IHp].
    unfold addTrade, TradeTapeStore_add.
    cbn [tradeTapeStore trades priceHistory]. rewrite Hmax, Hvol.
    change (maxTradesPerToken (tradeTapeStore newMarketStateStore)) with 1000%nat.
    change (volWindow newMarketStateStore * 2)%nat with 40%nat.
    destruct (String.eqb (tr_tokenId t) tokenId) eqn:E.
    + apply String.eqb_eq in E. subst tokenId.
      rewrite !lookup_insert_eq, IHt, IHp, if_traded_snoc, List.map_app.
      cbn [List.map]. rewrite if_traded_snoc.
      destruct (tradesOf (tr_tokenId t) ts) as [|t0 l0] eqn:Ef; cbn [if_traded].
      * split; reflexivity.
      * rewrite <- push_capped_lastn.
        rewrite <- (push_capped_lastn 40 (tr_price t)). split; reflexivity.
    + apply String.eqb_neq in E.
      rewrite !lookup_insert_ne by exact E.
      rewrite app_nil_r. split; assumption.
Qed.

(** Forty-five trades on one token: the history holds the last 40
    prices. *)
Example addTrades_history_example :
  let ts := List.map (fun n => token_trade (inject_Z (Z.of_nat n)) 950)
                     (seq 1 45) in
  option_map (fun h => (length h, List.hd 0 h))
             (priceHistory (addTrades ts newMarketStateStore) !! "token-1"%string)
  = Some (40%nat, 6).
Proof. vm_compute. reflexivity. Qed.


Lemma getDerivedFeatures_inputs tokenId s1 s2 w :
  getOrderBook tokenId s1 = getOrderBook tokenId s2 ->
  trades (tradeTapeStore s1) !! tokenId = trades (tradeTapeStore s2) !! tokenId ->
  priceHistory s1 !! tokenId = priceHistory s2 !! tokenId ->
  emas s1 !! tokenId = emas s2 !! tokenId ->
  emaPeriod s1 = emaPeriod s2 -> volWindow s1 = volWindow s2 ->
  fst (fst (getDerivedFeatures tokenId s1 w)) =
  fst (fst (getDerivedFeatures tokenId s2 w)) /\
  emas (snd (fst (getDerivedFeatures tokenId s1 w))) !! tokenId =
  emas (snd (fst (getDerivedFeatures tokenId s2 w))) !! tokenId.
Proof.
  intros Hb Ht Hh He Hp Hv.
  unfold getDerivedFeatures, getTrades, TradeTapeStore_get.
  rewrite Hb, Ht, Hh, He, Hp, Hv.
  destruct (getOrderBook tokenId s2) as [b|].
  2:{ unfold bind, Date_now, ret. cbn. split; [reflexivity | exact He]. }
  destruct (List.rev _) as [|latest rest].
  - unfold ret. cbn. split; [reflexivity | exact He].
  - destruct (EMA_update _ _) as [v e]. unfold ret. cbn.
    split; [reflexivity|]. rewrite !lookup_insert_eq. reflexivity.
Qed.

(** X23: tokens do not interfere.  A trade added for another token, or a
    book stored for another token, changes neither the features
    [getDerivedFeatures] returns for a token nor the EMA it stores for
    it. *)
Theorem features_ignore_other_tokens
    (tokenId : string) (trade : TradeRecord) (other : string) (b : OrderBook)
    (self : MarketStateStore) (w : World) :
  tr_tokenId trade <> tokenId -> other <> tokenId ->
  let read s := fst (fst (getDerivedFeatures tokenId s w)) in
  let ema s := emas (snd (fst (getDerivedFeatures tokenId s w))) !! tokenId in
  read (addTrade trade self) = read self /\
  ema (addTrade trade self) = ema self /\
  read (updateOrderBook other b self) = read self /\
  ema (updateOrderBook other b self) = ema self.
Proof.
  intros Ht Ho. cbv zeta.
  destruct (getDerivedFeatures_inputs tokenId (addTrade trade self) self w)
    as [H1 H2]; try reflexivity.
  - unfold addTrade, TradeTapeStore_add. cbn [tradeTapeStore trades].
    apply lookup_insert_ne. exact Ht.
  - unfold addTrade. cbn [priceHistory]. apply lookup_insert_ne. exact Ht.
  - destruct (getDerivedFeatures_inputs tokenId (updateOrderBook other b self) self w)
      as [H3 H4]; try reflexivity.
    + unfold getOrderBook, updateOrderBook, OrderBookStore_update.
      cbn [orderBookStore books]. apply lookup_insert_ne. exact Ho.
    + repeat split; assumption.
Qed.

Lemma features_ignore_other_tokens_witness :
  let read s := fst (fst (getDerivedFeatures "token-1" s world0)) in
  let ema s := emas (snd (fst (getDerivedFeatures "token-1" s world0)))
               !! "token-1"%string in
  let trade := {| tr_tokenId := "token-2"; tr_price := 9 # 10; tr_size := 1;
                  tr_side := buy; tr_timestamp := 970 |} in
  read (addTrade trade ema_store) = read ema_store /\
  ema (addTrade trade ema_store) = ema ema_store /\
  read (updateOrderBook "token-2" asks_only_book ema_store) = read ema_store /\
  ema (updateOrderBook "token-2" asks_only_book ema_store) = ema ema_store.
Proof.
  apply (features_ignore_other_tokens "token-1"
           {| tr_tokenId := "token-2"; tr_price := 9 # 10; tr_size := 1;
              tr_side := buy; tr_timestamp := 970 |}
           "token-2" asks_only_book ema_store world0); discriminate.
Defined.


(** ** The paper execution simulator: what a fill records *)

Lemma createFill_fields cfg order price size slippage spreadPaid w :
  let f := fst (createFill cfg order price size slippage spreadPaid w) in
  f_orderId f = oi_id order /\ f_tokenId f = oi_tokenId order /\
  f_side f = oi_side order /\ f_price f = price /\ f_size f = size /\
  f_slippage f = Qabs slippage /\ f_spreadPaid f = Qabs spreadPaid /\
  f_fee f = price * size * feeRate cfg.
Proof. cbn. repeat split. Qed.

Lemma createFill_accounts cfg order price size slippage spreadPaid w :
  fill_accounts cfg order
    (fst (createFill cfg order price size slippage spreadPaid w)).
Proof.
  unfold fill_accounts. cbn [createFill]. unfold bind, randomUUID, Date_now, ret.
  cbn [fst snd f_orderId f_tokenId f_side f_fee f_price f_size f_slippage
       f_spreadPaid].
  repeat split; try reflexivity; apply Qabs_nonneg.
Qed.

Lemma some_fill (c : M Fill) w f w' :
  (let! x := c in ret (Some x)) w = (Some f, w') -> f = fst (c w).
Proof.
  unfold bind, ret. destruct (c w) as [x w1]. intros H. inversion H. reflexivity.
Qed.

Lemma passiveFill_fill cfg order midPrice trade w f w' :
  passiveFill cfg order midPrice trade w = (Some f, w') ->
  fill_accounts cfg order f /\ f_price f = oi_price order /\
  f_size f = oi_size order.
Proof.
  unfold passiveFill. destruct trade as [t|]; [|discriminate].
  destruct (match oi_side order with buy => _ | sell => _ end); [|discriminate].
  unfold bind at 1. unfold Math_random.
  destruct (Qlt_bool _ _); [|discriminate].
  intros H. apply some_fill in H. subst f.
  split; [apply createFill_accounts|]. split; reflexivity.
Qed.

Lemma attemptFill_fill cfg order book trade w f w' :
  attemptFill cfg order book trade w = (Some f, w') ->
  fill_accounts cfg order f /\ fill_within_order order f.
Proof.
  unfold attemptFill, fill_within_order.
  assert (Hpassive : forall m,
    passiveFill cfg order m trade w = (Some f, w') ->
    fill_accounts cfg order f /\
    (f_size f <= oi_size order /\
     (oi_type order = limit ->
      match oi_side order with
      | buy => f_price f <= oi_price order
      | sell => oi_price order <= f_price f
      end))).
  { intros m H. apply passiveFill_fill in H. destruct H as (Ha & Hp & Hs).
    split; [exact Ha|]. rewrite Hp, Hs. split; [apply Qle_refl|].
    intros _. destruct (oi_side order); apply Qle_refl. }
  destruct (oi_type order).
  - unfold fillLimitOrder. destruct (calculateMidPrice book) as [m|]; [|discriminate].
    destruct (oi_side order) eqn:Eside; destruct (ob_asks book) as [|a asks];
      destruct (ob_bids book) as [|b bids]; try apply Hpassive.
    all: destruct (Qle_bool _ _) eqn:Ecross; [|apply Hpassive].
    all: intros H; apply some_fill in H; subst f.
    all: split; [apply createFill_accounts|].
    all: cbn [createFill]; unfold bind, randomUUID, Date_now, ret;
      cbn [fst snd f_size f_price].
    all: split; [apply Q.le_min_l | intros _; apply Qle_bool_iff; exact Ecross].
  - unfold fillMarketOrder.
    destruct (oi_side order); [destruct (ob_asks book)|destruct (ob_bids book)];
      try discriminate.
    all: intros H; apply some_fill in H; subst f.
    all: split; [apply createFill_accounts|].
    all: cbn [createFill]; unfold bind, randomUUID, Date_now, ret;
      cbn [fst snd f_size f_price].
    all: split; [apply Q.le_min_l | discriminate].
Qed.

Lemma processMarketUpdate_fill_order tokenId book trade self w f :
  In f (fst (fst (processMarketUpdate tokenId book trade self w))) ->
  exists orderId order w1 w2,
    In (orderId, order) (openOrders self) /\ oi_tokenId order = tokenId /\
    attemptFill (config self) order book trade w1 = (Some f, w2).
Proof.
  rewrite processMarketUpdate_fills.
  destruct (processOrders (config self) tokenId book trade (openOrders self) w)
    as [[[rest' newFills] rm] w'] eqn:E.
  destruct (processOrders_fill_origin _ _ _ _ _ _ _ _ _ _ E) as (_ & _ & Hf).
  intros Hin. destruct (Hf f Hin) as (k & o & w1 & w2 & Hk & Ht & Ha & _).
  exists k, o, w1, w2. repeat split; assumption.
Qed.

(** X24: every fill [processMarketUpdate] returns is for the updated
    token and comes from one open order of that token, whose id and side
    it carries; its fee is price x size x feeRate, and its slippage and
    spreadPaid are never negative. *)
Theorem fills_account_for_their_order
    (tokenId : string) (book : OrderBook) (trade : option TradeRecord)
    (self : PaperExecutionSim) (w : World) :
  Forall (fun f =>
            f_tokenId f = tokenId /\
            exists orderId order,
              In (orderId, order) (openOrders self) /\
              fill_accounts (config self) order f)
         (fst (fst (processMarketUpdate tokenId book trade self w))).
Proof.
  apply List.Forall_forall. intros f Hin.
  destruct (processMarketUpdate_fill_order _ _ _ _ _ _ Hin)
    as (k & o & w1 & w2 & Hk & Ht & Ha).
  apply attemptFill_fill in Ha. destruct Ha as [Hacc _].
  split.
  - destruct Hacc as (_ & Htok & _). congruence.
  - exists k, o. split; assumption.
Qed.

(** X25: no fill exceeds its order.  The size of every fill returned by
    [processMarketUpdate] is at most the size its order had when the call
    began, and a limit order is never filled at a worse price than its
    limit: a buy at or below it, a sell at or above it. *)
Theorem fills_stay_within_their_order
    (tokenId : string) (book : OrderBook) (trade : option TradeRecord)
    (self : PaperExecutionSim) (w : World) :
  Forall (fun f =>
            exists orderId order,
              In (orderId, order) (openOrders self) /\
              f_orderId f = oi_id order /\
              fill_within_order order f)
         (fst (fst (processMarketUpdate tokenId book trade self w))).
Proof.
  apply List.Forall_forall. intros f Hin.
  destruct (processMarketUpdate_fill_order _ _ _ _ _ _ Hin)
    as (k & o & w1 & w2 & Hk & Ht & Ha).
  apply attemptFill_fill in Ha. destruct Ha as [(Hid & _) Hwithin].
  exists k, o. repeat split; try assumption; apply Hwithin.
Qed.


(** ** The paper execution simulator: the open orders *)

Lemma js_get_set_id {V} k (v : V) m p :
  js_get String.eqb p (js_set String.eqb k v m) =
  if String.eqb k p then Some v else js_get String.eqb p m.
Proof.
  induction m as [|[k' v'] m IH]; simpl; [reflexivity|].
  destruct (String.eqb k' k) eqn:E1; simpl.
  - apply String.eqb_eq in E1. subst k'. destruct (String.eqb k p); reflexivity.
  - destruct (String.eqb k' p) eqn:E2; [|exact IH].
    apply String.eqb_eq in E2. subst k'. rewrite String.eqb_sym, E1. reflexivity.
Qed.

Lemma js_get_delete_id {V} k (m : list (string * V)) p :
  js_get String.eqb p (js_delete String.eqb k m) =
  if String.eqb k p then None else js_get String.eqb p m.
Proof.
  induction m as [|[k' v'] m IH]; simpl.
  - destruct (String.eqb k p); reflexivity.
  - destruct (String.eqb k' k) eqn:E1; simpl.
    + apply String.eqb_eq in E1. subst k'. rewrite IH.
      destruct (String.eqb k p); reflexivity.
    + destruct (String.eqb k' p) eqn:E2; [|exact IH].
      apply String.eqb_eq in E2. subst k'. rewrite String.eqb_sym, E1. reflexivity.
Qed.

Lemma js_get_deletes {V} ks (m : list (string * V)) p :
  js_get String.eqb p
    (fold_left (fun m k => js_delete String.eqb k m) ks m) =
  if existsb (String.eqb p) ks then None else js_get String.eqb p m.
Proof.
  revert m. induction ks as [|k ks IH]; intros m; simpl; [reflexivity|].
  rewrite IH, js_get_delete_id, (String.eqb_sym p k).
  destruct (String.eqb k p); simpl; [|reflexivity].
  destruct (existsb _ ks); reflexivity.
Qed.

Lemma js_get_In {V} k (v : V) m :
  js_get String.eqb k m = Some v -> In (k, v) m.
Proof.
  induction m as [|[k' v'] m IH]; simpl; [discriminate|].
  destruct (String.eqb k' k) eqn:E.
  - apply String.eqb_eq in E. intros H. inversion H. subst. left. reflexivity.
  - intros H. right. apply IH. exact H.
Qed.

Lemma js_get_unique {V} k (v : V) m :
  List.NoDup (js_keys m) -> In (k, v) m -> js_get String.eqb k m = Some v.
Proof.
  induction m as [|[k' v'] m IH]; simpl; intros Hnd Hin; [destruct Hin|].
  inversion Hnd as [|? ? Hnot Hnd']; subst.
  destruct Hin as [Heq|Hin].
  - inversion Heq; subst. rewrite String.eqb_refl. reflexivity.
  - destruct (String.eqb k' k) eqn:E; [|apply IH; assumption].
    apply String.eqb_eq in E. subst k'. exfalso. apply Hnot.
    apply (in_map fst) in Hin. exact Hin.
Qed.

Lemma js_keys_set {V} k (v : V) m :
  js_keys (js_set String.eqb k v m) =
  if js_has String.eqb k m then js_keys m else js_keys m ++ [k].
Proof.
  unfold js_has. induction m as [|[k' v'] m IH]; simpl; [reflexivity|].
  destruct (String.eqb k' k) eqn:E; simpl; [reflexivity|].
  change (List.map fst (js_set String.eqb k v m))
    with (js_keys (js_set String.eqb k v m)).
  rewrite IH. destruct (js_get String.eqb k m); reflexivity.
Qed.

Lemma js_has_keys {V} k (m : list (string * V)) :
  js_has String.eqb k m = true <-> In k (js_keys m).
Proof.
  unfold js_has. induction m as [|[k' v'] m IH]; simpl.
  - split; [discriminate | intros []].
  - destruct (String.eqb k' k) eqn:E.
    + apply String.eqb_eq in E. split; [left; exact E | reflexivity].
    + rewrite IH. split; [right; assumption|].
      intros [Heq|Hin]; [|exact Hin].
      subst k'. rewrite String.eqb_refl in E. discriminate.
Qed.

Lemma js_keys_delete {V} k (m : list (string * V)) :
  js_keys (js_delete String.eqb k m) =
  List.filter (fun k' => negb (String.eqb k' k)) (js_keys m).
Proof.
  induction m as [|[k' v'] m IH]; simpl; [reflexivity|].
  destruct (String.eqb k' k); simpl; [exact IH|].
  change (List.map fst (js_delete String.eqb k m))
    with (js_keys (js_delete String.eqb k m)).
  rewrite IH. reflexivity.
Qed.

Lemma js_delete_In {V} k (m : list (string * V)) x :
  In x (js_delete String.eqb k m) -> In x m.
Proof.
  induction m as [|[k' v'] m IH]; simpl; [intros []|].
  destruct (String.eqb k' k); simpl.
  - intros H. right. apply IH. exact H.
  - intros [H|H]; [left; exact H | right; apply IH; exact H].
Qed.

Lemma js_delete_absent {V} k (m : list (string * V)) :
  js_has String.eqb k m = false -> js_delete String.eqb k m = m.
Proof.
  unfold js_has. induction m as [|[k' v'] m IH]; simpl; [reflexivity|].
  destruct (String.eqb k' k); [discriminate|].
  intros H. rewrite IH; [reflexivity | exact H].
Qed.

Lemma js_set_In {V} k (v : V) m x :
  In x (js_set String.eqb k v m) -> x = (k, v) \/ In x m.
Proof.
  induction m as [|[k' v'] m IH]; simpl.
  - intros [H|[]]. left. symmetry. exact H.
  - destruct (String.eqb k' k) eqn:E; simpl.
    + apply String.eqb_eq in E. subst k'.
      intros [H|H]; [left; symmetry; exact H | right; right; exact H].
    + intros [H|H]; [right; left; exact H|].
      destruct (IH H) as [H1|H1]; [left; exact H1 | right; right; exact H1].
Qed.

Lemma sim_ok_deletes ks (m : list (string * OrderIntent)) :
  List.NoDup (js_keys m) /\ Forall (fun kv => oi_id (snd kv) = fst kv) m ->
  let m' := fold_left (fun m k => js_delete String.eqb k m) ks m in
  List.NoDup (js_keys m') /\ Forall (fun kv => oi_id (snd kv) = fst kv) m'.
Proof.
  revert m. induction ks as [|k ks IH]; intros m [Hnd Hid]; simpl.
  - split; assumption.
  - apply IH. split.
    + rewrite js_keys_delete. apply List.NoDup_filter. exact Hnd.
    + apply List.Forall_forall. intros x Hx. apply js_delete_In in Hx.
      rewrite List.Forall_forall in Hid. apply Hid. exact Hx.
Qed.

(** What the loop of [processMarketUpdate] does to one entry: the keys
    stay as they are and in place, and each entry is left as it was, or
    marked for removal, or has its size reduced by its fill. *)
Lemma processOrders_entries cfg tokenId book trade entries :
  forall w entries' newFills ordersToRemove w',
    processOrders cfg tokenId book trade entries w
    = (entries', newFills, ordersToRemove, w') ->
    js_keys entries' = js_keys entries /\
    (Forall (fun kv => oi_id (snd kv) = fst kv) entries ->
     Forall (fun kv => oi_id (snd kv) = fst kv) entries' /\
     Forall (fun f => In (f_orderId f) (js_keys entries)) newFills) /\
    Forall (fun k => In k (js_keys entries)) ordersToRemove.
Proof.
  induction entries as [|[k o] rest IH]; intros w entries' newFills rm w' H.
  - cbn in H. unfold ret in H. inversion H; subst.
    split; [reflexivity|]. split; [|constructor].
    intros _. split; constructor.
  - rewrite processOrders_cons in H.
    destruct (negb (String.eqb (oi_tokenId o) tokenId)) eqn:Etok.
    + destruct (processOrders cfg tokenId book trade rest w)
        as [[[r1 nf1] rm1] w1] eqn:E.
      inversion H; subst. destruct (IH _ _ _ _ _ E) as (Hk & Hid & Hrm).
      split; [unfold js_keys in *; simpl; congruence|].
      split.
      * intros Hall. inversion Hall as [|? ? Hhd Htl]; subst.
        destruct (Hid Htl) as [Hid1 Hid2]. split.
        -- constructor; assumption.
        -- eapply List.Forall_impl; [|exact Hid2]. intros f Hf. right. exact Hf.
      * eapply List.Forall_impl; [|exact Hrm]. intros x Hx. right. exact Hx.
    + destruct (attemptFill cfg o book trade w) as [fill w1] eqn:Ea.
      destruct (processOrders cfg tokenId book trade rest w1)
        as [[[r1 nf1] rm1] w2] eqn:E.
      destruct (IH _ _ _ _ _ E) as (Hk & Hid & Hrm).
      assert (Hrm' : Forall (fun k0 => In k0 (js_keys ((k, o) :: rest))) rm1).
      { eapply List.Forall_impl; [|exact Hrm]. intros x Hx. right. exact Hx. }
      assert (Hnf : Forall (fun kv => oi_id (snd kv) = fst kv) ((k, o) :: rest) ->
                    Forall (fun f => In (f_orderId f) (js_keys ((k, o) :: rest))) nf1).
      { intros Hall. inversion Hall as [|? ? Hhd Htl]; subst.
        destruct (Hid Htl) as [_ Hid2].
        eapply List.Forall_impl; [|exact Hid2]. intros f Hf. right. exact Hf. }
      destruct fill as [f0|].
      * apply attemptFill_fill in Ea. destruct Ea as [(Hfid & _) _].
        destruct (Qle_bool (oi_size o - f_size f0) 0); inversion H; subst.
        -- split; [unfold js_keys in *; simpl; congruence|]. split.
           ++ intros Hall. split.
              ** inversion Hall as [|? ? Hhd Htl]; subst.
                 constructor; [exact Hhd | apply Hid; exact Htl].
              ** constructor; [|apply Hnf; exact Hall].
                 inversion Hall as [|? ? Hhd Htl]; subst. simpl in Hhd.
                 left. simpl. congruence.
           ++ constructor; [left; reflexivity | exact Hrm'].
        -- split; [unfold js_keys in *; simpl; congruence|]. split.
           ++ intros Hall. split.
              ** inversion Hall as [|? ? Hhd Htl]; subst.
                 constructor; [exact Hhd | apply Hid; exact Htl].
              ** constructor; [|apply Hnf; exact Hall].
                 inversion Hall as [|? ? Hhd Htl]; subst. simpl in Hhd.
                 left. simpl. congruence.
           ++ exact Hrm'.
      * inversion H; subst.
        split; [unfold js_keys in *; simpl; congruence|]. split.
        -- intros Hall. split; [|apply Hnf; exact Hall].
           inversion Hall as [|? ? Hhd Htl]; subst.
           constructor; [exact Hhd | apply Hid; exact Htl].
        -- exact Hrm'.
Qed.

Lemma processMarketUpdate_orders tokenId book trade self w :
  openOrders (snd (fst (processMarketUpdate tokenId book trade self w))) =
  let r := processOrders (config self) tokenId book trade (openOrders self) w in
  fold_left (fun m orderId => js_delete String.eqb orderId m)
            (snd (fst r)) (fst (fst (fst r))).
Proof.
  unfold processMarketUpdate, bind, ret.
  destruct (processOrders _ _ _ _ _ _) as [[[? ?] ?] ?]. reflexivity.
Qed.

Lemma deletes_keys {V} ks (m : list (string * V)) k :
  In k (js_keys (fold_left (fun m k => js_delete String.eqb k m) ks m)) ->
  In k (js_keys m).
Proof.
  revert m. induction ks as [|k0 ks IH]; intros m; simpl; [auto|].
  intros H. apply IH in H. rewrite js_keys_delete in H.
  apply List.filter_In in H. apply H.
Qed.

(** X26: the simulator keeps its open orders well formed and invents no
    order.  When every open order is stored once, under its own id, this
    is still so after [placeOrder], after [cancelOrder] and after
    [processMarketUpdate]; and the ids open after [processMarketUpdate]
    were all open before it. *)
Theorem open_orders_stay_well_formed
    (self : PaperExecutionSim) (intent : OrderIntent) (orderId tokenId : string)
    (book : OrderBook) (trade : option TradeRecord) (w : World) :
  sim_ok self ->
  sim_ok (placeOrder intent self) /\
  sim_ok (snd (cancelOrder orderId self)) /\
  let after := snd (fst (processMarketUpdate tokenId book trade self w)) in
  sim_ok after /\
  incl (js_keys (openOrders after)) (js_keys (openOrders self)).
Proof.
  intros [Hnd Hid]. split; [|split].
  - unfold sim_ok, placeOrder. cbn [openOrders]. split.
    + rewrite js_keys_set. destruct (js_has _ _ _) eqn:E; [exact Hnd|].
      apply List.NoDup_app.
      * exact Hnd.
      * repeat constructor. intros [].
      * intros x Hx [Heq|[]]. subst x. apply js_has_keys in Hx. congruence.
    + apply List.Forall_forall. intros x Hx. apply js_set_In in Hx.
      destruct Hx as [->|Hx]; [reflexivity|].
      rewrite List.Forall_forall in Hid. apply Hid. exact Hx.
  - unfold sim_ok, cancelOrder. cbn [snd openOrders].
    apply (sim_ok_deletes [orderId]). split; assumption.
  - cbv zeta. unfold sim_ok. rewrite processMarketUpdate_orders. cbv zeta.
    destruct (processOrders (config self) tokenId book trade (openOrders self) w)
      as [[[entries' newFills] rm] w'] eqn:E. cbn [fst snd].
    destruct (processOrders_entries _ _ _ _ _ _ _ _ _ _ E) as (Hk & Hid' & _).
    split.
    + apply sim_ok_deletes. split; [rewrite Hk; exact Hnd | apply Hid'; exact Hid].
    + intros k Hin. apply deletes_keys in Hin. rewrite <- Hk. exact Hin.
Qed.

Lemma open_orders_stay_well_formed_witness :
  let self := sim_with (order1 buy (52 # 100) 50 limit) in
  sim_ok (placeOrder passive_order self) /\
  sim_ok (snd (cancelOrder "order-1" self)) /\
  let after := snd (fst (processMarketUpdate "token-1" test_book None self world0)) in
  sim_ok after /\
  incl (js_keys (openOrders after)) (js_keys (openOrders self)).
Proof.
  apply (open_orders_stay_well_formed
           (sim_with (order1 buy (52 # 100) 50 limit)) passive_order
           "order-1" "token-1" test_book None world0).
  split.
  - repeat constructor. intros [].
  - repeat constructor.
Defined.


Lemma fillsOf_foreign k fs :
  Forall (fun f => f_orderId f <> k) fs -> fillsOf k fs = [].
Proof.
  unfold fillsOf. induction fs as [|f fs IH]; intros H; [reflexivity|].
  inversion H as [|? ? Hf Hfs]; subst. cbn [List.filter].
  destruct (String.eqb (f_orderId f) k) eqn:E.
  - apply String.eqb_eq in E. contradiction.
  - apply IH. exact Hfs.
Qed.

Lemma processOrders_entry cfg tokenId book trade entries :
  forall w entries' newFills ordersToRemove w',
    processOrders cfg tokenId book trade entries w
    = (entries', newFills, ordersToRemove, w') ->
    List.NoDup (js_keys entries) ->
    Forall (fun kv => oi_id (snd kv) = fst kv) entries ->
    forall k o, In (k, o) entries ->
      exists w1,
        entry_outcome o
          (if negb (String.eqb (oi_tokenId o) tokenId) then None
           else fst (attemptFill cfg o book trade w1))
          (fillsOf k newFills) (js_get String.eqb k entries')
          (In k ordersToRemove).
Proof.
  induction entries as [|[k0 o0] rest IH];
    intros w entries' newFills rm w' H Hnd Hid k o Hin; [destruct Hin|].
  change (js_keys ((k0, o0) :: rest)) with (k0 :: js_keys rest) in Hnd.
  apply List.NoDup_cons_iff in Hnd. destruct Hnd as [Hnot Hnd'].
  apply List.Forall_cons_iff in Hid. destruct Hid as [Hhd Hid'].
  cbn [fst snd] in Hhd.
  rewrite processOrders_cons in H.
  assert (Hrest : forall w1 r1 nf1 rm1 w2,
            processOrders cfg tokenId book trade rest w1 = (r1, nf1, rm1, w2) ->
            Forall (fun f => f_orderId f <> k0) nf1 /\ ~ In k0 rm1).
  { intros w1 r1 nf1 rm1 w2 E.
    destruct (processOrders_entries _ _ _ _ _ _ _ _ _ _ E) as (_ & Hf & Hrm).
    destruct (Hf Hid') as [_ Hnf]. split.
    - eapply List.Forall_impl; [|exact Hnf]. cbv beta. intros f Hf1 Heq.
      apply Hnot. rewrite <- Heq. exact Hf1.
    - intros Hk. rewrite List.Forall_forall in Hrm. apply Hnot. apply Hrm. exact Hk. }
  destruct Hin as [Heq|Hin].
  - (* the entry at the head *)
    injection Heq as -> ->.
    destruct (negb (String.eqb (oi_tokenId o) tokenId)) eqn:Etok.
    + destruct (processOrders cfg tokenId book trade rest w)
        as [[[r1 nf1] rm1] w1] eqn:E.
      destruct (Hrest _ _ _ _ _ E) as [Hnf Hrm].
      inversion H; subst. exists w. cbn [entry_outcome js_get].
      rewrite String.eqb_refl, fillsOf_foreign by exact Hnf.
      repeat split. exact Hrm.
    + exists w.
      destruct (attemptFill cfg o book trade w) as [fill w1] eqn:Ea.
      destruct (processOrders cfg tokenId book trade rest w1)
        as [[[r1 nf1] rm1] w2] eqn:E.
      destruct (Hrest _ _ _ _ _ E) as [Hnf Hrm].
      cbn [fst]. destruct fill as [f0|].
      * apply attemptFill_fill in Ea. destruct Ea as [(Hfid & _) _].
        assert (Hmine : fillsOf k (f0 :: nf1) = [f0]).
        { unfold fillsOf. cbn [List.filter].
          replace (String.eqb (f_orderId f0) k) with true
            by (symmetry; apply String.eqb_eq; congruence).
          f_equal. apply fillsOf_foreign. exact Hnf. }
        cbn [entry_outcome].
        destruct (Qle_bool (oi_size o - f_size f0) 0); inversion H; subst.
        -- split; [exact Hmine | left; reflexivity].
        -- split; [exact Hmine|]. cbn [js_get]. rewrite String.eqb_refl.
           split; [reflexivity | exact Hrm].
      * inversion H; subst. cbn [entry_outcome js_get].
        rewrite String.eqb_refl, fillsOf_foreign by exact Hnf.
        repeat split. exact Hrm.
  - (* an entry further down *)
    assert (Hne : String.eqb k0 k = false).
    { destruct (String.eqb k0 k) eqn:E; [|reflexivity].
      apply String.eqb_eq in E. exfalso. apply Hnot. rewrite E.
      apply (in_map fst) in Hin. exact Hin. }
    assert (Hne' : k0 <> k).
    { intros ->. rewrite String.eqb_refl in Hne. discriminate. }
    assert (Hstep : forall w1 r1 nf1 rm1 w2 o0' (f0s : list Fill) (k0s : list string),
              processOrders cfg tokenId book trade rest w1 = (r1, nf1, rm1, w2) ->
              Forall (fun f => f_orderId f = k0) f0s ->
              Forall (fun x => x = k0) k0s ->
              exists w3,
                entry_outcome o
                  (if negb (String.eqb (oi_tokenId o) tokenId) then None
                   else fst (attemptFill cfg o book trade w3))
                  (fillsOf k (f0s ++ nf1))
                  (js_get String.eqb k ((k0, o0') :: r1))
                  (In k (k0s ++ rm1))).
    { intros w1 r1 nf1 rm1 w2 o0' f0s k0s E Hf0 Hk0.
      destruct (IH _ _ _ _ _ E Hnd' Hid' k o Hin) as [w3 Hout].
      exists w3. cbn [js_get]. rewrite Hne.
      assert (Hfs : fillsOf k (f0s ++ nf1) = fillsOf k nf1).
      { unfold fillsOf. rewrite List.filter_app.
        change (List.filter (fun f => String.eqb (f_orderId f) k) f0s)
          with (fillsOf k f0s).
        rewrite fillsOf_foreign; [reflexivity|].
        eapply List.Forall_impl; [|exact Hf0]. cbv beta. congruence. }
      assert (Hks : In k (k0s ++ rm1) <-> In k rm1).
      { rewrite in_app_iff. split; [|right; assumption].
        intros [Hk|Hk]; [|exact Hk].
        rewrite List.Forall_forall in Hk0. apply Hk0 in Hk. congruence. }
      rewrite Hfs. unfold entry_outcome in *.
      destruct (if negb (String.eqb (oi_tokenId o) tokenId) then None
                else fst (attemptFill cfg o book trade w3)) as [f|].
      - destruct Hout as [Hm Hout]. split; [exact Hm|].
        destruct (Qle_bool (oi_size o - f_size f) 0).
        + apply Hks. exact Hout.
        + destruct Hout as [Hs Hr]. split; [exact Hs|]. rewrite Hks. exact Hr.
      - destruct Hout as (Hm & Hs & Hr). repeat split; try assumption.
        rewrite Hks. exact Hr. }
    destruct (negb (String.eqb (oi_tokenId o0) tokenId)) eqn:Etok.
    + destruct (processOrders cfg tokenId book trade rest w)
        as [[[r1 nf1] rm1] w1] eqn:E.
      injection H as <- <- <- <-.
      apply (Hstep _ _ _ _ _ o0 [] [] E); constructor.
    + destruct (attemptFill cfg o0 book trade w) as [fill w1] eqn:Ea.
      destruct (processOrders cfg tokenId book trade rest w1)
        as [[[r1 nf1] rm1] w2] eqn:E.
      destruct fill as [f0|].
      * apply attemptFill_fill in Ea. destruct Ea as [(Hfid & _) _].
        destruct (Qle_bool (oi_size o0 - f_size f0) 0); injection H as <- <- <- <-.
        -- apply (Hstep _ _ _ _ _ o0 [f0] [k0] E); repeat constructor.
           congruence.
        -- apply (Hstep _ _ _ _ _ (set_size o0 (oi_size o0 - f_size f0)) [f0] [] E);
             repeat constructor. congruence.
      * injection H as <- <- <- <-.
        apply (Hstep _ _ _ _ _ o0 [] [] E); constructor.
Qed.

(** X27: what one market update does to an open order.  In a simulator
    whose open orders are stored once each under their own id, an order
    of another token gets no fill and stays as it is; an order of the
    updated token gets no fill and stays as it is, or gets exactly one
    fill: of its whole size, and then it is no longer open, or of less,
    and then it stays open with its size reduced by the fill. *)
Theorem order_lifecycle
    (tokenId : string) (book : OrderBook) (trade : option TradeRecord)
    (self : PaperExecutionSim) (w : World) (k : string) (o : OrderIntent) :
  sim_ok self -> In (k, o) (openOrders self) ->
  let r := processMarketUpdate tokenId book trade self w in
  let mine := fillsOf k (fst (fst r)) in
  let stored := js_get String.eqb k (openOrders (snd (fst r))) in
  (oi_tokenId o <> tokenId -> mine = [] /\ stored = Some o) /\
  ((mine = [] /\ stored = Some o) \/
   exists f, mine = [f] /\
     ((f_size f == oi_size o /\ stored = None) \/
      (f_size f < oi_size o /\
       stored = Some (set_size o (oi_size o - f_size f))))).
Proof.
  intros [Hnd Hid] Hin. cbv zeta.
  rewrite processMarketUpdate_orders, processMarketUpdate_fills. cbv zeta.
  destruct (processOrders (config self) tokenId book trade (openOrders self) w)
    as [[[entries' newFills] rm] w'] eqn:E. cbn [fst snd].
  destruct (processOrders_entry _ _ _ _ _ _ _ _ _ _ E Hnd Hid k o Hin) as [w1 Hout].
  rewrite js_get_deletes.
  assert (Hrm : existsb (String.eqb k) rm = true <-> In k rm).
  { rewrite existsb_exists. split.
    - intros (x & Hx & Heq). apply String.eqb_eq in Heq. subst x. exact Hx.
    - intros Hk. exists k. split; [exact Hk | apply String.eqb_refl]. }
  assert (Hkeep : ~ In k rm -> existsb (String.eqb k) rm = false).
  { intros Hk. destruct (existsb (String.eqb k) rm) eqn:Ex; [|reflexivity].
    exfalso. apply Hk. apply Hrm. reflexivity. }
  unfold entry_outcome in Hout. split.
  - intros Hne. apply String.eqb_neq in Hne. rewrite Hne in Hout. cbn in Hout.
    destruct Hout as (Hm & Hs & Hr). rewrite (Hkeep Hr). split; assumption.
  - destruct (negb (String.eqb (oi_tokenId o) tokenId)).
    { destruct Hout as (Hm & Hs & Hr). rewrite (Hkeep Hr). left. split; assumption. }
    destruct (attemptFill (config self) o book trade w1) as [[f|] w2] eqn:Ea;
      cbn [fst] in Hout.
    2:{ destruct Hout as (Hm & Hs & Hr). rewrite (Hkeep Hr). left. split; assumption. }
    right. exists f. destruct Hout as [Hm Hout]. split; [exact Hm|].
    apply attemptFill_fill in Ea. destruct Ea as [_ [Hsize _]].
    destruct (Qle_bool (oi_size o - f_size f) 0) eqn:Erem.
    + left. apply Hrm in Hout. rewrite Hout. split; [|reflexivity].
      apply Qle_bool_iff in Erem. apply Qle_antisym; [exact Hsize | lra].
    + right. destruct Hout as [Hs Hr]. rewrite (Hkeep Hr). split; [|exact Hs].
      assert (Hpos : ~ oi_size o - f_size f <= 0).
      { intros Hc. apply Qle_bool_iff in Hc. congruence. }
      apply Qnot_le_lt in Hpos. lra.
Qed.

Lemma order_lifecycle_witness :
  let o := order1 buy (52 # 100) 200 limit in
  let r := processMarketUpdate "token-1" test_book None (sim_with o) world0 in
  let mine := fillsOf "order-1" (fst (fst r)) in
  let stored := js_get String.eqb "order-1" (openOrders (snd (fst r))) in
  (oi_tokenId o <> "token-1"%string -> mine = [] /\ stored = Some o) /\
  ((mine = [] /\ stored = Some o) \/
   exists f, mine = [f] /\
     ((f_size f == oi_size o /\ stored = None) \/
      (f_size f < oi_size o /\
       stored = Some (set_size o (oi_size o - f_size f))))).
Proof.
  apply (order_lifecycle "token-1" test_book None
           (sim_with (order1 buy (52 # 100) 200 limit)) world0 "order-1"
           (order1 buy (52 # 100) 200 limit)).
  - split; repeat constructor. intros [].
  - left. reflexivity.
Defined.

(** A buy of 200 against 150 offered at the best ask: one fill of 150,
    and the order stays open for the remaining 50. *)
Example order_lifecycle_partial_fill :
  let o := order1 buy (52 # 100) 200 limit in
  let r := processMarketUpdate "token-1" test_book None (sim_with o) world0 in
  List.map f_size (fst (fst r)) = [Qmin 200 150] /\
  List.map (fun x => Qeq_bool (oi_size x) 50) (getOpenOrders (snd (fst r)))
  = [true].
Proof. split; reflexivity. Qed.


Lemma js_get_absent {V} k (m : list (string * V)) :
  ~ In k (js_keys m) -> js_get String.eqb k m = None.
Proof.
  intros Hnot. destruct (js_get String.eqb k m) as [v|] eqn:E; [|reflexivity].
  exfalso. apply Hnot. apply js_get_In in E. apply (in_map fst) in E. exact E.
Qed.

(** X28: [cancelOrder] closes the order for good.  It answers whether the
    id was open; when it was not, the simulator is left exactly as it
    was; afterwards the id is not open, every other order is stored as
    before, the recorded fills are the same, and no fill of the next
    market update carries the cancelled id. *)
Theorem cancelOrder_closes_order
    (orderId : string) (self : PaperExecutionSim) (tokenId : string)
    (book : OrderBook) (trade : option TradeRecord) (w : World) :
  sim_ok self ->
  let r := cancelOrder orderId self in
  (fst r = true <-> In orderId (js_keys (openOrders self))) /\
  (fst r = false -> snd r = self) /\
  js_get String.eqb orderId (openOrders (snd r)) = None /\
  (forall k, k <> orderId ->
     js_get String.eqb k (openOrders (snd r)) =
     js_get String.eqb k (openOrders self)) /\
  getFills (snd r) = getFills self /\
  Forall (fun f => f_orderId f <> orderId)
         (fst (fst (processMarketUpdate tokenId book trade (snd r) w))).
Proof.
  intros Hok. cbv zeta. unfold cancelOrder. cbn [fst snd openOrders].
  split; [apply js_has_keys|]. split; [|split; [|split; [|split]]].
  - intros Habs. rewrite js_delete_absent by exact Habs.
    destruct self; reflexivity.
  - rewrite js_get_delete_id, String.eqb_refl. reflexivity.
  - intros k Hne. rewrite js_get_delete_id.
    destruct (String.eqb orderId k) eqn:E; [|reflexivity].
    apply String.eqb_eq in E. congruence.
  - reflexivity.
  - apply List.Forall_forall. intros f Hin.
    destruct (processMarketUpdate_fill_order _ _ _ _ _ _ Hin)
      as (k & o & w1 & w2 & Hk & _ & Ha).
    cbn [openOrders config] in Hk, Ha.
    apply attemptFill_fill in Ha. destruct Ha as [(Hfid & _) _].
    destruct Hok as [_ Hid]. rewrite List.Forall_forall in Hid.
    pose proof (js_delete_In _ _ _ Hk) as Hk'.
    specialize (Hid _ Hk'). cbn [fst snd] in Hid.
    apply (in_map fst) in Hk.
    change (List.map fst (js_delete String.eqb orderId (openOrders self)))
      with (js_keys (js_delete String.eqb orderId (openOrders self))) in Hk.
    rewrite js_keys_delete in Hk. apply List.filter_In in Hk.
    destruct Hk as [_ Hk]. cbn [fst] in Hk.
    apply negb_true_iff in Hk. apply String.eqb_neq in Hk. congruence.
Qed.

Lemma cancelOrder_closes_order_witness :
  let self := placeOrder passive_order
                (sim_with (order1 buy (52 # 100) 50 limit)) in
  let r := cancelOrder "order-1" self in
  (fst r = true <-> In "order-1"%string (js_keys (openOrders self))) /\
  (fst r = false -> snd r = self) /\
  js_get String.eqb "order-1" (openOrders (snd r)) = None /\
  (forall k, k <> "order-1"%string ->
     js_get String.eqb k (openOrders (snd r)) =
     js_get String.eqb k (openOrders self)) /\
  getFills (snd r) = getFills self /\
  Forall (fun f => f_orderId f <> "order-1"%string)
         (fst (fst (processMarketUpdate "token-1" test_book None (snd r) world0))).
Proof.
  apply (cancelOrder_closes_order "order-1"
           (placeOrder passive_order (sim_with (order1 buy (52 # 100) 50 limit)))
           "token-1" test_book None world0).
  split.
  - vm_compute. repeat constructor; simpl; intuition discriminate.
  - vm_compute. repeat constructor.
Defined.

Lemma markToMarket_fold tokenId midPrice k entries :
  List.NoDup (js_keys entries) ->
  Forall (fun kv => oi_id (snd kv) = fst kv) entries ->
  forall mtm,
    js_get String.eqb k
      (fold_left
         (fun mtm order =>
            if negb (String.eqb (oi_tokenId order) tokenId) then mtm
            else
              let unrealizedPnl :=
                match oi_side order with
                | buy => (midPrice - oi_price order) * oi_size order
                | sell => (oi_price order - midPrice) * oi_size order
                end in
              js_set String.eqb (oi_id order) unrealizedPnl mtm)
         (js_values entries) mtm) =
    match js_get String.eqb k entries with
    | Some order =>
        if String.eqb (oi_tokenId order) tokenId then
          Some match oi_side order with
               | buy => (midPrice - oi_price order) * oi_size order
               | sell => (oi_price order - midPrice) * oi_size order
               end
        else js_get String.eqb k mtm
    | None => js_get String.eqb k mtm
    end.
Proof.
  induction entries as [|[k0 o0] rest IH]; intros Hnd Hid mtm; [reflexivity|].
  change (js_keys ((k0, o0) :: rest)) with (k0 :: js_keys rest) in Hnd.
  apply List.NoDup_cons_iff in Hnd. destruct Hnd as [Hnot Hnd'].
  apply List.Forall_cons_iff in Hid. destruct Hid as [Hhd Hid'].
  cbn [fst snd] in Hhd.
  cbn [js_values List.map snd fold_left js_get].
  change (List.map snd rest) with (js_values rest).
  rewrite (IH Hnd' Hid'). cbv zeta.
  destruct (String.eqb k0 k) eqn:E.
  - apply String.eqb_eq in E. subst k.
    rewrite (js_get_absent _ _ Hnot).
    destruct (String.eqb (oi_tokenId o0) tokenId); cbn [negb]; [|reflexivity].
    rewrite js_get_set_id, Hhd, String.eqb_refl. reflexivity.
  - assert (Hsame :
      js_get String.eqb k
        (if negb (String.eqb (oi_tokenId o0) tokenId) then mtm
         else js_set String.eqb (oi_id o0)
                (match oi_side o0 with
                 | buy => (midPrice - oi_price o0) * oi_size o0
                 | sell => (oi_price o0 - midPrice) * oi_size o0
                 end) mtm) = js_get String.eqb k mtm).
    { destruct (negb (String.eqb (oi_tokenId o0) tokenId)); [reflexivity|].
      rewrite js_get_set_id, Hhd, E. reflexivity. }
    rewrite Hsame. reflexivity.
Qed.

(** X29: [markToMarket] marks exactly the open orders of the token, and
    only when the book has a mid price.  With every open order stored
    once under its own id, the entry under an id is
    (mid - price) x size for an open buy of that token,
    (price - mid) x size for an open sell, and absent otherwise; with an
    empty side of the book the result is empty. *)
Theorem markToMarket_lookup
    (tokenId : string) (book : OrderBook) (self : PaperExecutionSim)
    (k : string) :
  sim_ok self ->
  (calculateMidPrice book = None -> markToMarket tokenId book self = []) /\
  js_get String.eqb k (markToMarket tokenId book self) =
  match calculateMidPrice book, js_get String.eqb k (openOrders self) with
  | Some midPrice, Some order =>
      if String.eqb (oi_tokenId order) tokenId then
        Some match oi_side order with
             | buy => (midPrice - oi_price order) * oi_size order
             | sell => (oi_price order - midPrice) * oi_size order
             end
      else None
  | _, _ => None
  end.
Proof.
  intros [Hnd Hid]. unfold markToMarket.
  destruct (calculateMidPrice book) as [midPrice|].
  - split; [discriminate|]. 
    etransitivity; [exact (markToMarket_fold tokenId midPrice k _ Hnd Hid [])|].
    destruct (js_get String.eqb k (openOrders self)) as [o|]; [|reflexivity].
    destruct (String.eqb (oi_tokenId o) tokenId); reflexivity.
  - split; reflexivity.
Qed.

Lemma markToMarket_lookup_witness :
  let self := sim_with passive_order in
  (calculateMidPrice test_book = None ->
   markToMarket "token-1" test_book self = []) /\
  js_get String.eqb (oi_id passive_order)
         (markToMarket "token-1" test_book self) =
  match calculateMidPrice test_book,
        js_get String.eqb (oi_id passive_order) (openOrders self) with
  | Some midPrice, Some order =>
      if String.eqb (oi_tokenId order) "token-1" then
        Some match oi_side order with
             | buy => (midPrice - oi_price order) * oi_size order
             | sell => (oi_price order - midPrice) * oi_size order
             end
      else None
  | _, _ => None
  end.
Proof.
  apply (markToMarket_lookup "token-1" test_book (sim_with passive_order)
           (oi_id passive_order)).
  split.
  - vm_compute. repeat constructor. intros [].
  - vm_compute. repeat constructor.
Defined.


(** ** The risk gate: what [gateSignal] reads and writes *)

Lemma checkOrderRate_frame rm w :
  set_orderWindow (snd (fst (checkOrderRate rm w)))
                  (orderCount rm) (orderWindowStart rm) = rm.
Proof.
  destruct rm. unfold checkOrderRate, bind, Date_now, ret.
  destruct (1000 <? _)%Z; destruct (Qle_bool _ _); reflexivity.
Qed.

Lemma gateSignal_cases signal currentPositions balance self w d self' w' :
  gateSignal signal currentPositions balance self w = (d, self', w') ->
  let rate := checkOrderRate (riskManager self) w in
  gi_signal d = signal /\
  ((self' = self /\ w' = w) \/
   (self' = with_riskManager self (snd (fst rate)) /\
    (w' = snd rate \/ w' = snd (Date_now (snd rate))))).
Proof.
  intros H. cbv zeta.
  unfold gateSignal, bind, ret, checkKillSwitch, existsSync in H.
  destruct (w_exists w _);
    [injection H as <- <- <-; split; [reflexivity | left; split; reflexivity]|].
  destruct (negb (allowed (checkDailyLoss _ _)));
    [injection H as <- <- <-; split; [reflexivity | left; split; reflexivity]|].
  destruct (negb (allowed (checkPositionLimit _ _ _ _ _)));
    [injection H as <- <- <-; split; [reflexivity | left; split; reflexivity]|].
  destruct (negb (allowed (checkGrossExposure _ _)));
    [injection H as <- <- <-; split; [reflexivity | left; split; reflexivity]|].
  destruct (Qlt_bool _ _);
    [injection H as <- <- <-; split; [reflexivity | left; split; reflexivity]|].
  destruct (checkOrderRate (riskManager self) w) as [[rateCheck rm'] w1].
  cbn [fst snd].
  destruct (negb (allowed rateCheck));
    [injection H as <- <- <-;
     split; [reflexivity | right; split; [reflexivity | left; reflexivity]]|].
  destruct (lastPriceUpdate (with_riskManager self rm') !! sig_tokenId signal)
    as [lastUpdate|];
    [|injection H as <- <- <-;
      split; [reflexivity | right; split; [reflexivity | left; reflexivity]]].
  destruct (lastUpdate =? 0)%Z;
    [injection H as <- <- <-;
     split; [reflexivity | right; split; [reflexivity | left; reflexivity]]|].
  unfold Date_now in H |- *. cbn [fst snd] in H |- *.
  destruct (_ <? _)%Z; injection H as <- <- <-;
    (split; [reflexivity | right; split; [reflexivity | right; reflexivity]]).
Qed.

(** X12: the footprint of [gateSignal].  It returns the signal it was
    given.  Of the gate it changes at most the order counter and the
    start of the order window of the risk manager: the gate's
    configuration, the recorded price-feed times and every other field
    of the risk manager are as before.  The world is left as it was
    but for the clock, which is read at most twice. *)
Theorem gateSignal_footprint
    (signal : Signal) (currentPositions : list (string * Position))
    (balance : Decimal) (self : RiskGate) (w : World) :
  let '(d, self', w') := gateSignal signal currentPositions balance self w in
  gi_signal d = signal /\
  rg_config self' = rg_config self /\
  lastPriceUpdate self' = lastPriceUpdate self /\
  set_orderWindow (riskManager self')
                  (orderCount (riskManager self))
                  (orderWindowStart (riskManager self)) = riskManager self /\
  (w' = w \/ w' = snd (Date_now w) \/ w' = snd (Date_now (snd (Date_now w)))).
Proof.
  destruct (gateSignal signal currentPositions balance self w)
    as [[d self'] w'] eqn:G.
  apply gateSignal_cases in G. cbv zeta in G.
  destruct G as [Hd [[-> ->]|[-> Hw]]].
  - split; [exact Hd|]. split; [reflexivity|]. split; [reflexivity|].
    split; [destruct (riskManager self); reflexivity | left; reflexivity].
  - split; [exact Hd|]. split; [reflexivity|]. split; [reflexivity|].
    split; [apply checkOrderRate_frame|].
    rewrite checkOrderRate_world in Hw. right. exact Hw.
Qed.

Lemma gateSignal_reads signal1 signal2 currentPositions balance self1 self2 w
    d1 s1 w1 d2 s2 w2 :
  sig_tokenId signal1 = sig_tokenId signal2 ->
  sig_marketId signal1 = sig_marketId signal2 ->
  sig_size signal1 = sig_size signal2 ->
  riskManager self1 = riskManager self2 ->
  lastPriceUpdate self1 = lastPriceUpdate self2 ->
  maxNetExposure (rg_config self1) = maxNetExposure (rg_config self2) ->
  staleFeedMs (rg_config self1) = staleFeedMs (rg_config self2) ->
  gateSignal signal1 currentPositions balance self1 w = (d1, s1, w1) ->
  gateSignal signal2 currentPositions balance self2 w = (d2, s2, w2) ->
  gated d1 = gated d2 /\ gateReasons d1 = gateReasons d2 /\
  riskManager s1 = riskManager s2 /\ w1 = w2.
Proof.
  intros Ht Hm Hs Hr Hl Hn Hst H1 H2.
  unfold gateSignal, marketId_or_unknown, with_riskManager in H1, H2.
  cbn [riskManager rg_config lastPriceUpdate] in H1, H2.
  rewrite <- Ht, <- Hm, <- Hs, <- Hr, <- Hl, <- Hn, <- Hst in H2.
  unfold bind, ret, checkKillSwitch, existsSync in H1, H2.
  destruct (w_exists w _);
    [injection H1 as <- <- <-; injection H2 as <- <- <-; repeat split; assumption|].
  destruct (negb (allowed (checkDailyLoss _ _)));
    [injection H1 as <- <- <-; injection H2 as <- <- <-; repeat split; assumption|].
  destruct (negb (allowed (checkPositionLimit _ _ _ _ _)));
    [injection H1 as <- <- <-; injection H2 as <- <- <-; repeat split; assumption|].
  destruct (negb (allowed (checkGrossExposure _ _)));
    [injection H1 as <- <- <-; injection H2 as <- <- <-; repeat split; assumption|].
  destruct (Qlt_bool _ _);
    [injection H1 as <- <- <-; injection H2 as <- <- <-; repeat split; assumption|].
  destruct (checkOrderRate (riskManager self1) w) as [[rateCheck rm'] w0].
  destruct (negb (allowed rateCheck));
    [injection H1 as <- <- <-; injection H2 as <- <- <-; repeat split|].
  destruct (lastPriceUpdate self1 !! sig_tokenId signal1) as [lastUpdate|];
    [|injection H1 as <- <- <-; injection H2 as <- <- <-; repeat split].
  destruct (lastUpdate =? 0)%Z;
    [injection H1 as <- <- <-; injection H2 as <- <- <-; repeat split|].
  unfold Date_now in H1, H2. cbn [fst snd] in H1, H2.
  destruct (_ <? _)%Z;
    injection H1 as <- <- <-; injection H2 as <- <- <-; repeat split.
Qed.

(** X30: what the verdict of [gateSignal] depends on.  Of the signal it
    reads the token, the market id and the size only (not the side, the
    limit price, the edge or the confidence), and of the gate's own
    configuration only maxNetExposure and staleFeedMs: its
    maxPositionPerToken, maxGrossExposure, maxDailyLoss and maxDrawdown
    are never consulted (the limits applied are those of the risk
    manager).  Two calls that agree on what is read give the same
    verdict, the same reasons, the same risk manager and the same
    world. *)
Theorem gateSignal_verdict_depends_on
    (signal1 signal2 : Signal) (currentPositions : list (string * Position))
    (balance : Decimal) (self1 self2 : RiskGate) (w : World) :
  sig_tokenId signal1 = sig_tokenId signal2 ->
  sig_marketId signal1 = sig_marketId signal2 ->
  sig_size signal1 = sig_size signal2 ->
  riskManager self1 = riskManager self2 ->
  lastPriceUpdate self1 = lastPriceUpdate self2 ->
  maxNetExposure (rg_config self1) = maxNetExposure (rg_config self2) ->
  staleFeedMs (rg_config self1) = staleFeedMs (rg_config self2) ->
  let '(d1, self1', w1) := gateSignal signal1 currentPositions balance self1 w in
  let '(d2, self2', w2) := gateSignal signal2 currentPositions balance self2 w in
  gated d1 = gated d2 /\ gateReasons d1 = gateReasons d2 /\
  riskManager self1' = riskManager self2' /\ w1 = w2.
Proof.
  intros Ht Hm Hs Hr Hl Hn Hst.
  destruct (gateSignal signal1 currentPositions balance self1 w)
    as [[d1 s1] w1] eqn:G1.
  destruct (gateSignal signal2 currentPositions balance self2 w)
    as [[d2 s2] w2] eqn:G2.
  exact (gateSignal_reads _ _ _ _ _ _ _ _ _ _ _ _ _ Ht Hm Hs Hr Hl Hn Hst G1 G2).
Qed.

Lemma gateSignal_verdict_depends_on_witness :
  let '(d1, self1', w1) :=
    gateSignal sample_signal sample_positions 1000 (sample_gate 0) world0 in
  let '(d2, self2', w2) :=
    gateSignal sample_signal_sell sample_positions 1000
               (sample_gate_zero_limits 0) world0 in
  gated d1 = gated d2 /\ gateReasons d1 = gateReasons d2 /\
  riskManager self1' = riskManager self2' /\ w1 = w2.
Proof.
  apply (gateSignal_verdict_depends_on sample_signal sample_signal_sell
           sample_positions 1000 (sample_gate 0) (sample_gate_zero_limits 0)
           world0); reflexivity.
Defined.


(** * decimal.js rounding *)

(** ** The decimal exponent *)

Lemma pow10_pos (e : Z) : 0 < 10 ^ e.
Proof. apply Qpower_0_lt. reflexivity. Qed.

Lemma pow10_succ (e : Z) : 10 ^ (e + 1) == 10 ^ e * 10.
Proof. rewrite Qpower_plus by discriminate. reflexivity. Qed.

Lemma pow10_mono (n m : Z) : (n <= m)%Z -> 10 ^ n <= 10 ^ m.
Proof. intros H. apply Qpower_le_compat_l; [exact H | discriminate]. Qed.

Lemma exponent_from_spec (fuel : nat) :
  forall e x,
    x < 10 ^ (e + 1) -> 10 ^ (e - Z.of_nat fuel) <= x ->
    10 ^ Rounded.exponent_from fuel e x <= x /\
    x < 10 ^ (Rounded.exponent_from fuel e x + 1).
Proof.
  induction fuel as [|fuel IH]; intros e x Hup Hlow.
  - cbn [Rounded.exponent_from]. split; [|exact Hup].
    replace (e - Z.of_nat 0)%Z with e in Hlow by lia. exact Hlow.
  - cbn [Rounded.exponent_from].
    destruct (Qle_bool (10 ^ e) x) eqn:E.
    + apply Qle_bool_iff in E. split; assumption.
    + apply IH.
      * replace (e - 1 + 1)%Z with e by lia.
        apply Qnot_le_lt. intros Hc. apply Qle_bool_iff in Hc. congruence.
      * replace (e - 1 - Z.of_nat fuel)%Z with (e - Z.of_nat (S fuel))%Z by lia.
        exact Hlow.
Qed.

Lemma two_le_ten_pow (k : Z) : (0 <= k)%Z -> (2 ^ k <= 10 ^ k)%Z.
Proof. intros Hk. apply Z.pow_le_mono_l. lia. Qed.

Lemma exponent_spec (x : Q) :
  0 < x ->
  10 ^ Rounded.exponent x <= x /\ x < 10 ^ (Rounded.exponent x + 1).
Proof.
  intros Hx. unfold Rounded.exponent.
  destruct x as [n d]. cbn [Qnum Qden].
  assert (Hn : (0 < n)%Z).
  { unfold Qlt in Hx. cbn in Hx. lia. }
  pose proof (Z.log2_nonneg n) as Hln.
  pose proof (Z.log2_nonneg (Zpos d)) as Hld.
  destruct (Z.log2_spec n Hn) as [_ Hnup].
  destruct (Z.log2_spec (Zpos d) (Pos2Z.is_pos d)) as [_ Hdup].
  apply exponent_from_spec.
  - (* n/d <= n < 2^(log2 n + 1) <= 10^(log2 n + 1) <= 10^(hi + 1) *)
    apply Qlt_le_trans with (inject_Z (10 ^ (Z.log2 n + 1))).
    + unfold Qlt, inject_Z. cbn [Qnum Qden].
      pose proof (two_le_ten_pow (Z.log2 n + 1) ltac:(lia)) as H2.
      replace (Z.succ (Z.log2 n)) with (Z.log2 n + 1)%Z in Hnup by lia.
      nia.
    + rewrite Zpower_Qpower by lia.
      change (inject_Z 10) with 10. apply pow10_mono. lia.
  - (* 10^lo = / 10^(log2 d + 1) <= 1/d <= n/d *)
    rewrite Z2Nat.id by lia.
    replace (Z.log2 n + 1 - (Z.log2 n + 1 - - (Z.log2 (Z.pos d) + 1)))%Z
      with (- (Z.log2 (Z.pos d) + 1))%Z by lia.
    rewrite Qpower_opp.
    apply Qle_shift_inv_r; [apply pow10_pos|].
    change (10 ^ (Z.log2 (Z.pos d) + 1))
      with (inject_Z 10 ^ (Z.log2 (Z.pos d) + 1)).
    rewrite <- Zpower_Qpower by lia.
    unfold Qle, Qmult, inject_Z. cbn [Qnum Qden].
    pose proof (two_le_ten_pow (Z.log2 (Z.pos d) + 1) ltac:(lia)) as H2.
    replace (Z.succ (Z.log2 (Z.pos d))) with (Z.log2 (Z.pos d) + 1)%Z in Hdup by lia.
    rewrite Pos.mul_1_r. nia.
Qed.

(** ** One rounded operation *)

Lemma Qabs_opp_eq (x : Q) : Qabs (- x) = Qabs x.
Proof. destruct x as [n d]. cbn. rewrite Z.abs_opp. reflexivity. Qed.

Lemma Qabs_pos_eq (x : Q) : 0 <= x -> Qabs x = x.
Proof.
  destruct x as [n d]. unfold Qle. cbn. intros H.
  rewrite Z.abs_eq by lia. reflexivity.
Qed.

Lemma Qeq_bool_pos (x : Q) : 0 < x -> Qeq_bool x 0 = false.
Proof.
  intros H. destruct (Qeq_bool x 0) eqn:E; [|reflexivity].
  apply Qeq_bool_iff in E. rewrite E in H. discriminate H.
Qed.

Lemma round_pos_eq (x : Q) :
  0 < x ->
  Rounded.round x =
  inject_Z (Qfloor (x * 10 ^ (19 - Rounded.exponent x) + (1 # 2)))
  / 10 ^ (19 - Rounded.exponent x).
Proof.
  intros Hx. unfold Rounded.round, Rounded.precision.
  rewrite (Qeq_bool_pos x Hx), (Qabs_pos_eq x (Qlt_le_weak _ _ Hx)).
  replace (Qle_bool 0 x) with true
    by (symmetry; apply Qle_bool_iff; apply Qlt_le_weak; exact Hx).
  reflexivity.
Qed.

Lemma round_neg_eq (x : Q) : x < 0 -> Rounded.round x = - Rounded.round (- x).
Proof.
  intros Hx.
  assert (Hopp : 0 < - x) by lra.
  rewrite (round_pos_eq (- x) Hopp).
  unfold Rounded.round, Rounded.precision.
  assert (E0 : Qeq_bool x 0 = false).
  { destruct (Qeq_bool x 0) eqn:E; [|reflexivity].
    apply Qeq_bool_iff in E. rewrite E in Hx. discriminate Hx. }
  assert (E1 : Qle_bool 0 x = false).
  { destruct (Qle_bool 0 x) eqn:E; [|reflexivity].
    apply Qle_bool_iff in E. lra. }
  rewrite E0, E1.
  rewrite <- (Qabs_opp_eq x), (Qabs_pos_eq (- x) (Qlt_le_weak _ _ Hopp)).
  reflexivity.
Qed.

Lemma round_zero (x : Q) : x == 0 -> Rounded.round x = 0.
Proof.
  intros H. unfold Rounded.round.
  replace (Qeq_bool x 0) with true by (symmetry; apply Qeq_bool_iff; exact H).
  reflexivity.
Qed.

(** A positive value keeps 20 digits: scaled, it lies in [10^19, 10^20),
    and the rounded value is within half a unit of it. *)
Lemma round_pos_bounds (x : Q) :
  0 < x ->
  x * (1 - half_ulp) <= Rounded.round x /\
  Rounded.round x <= x * (1 + half_ulp) /\
  0 < Rounded.round x.
Proof.
  intros Hx. rewrite (round_pos_eq x Hx).
  destruct (exponent_spec x Hx) as [Hlow _].
  set (e := Rounded.exponent x) in *.
  set (s := 10 ^ (19 - e)).
  assert (Hs : 0 < s) by apply pow10_pos.
  assert (H19 : 10000000000000000000 <= x * s).
  { assert (Hp : 10 ^ e * s == 10000000000000000000).
    { unfold s. rewrite <- Qpower_plus by discriminate.
      replace (e + (19 - e))%Z with 19%Z by lia. reflexivity. }
    rewrite <- Hp. apply Qmult_le_r; assumption. }
  set (t := x * s) in *.
  pose proof (Qfloor_le (t + (1 # 2))) as Hfl.
  pose proof (Qlt_floor (t + (1 # 2))) as Hfu.
  rewrite inject_Z_plus in Hfu. change (inject_Z 1) with 1 in Hfu.
  set (m := inject_Z (Qfloor (t + (1 # 2)))) in *.
  unfold half_ulp.
  split; [|split].
  - apply Qle_shift_div_l; [exact Hs|].
    assert (Heq : x * (1 - (1 # 20000000000000000000)) * s
                  == t * (1 - (1 # 20000000000000000000))) by (unfold t; ring).
    rewrite Heq. lra.
  - apply Qle_shift_div_r; [exact Hs|].
    assert (Heq : x * (1 + (1 # 20000000000000000000)) * s
                  == t * (1 + (1 # 20000000000000000000))) by (unfold t; ring).
    rewrite Heq. lra.
  - apply Qlt_shift_div_l; [exact Hs|]. lra.
Qed.

Lemma round_sign (x : Q) :
  (0 < x -> 0 < Rounded.round x) /\
  (x < 0 -> Rounded.round x < 0) /\
  (0 <= x -> 0 <= Rounded.round x) /\
  (x <= 0 -> Rounded.round x <= 0).
Proof.
  assert (Hp : forall y, 0 < y -> 0 < Rounded.round y)
    by (intros y Hy; apply round_pos_bounds; exact Hy).
  assert (Hn : forall y, y < 0 -> Rounded.round y < 0).
  { intros y Hy. rewrite (round_neg_eq y Hy).
    assert (H := Hp (- y) ltac:(lra)). lra. }
  split; [apply Hp|]. split; [apply Hn|]. split; intros H.
  - destruct (Qlt_le_dec 0 x) as [H1|H1]; [apply Qlt_le_weak, Hp, H1|].
    rewrite round_zero by lra. apply Qle_refl.
  - destruct (Qlt_le_dec x 0) as [H1|H1]; [apply Qlt_le_weak, Hn, H1|].
    rewrite round_zero by lra. apply Qle_refl.
Qed.

(** The relative error of one rounding is at most half a unit in the
    20th significant digit. *)
Lemma round_error (x : Q) :
  Qabs (Rounded.round x - x) <= half_ulp * Qabs x.
Proof.
  destruct (Q_dec x 0) as [[Hneg|Hpos]|Hz].
  - rewrite (round_neg_eq x Hneg).
    destruct (round_pos_bounds (- x) ltac:(lra)) as (H1 & H2 & _).
    rewrite (Qabs_neg x) by lra.
    apply Qabs_Qle_condition. unfold half_ulp in *. lra.
  - destruct (round_pos_bounds x Hpos) as (H1 & H2 & _).
    rewrite (Qabs_pos x) by lra.
    apply Qabs_Qle_condition. unfold half_ulp in *. lra.
  - rewrite (round_zero x Hz), Hz. cbn. discriminate.
Qed.

Lemma round_nonneg_bounds (x : Q) :
  0 <= x ->
  x * (1 - half_ulp) <= Rounded.round x /\
  Rounded.round x <= x * (1 + half_ulp).
Proof.
  intros H. destruct (Qlt_le_dec 0 x) as [H1|H1].
  - destruct (round_pos_bounds x H1) as (Ha & Hb & _). split; assumption.
  - assert (Hz : x == 0) by lra. rewrite (round_zero x Hz).
    unfold half_ulp. split; lra.
Qed.

(** Rounding never leaves the decade of a positive value: powers of ten
    are kept. *)
Lemma round_pos_decade (x : Q) :
  0 < x ->
  10 ^ Rounded.exponent x <= Rounded.round x /\
  Rounded.round x <= 10 ^ (Rounded.exponent x + 1).
Proof.
  intros Hx. rewrite (round_pos_eq x Hx).
  destruct (exponent_spec x Hx) as [Hlow Hup].
  set (e := Rounded.exponent x) in *.
  set (s := 10 ^ (19 - e)).
  assert (Hs : 0 < s) by apply pow10_pos.
  assert (Hp : 10 ^ e * s == 10000000000000000000).
  { unfold s. rewrite <- Qpower_plus by discriminate.
    replace (e + (19 - e))%Z with 19%Z by lia. reflexivity. }
  assert (Hp' : 10 ^ (e + 1) * s == 100000000000000000000).
  { rewrite pow10_succ.
    assert (Hc : 10 ^ e * 10 * s == 10 ^ e * s * 10) by ring.
    rewrite Hc, Hp. reflexivity. }
  assert (H19 : 10000000000000000000 <= x * s).
  { rewrite <- Hp. apply Qmult_le_r; assumption. }
  assert (H20 : x * s < 100000000000000000000).
  { rewrite <- Hp'. apply Qmult_lt_r; assumption. }
  set (t := x * s) in *.
  pose proof (Qfloor_le (t + (1 # 2))) as Hfl.
  pose proof (Qlt_floor (t + (1 # 2))) as Hfu.
  rewrite inject_Z_plus in Hfu. change (inject_Z 1) with 1 in Hfu.
  set (m := Qfloor (t + (1 # 2))) in *.
  assert (Hm1 : (10000000000000000000 <= m)%Z).
  { assert (H : inject_Z (10000000000000000000 - 1) < inject_Z m).
    { change (inject_Z (10000000000000000000 - 1)) with 9999999999999999999. lra. }
    rewrite <- Zlt_Qlt in H. lia. }
  assert (Hm2 : (m <= 100000000000000000000)%Z).
  { assert (H : inject_Z m < inject_Z (100000000000000000000 + 1)).
    { change (inject_Z (100000000000000000000 + 1)) with 100000000000000000001. lra. }
    rewrite <- Zlt_Qlt in H. lia. }
  rewrite Zle_Qle in Hm1, Hm2.
  change (inject_Z 10000000000000000000) with 10000000000000000000 in Hm1.
  change (inject_Z 100000000000000000000) with 100000000000000000000 in Hm2.
  split.
  - apply Qle_shift_div_l; [exact Hs|]. rewrite Hp. exact Hm1.
  - apply Qle_shift_div_r; [exact Hs|]. rewrite Hp'. exact Hm2.
Qed.

Lemma round_ge_one (x : Q) : 1 <= x -> 1 <= Rounded.round x.
Proof.
  intros Hx. assert (Hpos : 0 < x) by lra.
  destruct (round_pos_decade x Hpos) as [Hlow _].
  destruct (exponent_spec x Hpos) as [_ Hup].
  apply Qle_trans with (10 ^ Rounded.exponent x); [|exact Hlow].
  change 1 with (10 ^ 0). apply pow10_mono.
  destruct (Z_lt_le_dec (Rounded.exponent x) 0) as [Hneg|Hok]; [|exact Hok].
  exfalso.
  assert (H : 10 ^ (Rounded.exponent x + 1) <= 10 ^ 0)
    by (apply pow10_mono; lia).
  change (10 ^ 0) with 1 in H. lra.
Qed.

Lemma round_le_one (x : Q) : 0 < x -> x <= 1 -> Rounded.round x <= 1.
Proof.
  intros Hpos Hx.
  destruct (round_pos_decade x Hpos) as [_ Hup].
  destruct (exponent_spec x Hpos) as [Hlow _].
  destruct (Z_lt_le_dec (Rounded.exponent x) 0) as [Hneg|Hok].
  - apply Qle_trans with (10 ^ (Rounded.exponent x + 1)); [exact Hup|].
    change 1 with (10 ^ 0). apply pow10_mono. lia.
  - (* 1 <= 10^e <= x <= 1: x is 1 *)
    assert (H : 10 ^ 0 <= 10 ^ Rounded.exponent x) by (apply pow10_mono; lia).
    change (10 ^ 0) with 1 in H.
    destruct (round_pos_bounds x Hpos) as (_ & Hb & _).
    assert (Hone : x == 1) by lra.
    assert (He : Rounded.exponent x = 0%Z).
    { destruct (Z.eq_dec (Rounded.exponent x) 0%Z) as [E|E]; [exact E|].
      exfalso.
      assert (H1 : 10 ^ 1 <= 10 ^ Rounded.exponent x) by (apply pow10_mono; lia).
      change (10 ^ 1) with 10 in H1. lra. }
    rewrite (round_pos_eq x Hpos), He.
    apply Qle_shift_div_r; [apply pow10_pos|].
    change (10 ^ (19 - 0)) with 10000000000000000000.
    assert (Hf : (Qfloor (x * 10000000000000000000 + (1 # 2))
                  <= 10000000000000000000)%Z).
    { assert (Hlt : inject_Z (Qfloor (x * 10000000000000000000 + (1 # 2)))
                    < inject_Z (10000000000000000000 + 1)).
      { pose proof (Qfloor_le (x * 10000000000000000000 + (1 # 2))) as Hfl.
        change (inject_Z (10000000000000000000 + 1)) with 10000000000000000001.
        lra. }
      rewrite <- Zlt_Qlt in Hlt. lia. }
    rewrite Zle_Qle in Hf.
    change (inject_Z 10000000000000000000) with 10000000000000000000 in Hf.
    lra.
Qed.

(** ** The Kelly fraction, as decimal.js computes it *)

Lemma clamp_range (k : Q) : 0 <= Qmax 0 (Qmin 1 k) /\ Qmax 0 (Qmin 1 k) <= 1.
Proof.
  split; [apply Q.le_max_l|].
  apply Q.max_lub; [discriminate | apply Q.le_min_l].
Qed.

Lemma clamp_nonpos (k : Q) : k <= 0 -> Qmax 0 (Qmin 1 k) == 0.
Proof.
  intros H. apply Q.max_l. apply Qle_trans with k; [apply Q.le_min_r | exact H].
Qed.

Lemma clamp_ge_one (k : Q) : 1 <= k -> Qmax 0 (Qmin 1 k) == 1.
Proof.
  intros H. rewrite (Q.min_l 1 k H). apply Q.max_r. discriminate.
Qed.

Lemma clamp_le (k c : Q) : 0 <= c -> k <= c -> Qmax 0 (Qmin 1 k) <= c.
Proof.
  intros Hc H. apply Q.max_lub; [exact Hc|].
  apply Qle_trans with k; [apply Q.le_min_r | exact H].
Qed.

Lemma kelly_guard_false (winAmount lossAmount : Q) :
  0 < winAmount -> 0 < lossAmount ->
  Qle_bool lossAmount 0 || Qle_bool winAmount 0 = false.
Proof.
  intros Hw Hl. rewrite !Qle_bool_false by assumption. reflexivity.
Qed.

(** X16: the Kelly fraction is always between 0 and 1; it is 0 when an
    amount is zero or negative, 0 for a win probability of zero or less
    and 1 for a win probability of one or more.  A bet with no edge
    (p x winAmount <= (1 - p) x lossAmount) gets a fraction of at most
    2 units in the 19th decimal place: the three rounded operations can
    leave a residue where the exact formula gives 0 or less. *)
Theorem kellyFraction_range (winProb winAmount lossAmount : Decimal) :
  let k := Rounded.kellyFraction winProb winAmount lossAmount in
  0 <= k /\ k <= 1 /\
  (winAmount <= 0 \/ lossAmount <= 0 -> k = 0) /\
  (0 < winAmount -> 0 < lossAmount ->
   (winProb <= 0 -> k == 0) /\
   (1 <= winProb -> k == 1) /\
   (winProb * winAmount <= (1 - winProb) * lossAmount ->
    k <= 4 * half_ulp)).
Proof.
  cbv zeta. unfold Rounded.kellyFraction.
  split; [|split; [|split]].
  - destruct (_ || _); [discriminate | apply clamp_range].
  - destruct (_ || _); [discriminate | apply clamp_range].
  - intros [H|H]; apply Qle_bool_iff in H; rewrite H;
      [rewrite orb_true_r|]; reflexivity.
  - intros Hw Hl. rewrite (kelly_guard_false _ _ Hw Hl).
    unfold Rounded.minus, Rounded.div.
    set (q := Rounded.round (1 - winProb)).
    set (b := Rounded.round (winAmount / lossAmount)).
    set (c := Rounded.round (q / b)).
    assert (Hratio : 0 < winAmount / lossAmount).
    { apply Qlt_shift_div_l; [exact Hl | lra]. }
    assert (Hb : 0 < b) by (apply round_sign; exact Hratio).
    destruct (round_pos_bounds _ Hratio) as (_ & Hbup & _). fold b in Hbup.
    split; [|split].
    + (* p <= 0: q >= 1, q/b > 0, p - c < 0 *)
      intros Hp. apply clamp_nonpos.
      assert (Hq : 0 < q) by (apply round_sign; lra).
      assert (Hqb : 0 < q / b) by (apply Qlt_shift_div_l; [exact Hb | lra]).
      assert (Hc : 0 < c) by (apply round_sign; exact Hqb).
      apply round_sign. lra.
    + (* p >= 1: q <= 0, q/b <= 0, p - c >= 1 *)
      intros Hp. apply clamp_ge_one.
      assert (Hq : q <= 0) by (apply round_sign; lra).
      assert (Hqb : q / b <= 0).
      { apply Qle_shift_div_r; [exact Hb | lra]. }
      assert (Hc : c <= 0) by (apply round_sign; exact Hqb).
      apply round_ge_one. lra.
    + (* no edge *)
      intros Hedge.
      destruct (Qlt_le_dec 0 winProb) as [Hp|Hp].
      2:{ apply clamp_le; [unfold half_ulp; lra|].
          assert (Hq : 0 < q) by (apply round_sign; lra).
          assert (Hqb : 0 < q / b) by (apply Qlt_shift_div_l; [exact Hb | lra]).
          assert (Hc : 0 < c) by (apply round_sign; exact Hqb).
          assert (Hk : Rounded.round (winProb - c) <= 0) by (apply round_sign; lra).
          unfold half_ulp. lra. }
      (* 0 < p, hence 0 < 1 - p *)
      assert (Hq0 : 0 < 1 - winProb).
      { assert (H : 0 < (1 - winProb) * lossAmount).
        { apply Qlt_le_trans with (winProb * winAmount); [|exact Hedge].
          apply Qmult_lt_0_compat; assumption. }
        destruct (Qlt_le_dec 0 (1 - winProb)) as [H1|H1]; [exact H1|].
        exfalso. assert (H2 : (1 - winProb) * lossAmount <= 0) by nra. lra. }
      destruct (round_pos_bounds _ Hq0) as (Hqlow & _ & Hq). fold q in Hqlow, Hq.
      assert (Hqb : 0 < q / b) by (apply Qlt_shift_div_l; [exact Hb | lra]).
      destruct (round_pos_bounds _ Hqb) as (Hclow & _ & Hc). fold c in Hclow, Hc.
      (* the exact ratio r = w/l, with p r <= 1 - p *)
      set (r := winAmount / lossAmount) in *.
      assert (Hr : winProb * r <= 1 - winProb).
      { unfold r. apply Qle_shift_div_r with (b := lossAmount) (a := winProb * winAmount)
                    (c := 1 - winProb) in Hedge; [|exact Hl].
        assert (E : winProb * (winAmount / lossAmount)
                    == winProb * winAmount / lossAmount).
        { field. intros Hz. rewrite Hz in Hl. discriminate Hl. }
        rewrite E. exact Hedge. }
      set (d := q / b) in *.
      assert (Hd : d * b == q).
      { unfold d. field. intros Hz. rewrite Hz in Hb. discriminate Hb. }
      unfold half_ulp in *.
      (* d (1+h) >= p (1-h) *)
      assert (Hdp : winProb * (1 - (1 # 20000000000000000000))
                    <= d * (1 + (1 # 20000000000000000000))).
      { assert (H1 : winProb * r * (1 - (1 # 20000000000000000000)) <= d * b) by
          (rewrite Hd; nra).
        assert (H2 : d * b <= d * (r * (1 + (1 # 20000000000000000000)))) by nra.
        assert (H3 : winProb * (1 - (1 # 20000000000000000000)) * r
                     <= d * (1 + (1 # 20000000000000000000)) * r) by nra.
        apply (Qmult_le_r _ _ r Hratio). exact H3. }
      assert (Hp1 : winProb < 1) by lra.
      assert (Hgap : winProb - c <= 3 * (1 # 20000000000000000000)) by nra.
      apply clamp_le; [lra|].
      destruct (Qlt_le_dec 0 (winProb - c)) as [Hpos|Hneg].
      * destruct (round_pos_bounds _ Hpos) as (_ & Hup & _).
        unfold half_ulp in Hup.
        assert (Hm : (winProb - c) * (1 + (1 # 20000000000000000000))
                     <= 3 * (1 # 20000000000000000000)
                        * (1 + (1 # 20000000000000000000))).
        { apply Qmult_le_r; [reflexivity | exact Hgap]. }
        lra.
      * assert (Hk : Rounded.round (winProb - c) <= 0) by (apply round_sign; exact Hneg).
        lra.
Qed.

(** With no edge at all (0.35 x 13 = 0.65 x 7) the code returns 1e-20,
    where the exact formula gives 0. *)
Example kellyFraction_no_edge_residue :
  (35 # 100) * 13 == (1 - (35 # 100)) * 7 /\
  Rounded.kellyFraction (35 # 100) 13 7 == 1 # 100000000000000000000 /\
  kellyFraction (35 # 100) 13 7 == 0.
Proof. repeat split. Qed.

(** ** The EMA, as decimal.js computes it *)

Lemma Qabs_chain (a b c : Q) : Qabs (a - c) <= Qabs (a - b) + Qabs (b - c).
Proof.
  assert (E : a - c == (a - b) + (b - c)) by ring.
  rewrite E. apply Qabs_triangle.
Qed.

Lemma Qabs_le_near (a b : Q) : Qabs a <= Qabs b + Qabs (a - b).
Proof.
  assert (E : a == b + (a - b)) by ring.
  rewrite E at 1. apply Qabs_triangle.
Qed.

Lemma Qabs_mult_le (a b c d : Q) :
  Qabs a <= c -> Qabs b <= d -> Qabs (a * b) <= c * d.
Proof.
  intros Ha Hb. rewrite Qabs_Qmult.
  apply Qmult_le_compat_nonneg; split;
    try apply Qabs_nonneg; assumption.
Qed.

(** X19: one update of an EMA is the exact recurrence up to rounding.
    The first update stores and returns the price itself; a later one
    returns alpha x price + (1 - alpha) x value with an error of at most
    2 units in the 19th significant digit of
    |alpha x price| + |(1 - alpha) x value|, the four rounded
    operations taken together; alpha is never changed and the value
    stored is the value returned. *)
Theorem EMA_update_close_to_exact (price : Decimal) (self : EMA) :
  let '(v', self') := Rounded.EMA_update price self in
  alpha self' = alpha self /\ value self' = Some v' /\
  match value self with
  | None => v' = price
  | Some v =>
      Qabs (v' - (alpha self * price + (1 - alpha self) * v))
      <= 4 * half_ulp * (Qabs (alpha self * price)
                         + Qabs ((1 - alpha self) * v))
  end.
Proof.
  unfold Rounded.EMA_update.
  destruct (value self) as [v|]; [|repeat split].
  split; [reflexivity|]. split; [reflexivity|].
  unfold Rounded.plus, Rounded.times, Rounded.minus.
  set (a := alpha self).
  set (t1 := Rounded.round (a * price)).
  set (om := Rounded.round (1 - a)).
  set (t2 := Rounded.round (om * v)).
  pose proof (round_error (a * price)) as H1. fold t1 in H1.
  pose proof (round_error (1 - a)) as H2. fold om in H2.
  pose proof (round_error (om * v)) as H3. fold t2 in H3.
  pose proof (round_error (t1 + t2)) as H4.
  set (r := Rounded.round (t1 + t2)) in *.
  set (P := Qabs (a * price)) in *.
  set (W := Qabs ((1 - a) * v)).
  assert (HP : 0 <= P) by apply Qabs_nonneg.
  assert (HW : 0 <= W) by apply Qabs_nonneg.
  (* |om v - (1-a) v| <= h W *)
  assert (H5 : Qabs (om * v - (1 - a) * v) <= half_ulp * W).
  { assert (E : om * v - (1 - a) * v == (om - (1 - a)) * v) by ring.
    rewrite E. unfold W. rewrite (Qabs_Qmult (1 - a) v).
    assert (E' : half_ulp * (Qabs (1 - a) * Qabs v)
                 == half_ulp * Qabs (1 - a) * Qabs v) by ring.
    rewrite E'. apply Qabs_mult_le; [exact H2 | apply Qle_refl]. }
  (* |om v| <= (1+h) W *)
  assert (H6 : Qabs (om * v) <= W + half_ulp * W).
  { pose proof (Qabs_le_near (om * v) ((1 - a) * v)) as Hn.
    fold W in Hn. lra. }
  (* |t2 - (1-a) v| *)
  pose proof (Qabs_chain t2 (om * v) ((1 - a) * v)) as H7.
  (* |s - E| *)
  assert (H8 : Qabs (t1 + t2 - (a * price + (1 - a) * v))
               <= Qabs (t1 - a * price) + Qabs (t2 - (1 - a) * v)).
  { assert (E : t1 + t2 - (a * price + (1 - a) * v)
                == (t1 - a * price) + (t2 - (1 - a) * v)) by ring.
    rewrite E. apply Qabs_triangle. }
  (* |s| <= |E| + |s - E| *)
  pose proof (Qabs_le_near (t1 + t2) (a * price + (1 - a) * v)) as H9.
  pose proof (Qabs_triangle (a * price) ((1 - a) * v)) as H10.
  fold P in H10. fold W in H10.
  pose proof (Qabs_chain r (t1 + t2) (a * price + (1 - a) * v)) as H11.
  unfold half_ulp in *.
  assert (Hh3 : (1 # 20000000000000000000) * Qabs (om * v)
                <= (1 # 20000000000000000000)
                   * (W + (1 # 20000000000000000000) * W)).
  { apply Qmult_le_l; [reflexivity | exact H6]. }
  assert (Hh4 : (1 # 20000000000000000000) * Qabs (t1 + t2)
                <= (1 # 20000000000000000000)
                   * (P + W + Qabs (t1 + t2 - (a * price + (1 - a) * v)))).
  { apply Qmult_le_l; [reflexivity | lra]. }
  lra.
Qed.

(** The smoothing factor of a period of at least 1 lies in (0, 1], and
    is at least (2 / (period + 1)) less its rounding. *)
Lemma newEMA_alpha_bounds (period : Z) :
  (1 <= period)%Z ->
  let a := alpha (Rounded.newEMA period) in
  0 < a /\ a <= 1 /\
  (2 / inject_Z (period + 1)) * (1 - half_ulp) <= a.
Proof.
  intros Hp. cbv zeta. unfold Rounded.newEMA, Rounded.div. cbn [alpha].
  assert (HP : 2 <= inject_Z (period + 1)).
  { change 2 with (inject_Z 2). rewrite <- Zle_Qle. lia. }
  assert (Hx : 0 < 2 / inject_Z (period + 1)).
  { apply Qlt_shift_div_l; lra. }
  assert (Hx1 : 2 / inject_Z (period + 1) <= 1).
  { apply Qle_shift_div_r; lra. }
  destruct (round_pos_bounds _ Hx) as (Hlow & _ & Hpos).
  split; [exact Hpos|]. split; [apply round_le_one; assumption | exact Hlow].
Qed.

(** One update keeps the value in the widened range, for any smoothing
    factor [a] in (0, 1] and any widening [eta] of at most 1/10 with
    [eta * a] at least four half units. *)
Lemma EMA_update_within (a lo hi eta price v : Q) :
  0 < a -> a <= 1 -> 0 <= lo ->
  0 <= eta -> eta <= 1 # 10 -> 4 * half_ulp * (1 - half_ulp) <= eta * a ->
  lo <= price -> price <= hi ->
  lo * (1 - eta) <= v -> v <= hi * (1 + eta) ->
  let v' := fst (Rounded.EMA_update price {| alpha := a; value := Some v |}) in
  lo * (1 - eta) <= v' /\ v' <= hi * (1 + eta).
Proof.
  intros Ha Ha1 Hlo Heta Heta1 Hea Hpl Hph Hvl Hvh. cbv zeta.
  unfold Rounded.EMA_update. cbn [value alpha fst].
  unfold Rounded.plus, Rounded.times, Rounded.minus.
  assert (Hhi : 0 <= hi) by lra.
  assert (Hv0 : 0 <= v).
  { apply Qle_trans with (lo * (1 - eta)); [|exact Hvl].
    apply Qmult_le_0_compat; lra. }
  assert (Hp0 : 0 <= price) by lra.
  assert (Hap : 0 <= a * price) by (apply Qmult_le_0_compat; lra).
  destruct (round_nonneg_bounds (a * price) Hap) as [Ht1l Ht1u].
  set (t1 := Rounded.round (a * price)) in *.
  assert (Hu : 0 <= 1 - a) by lra.
  destruct (round_nonneg_bounds (1 - a) Hu) as [Homl Homu].
  assert (Hom0 : 0 <= Rounded.round (1 - a)) by (apply round_sign; exact Hu).
  set (om := Rounded.round (1 - a)) in *.
  assert (Homv : 0 <= om * v) by (apply Qmult_le_0_compat; assumption).
  destruct (round_nonneg_bounds (om * v) Homv) as [Ht2l Ht2u].
  assert (Ht20 : 0 <= Rounded.round (om * v)) by (apply round_sign; exact Homv).
  set (t2 := Rounded.round (om * v)) in *.
  assert (Ht10 : 0 <= t1) by (apply round_sign; exact Hap).
  assert (Hs0 : 0 <= t1 + t2) by lra.
  destruct (round_nonneg_bounds (t1 + t2) Hs0) as [Hrl Hru].
  set (r := Rounded.round (t1 + t2)) in *.
  unfold half_ulp in *.
  set (h := 1 # 20000000000000000000) in *.
  assert (Hh : 0 < h) by reflexivity.
  split.
  - (* lower bound *)
    (* t1 >= a lo (1-h) *)
    assert (L1 : a * lo * (1 - h) <= t1).
    { apply Qle_trans with (a * price * (1 - h)); [|exact Ht1l].
      apply Qmult_le_r; [reflexivity|]. apply Qmult_le_l; assumption. }
    (* om v >= (1-a)(1-h) lo (1-eta) *)
    assert (L2 : (1 - a) * (1 - h) * (lo * (1 - eta)) <= om * v).
    { apply Qmult_le_compat_nonneg; split; try assumption.
      - apply Qmult_le_0_compat; [exact Hu | discriminate].
      - apply Qmult_le_0_compat; lra. }
    assert (L3 : (1 - a) * (1 - h) * (lo * (1 - eta)) * (1 - h) <= t2).
    { apply Qle_trans with (om * v * (1 - h)); [|exact Ht2l].
      apply Qmult_le_r; [reflexivity | exact L2]. }
    assert (L4 : (a * lo * (1 - h)
                  + (1 - a) * (1 - h) * (lo * (1 - eta)) * (1 - h)) * (1 - h)
                 <= r).
    { apply Qle_trans with ((t1 + t2) * (1 - h)); [|exact Hrl].
      apply Qmult_le_r; [reflexivity | lra]. }
    apply Qle_trans with
      ((a * lo * (1 - h)
        + (1 - a) * (1 - h) * (lo * (1 - eta)) * (1 - h)) * (1 - h));
      [|exact L4].
    (* lo (1-eta) <= lo [(1-h)^2 a + (1-h)^3 (1-a)(1-eta)] *)
    assert (E : (a * lo * (1 - h)
                 + (1 - a) * (1 - h) * (lo * (1 - eta)) * (1 - h)) * (1 - h)
                == lo * ((1 - h) * (1 - h) * a
                         + (1 - h) * (1 - h) * (1 - h) * ((1 - a) * (1 - eta))))
      by ring.
    rewrite E.
    destruct (Qlt_le_dec 0 lo) as [Hlo'|Hlo'];
      [|assert (Hz : lo == 0) by lra; rewrite Hz; lra].
    apply Qmult_le_l; [exact Hlo'|].
    set (z := eta * a) in *.
    assert (Ez : (1 - a) * (1 - eta) == 1 - a - eta + z) by (unfold z; ring).
    rewrite Ez.
    assert (Hz1 : z <= eta).
    { unfold z. assert (H : eta * a <= eta * 1).
      { destruct (Qlt_le_dec 0 eta) as [He|He].
        - apply Qmult_le_l; assumption.
        - assert (E0 : eta == 0) by lra. rewrite E0. lra. }
      lra. }
    unfold h in *. lra.
  - (* upper bound *)
    assert (U1 : t1 <= a * hi * (1 + h)).
    { apply Qle_trans with (a * price * (1 + h)); [exact Ht1u|].
      apply Qmult_le_r; [reflexivity|]. apply Qmult_le_l; assumption. }
    assert (U2 : om * v <= (1 - a) * (1 + h) * (hi * (1 + eta))).
    { apply Qmult_le_compat_nonneg; split; assumption. }
    assert (U3 : t2 <= (1 - a) * (1 + h) * (hi * (1 + eta)) * (1 + h)).
    { apply Qle_trans with (om * v * (1 + h)); [exact Ht2u|].
      apply Qmult_le_r; [reflexivity | exact U2]. }
    assert (U4 : r <= (a * hi * (1 + h)
                       + (1 - a) * (1 + h) * (hi * (1 + eta)) * (1 + h))
                      * (1 + h)).
    { apply Qle_trans with ((t1 + t2) * (1 + h)); [exact Hru|].
      apply Qmult_le_r; [reflexivity | lra]. }
    apply Qle_trans with
      ((a * hi * (1 + h)
        + (1 - a) * (1 + h) * (hi * (1 + eta)) * (1 + h)) * (1 + h));
      [exact U4|].
    assert (E : (a * hi * (1 + h)
                 + (1 - a) * (1 + h) * (hi * (1 + eta)) * (1 + h)) * (1 + h)
                == hi * ((1 + h) * (1 + h) * a
                         + (1 + h) * (1 + h) * (1 + h) * ((1 - a) * (1 + eta))))
      by ring.
    rewrite E.
    destruct (Qlt_le_dec 0 hi) as [Hhi'|Hhi'];
      [|assert (Hz : hi == 0) by lra; rewrite Hz; lra].
    apply Qmult_le_l; [exact Hhi'|].
    set (z := eta * a) in *.
    assert (Ez : (1 - a) * (1 + eta) == 1 - a + eta - z) by (unfold z; ring).
    rewrite Ez.
    unfold h in *. lra.
Qed.

Lemma Rounded_EMA_update_alpha price self :
  alpha (snd (Rounded.EMA_update price self)) = alpha self.
Proof. unfold Rounded.EMA_update. destruct (value self); reflexivity. Qed.

Lemma EMA_feed_within (a lo hi eta : Q) (prices : list Decimal) :
  0 < a -> a <= 1 -> 0 <= lo ->
  0 <= eta -> eta <= 1 # 10 -> 4 * half_ulp * (1 - half_ulp) <= eta * a ->
  Forall (fun p => lo <= p /\ p <= hi) prices ->
  forall v,
    lo * (1 - eta) <= v -> v <= hi * (1 + eta) ->
    exists v',
      Rounded.EMA_feed prices {| alpha := a; value := Some v |}
      = {| alpha := a; value := Some v' |} /\
      lo * (1 - eta) <= v' /\ v' <= hi * (1 + eta).
Proof.
  intros Ha Ha1 Hlo Heta Heta1 Hea Hall.
  induction Hall as [|p ps [Hpl Hph] _ IH]; intros v Hvl Hvh.
  - exists v. repeat split; assumption.
  - pose proof (EMA_update_within a lo hi eta p v Ha Ha1 Hlo Heta Heta1 Hea
                  Hpl Hph Hvl Hvh) as Hstep.
    cbv zeta in Hstep. cbn [Rounded.EMA_feed fold_left].
    assert (E : snd (Rounded.EMA_update p {| alpha := a; value := Some v |})
                = {| alpha := a;
                     value := Some (fst (Rounded.EMA_update p
                                {| alpha := a; value := Some v |})) |})
      by reflexivity.
    rewrite E. apply IH; apply Hstep.
Qed.

(** X18: an EMA stays within the range of the prices it has seen, up to
    rounding.  For a period from 1 to 10^15 (an integer that JavaScript
    adds 1 to exactly), after feeding a fresh EMA a non-empty list of
    prices that all lie in [lo, hi], with lo not negative, its value is
    set and lies in [lo x (1 - d), hi x (1 + d)], where
    d = (period + 1) x 10^-19. *)
Theorem EMA_within_price_range
    (period : Z) (lo hi : Decimal) (prices : list Decimal) :
  (1 <= period <= 10 ^ 15)%Z -> 0 <= lo ->
  prices <> [] -> Forall (fun p => lo <= p /\ p <= hi) prices ->
  exists v,
    value (Rounded.EMA_feed prices (Rounded.newEMA period)) = Some v /\
    lo * (1 - ema_drift period) <= v /\
    v <= hi * (1 + ema_drift period).
Proof.
  intros [Hp1 Hp2] Hlo Hne Hall.
  destruct prices as [|p ps]; [congruence|].
  apply List.Forall_cons_iff in Hall. destruct Hall as [[Hpl Hph] Hall].
  destruct (newEMA_alpha_bounds period Hp1) as (Ha & Ha1 & Halow).
  cbv zeta in Ha, Ha1, Halow.
  set (a := alpha (Rounded.newEMA period)) in *.
  assert (HP : 2 <= inject_Z (period + 1)).
  { change 2 with (inject_Z 2). rewrite <- Zle_Qle. lia. }
  assert (HP' : inject_Z (period + 1) <= 1000000000000000000).
  { change 1000000000000000000 with (inject_Z (10 ^ 18)).
    rewrite <- Zle_Qle.
    assert (H15 : (10 ^ 15 < 10 ^ 18 - 1)%Z) by reflexivity. lia. }
  assert (Heta : 0 <= ema_drift period).
  { unfold ema_drift, half_ulp. apply Qmult_le_0_compat; [lra | discriminate]. }
  assert (Heta1 : ema_drift period <= 1 # 10).
  { unfold ema_drift, half_ulp. lra. }
  assert (Hea : 4 * half_ulp * (1 - half_ulp) <= ema_drift period * a).
  { unfold ema_drift.
    apply Qle_trans with
      (inject_Z (period + 1) * (2 * half_ulp)
       * (2 / inject_Z (period + 1) * (1 - half_ulp))).
    - assert (E : inject_Z (period + 1) * (2 * half_ulp)
                  * (2 / inject_Z (period + 1) * (1 - half_ulp))
                  == 4 * half_ulp * (1 - half_ulp)).
      { field. intros Hz. rewrite Hz in HP. lra. }
      rewrite E. apply Qle_refl.
    - apply Qmult_le_l; [|exact Halow].
      unfold half_ulp. apply Qmult_lt_0_compat; [lra | reflexivity]. }
  cbn [Rounded.EMA_feed fold_left].
  assert (E : snd (Rounded.EMA_update p (Rounded.newEMA period))
              = {| alpha := a; value := Some p |}) by reflexivity.
  rewrite E.
  assert (Hpl' : lo * (1 - ema_drift period) <= p).
  { apply Qle_trans with lo; [|exact Hpl].
    assert (H : 0 <= lo * ema_drift period) by (apply Qmult_le_0_compat; assumption).
    lra. }
  assert (Hph' : p <= hi * (1 + ema_drift period)).
  { apply Qle_trans with hi; [exact Hph|].
    assert (H : 0 <= hi * ema_drift period)
      by (apply Qmult_le_0_compat; [lra | assumption]).
    lra. }
  destruct (EMA_feed_within a lo hi (ema_drift period) ps Ha Ha1 Hlo Heta Heta1
              Hea Hall p Hpl' Hph') as (v' & Hfeed & Hl & Hh).
  exists v'. fold (Rounded.EMA_feed ps {| alpha := a; value := Some p |}).
  rewrite Hfeed. cbn [value]. repeat split; assumption.
Qed.

(** An EMA of period 20 fed 0.5, 0.5 and 0.6. *)
Lemma EMA_within_price_range_witness :
  exists v,
    value (Rounded.EMA_feed [1 # 2; 1 # 2; 6 # 10] (Rounded.newEMA 20)) = Some v /\
    (1 # 2) * (1 - ema_drift 20) <= v /\
    v <= (6 # 10) * (1 + ema_drift 20).
Proof.
  apply (EMA_within_price_range 20 (1 # 2) (6 # 10) [1 # 2; 1 # 2; 6 # 10]).
  - split; [lia | vm_compute; discriminate].
  - discriminate.
  - discriminate.
  - repeat constructor; discriminate.
Defined.

(** The widening is needed: fed 0.5 twice, an EMA of period 20 holds
    0.50000000000000000001, which is above every price it has seen; in
    exact arithmetic it would hold 0.5. *)
Example EMA_rounding_residue :
  (exists v, value (Rounded.EMA_feed [1 # 2; 1 # 2] (Rounded.newEMA 20)) = Some v
             /\ v == 50000000000000000001 # 100000000000000000000
             /\ (1 # 2) < v) /\
  (exists v, value (EMA_feed [1 # 2; 1 # 2] (newEMA 20)) = Some v /\ v == 1 # 2).
Proof.
  split.
  - eexists. split; [reflexivity|]. split; vm_compute; reflexivity.
  - eexists. split; [reflexivity|]. vm_compute. reflexivity.
Qed.
